(** * The tabular normalization pipeline of the CORFO APL datasets

    A shallow embedding of [src/etl/transformers.py] and
    [src/etl/post_processors.py].  The transformation steps are thin
    compositions of Python string methods and pandas operations; the first
    part of the file models those host operations on the data the pipeline
    handles, the second part transcribes the repository's functions over
    them, the third part states and proves the properties. *)

From Stdlib Require Import String Ascii.
From Stdlib Require Import List ZArith NArith QArith Bool Lia.
From Stdlib Require Import Permutation Sorted.
From Stdlib Require DecimalString.
From Equations Require Import Equations.
Import ListNotations.

Set Implicit Arguments.
Close Scope Q_scope.
Open Scope bool_scope.

(** ** Python strings *)

(** A Python [str] is a sequence of Unicode code points. *)
Definition pystr : Type := list N.

(** Source literals are written as Rocq strings, which hold UTF-8 bytes;
    [py] decodes them into code points. *)
Fixpoint utf8_decode (bs : list N) : pystr :=
  match bs with
  | [] => []
  | b :: r =>
      if (b <? 128)%N then b :: utf8_decode r
      else if (b <? 224)%N then
        match r with
        | b1 :: r1 => ((b - 192) * 64 + (b1 - 128))%N :: utf8_decode r1
        | _ => [b]
        end
      else if (b <? 240)%N then
        match r with
        | b1 :: b2 :: r2 =>
            ((b - 224) * 4096 + (b1 - 128) * 64 + (b2 - 128))%N :: utf8_decode r2
        | _ => [b]
        end
      else
        match r with
        | b1 :: b2 :: b3 :: r3 =>
            ((b - 240) * 262144 + (b1 - 128) * 4096 + (b2 - 128) * 64 + (b3 - 128))%N
              :: utf8_decode r3
        | _ => [b]
        end
  end.

Definition py (s : string) : pystr :=
  utf8_decode (map N_of_ascii (list_ascii_of_string s)).

Definition pystr_eqb (a b : pystr) : bool :=
  if list_eq_dec N.eq_dec a b then true else false.

(** [str.isspace] on one code point: the characters [str.strip()] removes. *)
Definition is_space (c : N) : bool :=
  ((9 <=? c) && (c <=? 13) || (28 <=? c) && (c <=? 32)
   || (c =? 133) || (c =? 160) || (c =? 5760)
   || (8192 <=? c) && (c <=? 8202)
   || (c =? 8232) || (c =? 8233) || (c =? 8239) || (c =? 8287) || (c =? 12288))%N.

Fixpoint lstrip_by (p : N -> bool) (s : pystr) : pystr :=
  match s with
  | [] => []
  | c :: r => if p c then lstrip_by p r else s
  end.

Definition rstrip_by (p : N -> bool) (s : pystr) : pystr :=
  rev (lstrip_by p (rev s)).

Definition strip_by (p : N -> bool) (s : pystr) : pystr :=
  rstrip_by p (lstrip_by p s).

(** [s.strip()] *)
Definition strip (s : pystr) : pystr := strip_by is_space s.

(** [s.strip(chars)] *)
Definition strip_chars (chars s : pystr) : pystr :=
  strip_by (fun c => existsb (N.eqb c) chars) s.

(** [str.lower] on one code point, for the Basic Latin and Latin-1
    Supplement blocks (the blocks the Spanish headers and labels of the
    datasets are written in); a code point outside them is returned as it
    is, which is what [str.lower] does for every character without case. *)
Definition lower_cp (c : N) : N :=
  if ((65 <=? c) && (c <=? 90))%N then (c + 32)%N
  else if ((192 <=? c) && (c <=? 222) && negb (c =? 215))%N then (c + 32)%N
  else c.

(** [s.lower()] *)
Definition lower (s : pystr) : pystr := map lower_cp s.

Fixpoint startswith (prefix s : pystr) : bool :=
  match prefix, s with
  | [], _ => true
  | p :: prefix', c :: s' => (p =? c)%N && startswith prefix' s'
  | _ :: _, [] => false
  end.

(** [old in s] *)
Fixpoint contains (old s : pystr) : bool :=
  startswith old s ||
  match s with
  | [] => false
  | _ :: s' => contains old s'
  end.

(** [s.replace(old, new)] for a non-empty [old] (every call of the source
    passes a literal of one or two characters): occurrences are replaced
    from left to right and do not overlap.  [skip] counts the characters
    of the occurrence just replaced that are still to be passed over. *)
Fixpoint replace_from (old new s : pystr) (skip : nat) : pystr :=
  match s with
  | [] => []
  | c :: s' =>
      match skip with
      | S k => replace_from old new s' k
      | O =>
          if startswith old s
          then new ++ replace_from old new s' (length old - 1)
          else c :: replace_from old new s' 0
      end
  end.

Definition replace (old new s : pystr) : pystr := replace_from old new s 0.

Definition sp : pystr := Eval cbv in py " ".
Definition us : pystr := Eval cbv in py "_".
Definition hy : pystr := Eval cbv in py "-".
Definition us2 : pystr := Eval cbv in py "__".

Definition inspect {A : Type} (a : A) : {b : A | a = b} := exist _ a eq_refl.

(** The loop [while "__" in clean_value: clean_value = clean_value.replace("__", "_")]. *)
Equations? collapse_loop (s : pystr) : pystr by wf (length s) lt :=
  collapse_loop s with inspect (contains us2 s) => {
    | exist _ true e => collapse_loop (replace us2 us s);
    | exist _ false _ => s }.
Proof.
  clear collapse_loop. unfold replace.
  assert (G : forall t k, length (replace_from us2 us t k) <= length t).
  { induction t as [|c t IH]; intros k; cbn [replace_from length]; [lia|].
    destruct k as [|k]; [|specialize (IH k); lia].
    destruct (startswith us2 (c :: t)).
    - specialize (IH 1). cbn [us2 us app length Nat.sub] in *. lia.
    - specialize (IH 0). cbn [length]. lia. }
  induction s as [|c s IH]; [discriminate|].
  cbn [contains replace_from length] in *.
  destruct (startswith us2 (c :: s)) eqn:E.
  - destruct s as [|d s'];
      [cbn in E; rewrite andb_false_r in E; discriminate|].
    specialize (G s' 0). cbn [us2 us app length Nat.sub replace_from] in *. lia.
  - cbn [orb] in e. specialize (IH e). cbn [length]. lia.
Qed.

(** [to_snake], the helper of [standardize_column_names]. *)
Definition to_snake (value : pystr) : pystr :=
  let clean_value := replace sp us (lower (strip value)) in
  let clean_value := replace hy us clean_value in
  let clean_value :=
    replace (py "ú") (py "u")
      (replace (py "ó") (py "o")
         (replace (py "í") (py "i")
            (replace (py "é") (py "e")
               (replace (py "á") (py "a") clean_value)))) in
  let clean_value := replace (py "ñ") (py "n") clean_value in
  let clean_value := collapse_loop clean_value in
  strip_chars us clean_value.

(** ** Cells, numbers and the numeric parser *)

(** One cell of a pandas frame as [read_csv] and the steps produce them.
    A finite float is represented by the number it denotes; binary64
    rounding and the int64 range are outside the model. *)
Inductive cell : Type :=
| NA                      (* the missing marker: NaN, None *)
| Int (z : Z)             (* an integer *)
| Float (q : Q)           (* a finite float *)
| Inf (negative : bool)   (* float infinity *)
| Str (s : pystr).        (* text *)

Definition isna (c : cell) : bool :=
  match c with NA => true | _ => false end.

Definition notna (c : cell) : bool := negb (isna c).

Definition is_digit (c : N) : bool := ((48 <=? c) && (c <=? 57))%N.

(** Whitespace of the C locale, skipped around a numeric literal. *)
Definition is_c_space (c : N) : bool :=
  ((c =? 32) || (9 <=? c) && (c <=? 13))%N.

Fixpoint take_digits (s : pystr) : pystr * pystr :=
  match s with
  | [] => ([], [])
  | c :: r =>
      if is_digit c
      then let (d, r') := take_digits r in (c :: d, r')
      else ([], s)
  end.

Definition digits_value (d : pystr) : Z :=
  fold_left (fun acc c => (acc * 10 + (Z.of_N c - 48))%Z) d 0%Z.

Definition take_sign (s : pystr) : bool * pystr :=
  match s with
  | 45%N :: r => (true, r)
  | 43%N :: r => (false, r)
  | _ => (false, s)
  end.

Definition signed (negative : bool) (z : Z) : Z :=
  if negative then (- z)%Z else z.

(** The value [m * 10^e]. *)
Definition scale10 (m e : Z) : Q :=
  if (0 <=? e)%Z then inject_Z (m * 10 ^ e)
  else Qmake m (Z.to_pos (10 ^ (- e))).

(** An optional exponent part [e[+-]digits]; an [e] with no digit after it
    is not consumed. *)
Definition take_exponent (s : pystr) : option Z * pystr :=
  match s with
  | c :: r =>
      if ((c =? 101) || (c =? 69))%N then
        let (neg, r1) := take_sign r in
        let (d, r2) := take_digits r1 in
        match d with
        | [] => (None, s)
        | _ => (Some (signed neg (digits_value d)), r2)
        end
      else (None, s)
  | [] => (None, s)
  end.

(** A decimal literal: optional blanks, sign, digits with an optional
    fraction (at least one digit in all), optional exponent, optional
    blanks.  Without fraction and exponent it is an integer. *)
Definition parse_decimal (s : pystr) : option cell :=
  let (neg, s2) := take_sign (lstrip_by is_c_space s) in
  let (ip, s3) := take_digits s2 in
  let '(dot, fp, s4) :=
    match s3 with
    | 46%N :: r => let (f, r') := take_digits r in (true, f, r')
    | _ => (false, [], s3)
    end in
  match ip ++ fp with
  | [] => None
  | mantissa =>
      let (ex, s5) := take_exponent s4 in
      match lstrip_by is_c_space s5 with
      | [] =>
          match dot, ex with
          | false, None => Some (Int (signed neg (digits_value ip)))
          | _, _ =>
              let e := match ex with Some e => e | None => 0%Z end in
              Some (Float (scale10 (signed neg (digits_value mantissa))
                             (e - Z.of_nat (length fp))))
          end
      | _ => None
      end
  end.

(** The special tokens, compared without regard to case. *)
Definition parse_special (s : pystr) : cell :=
  let t := lower s in
  if pystr_eqb t (py "inf") || pystr_eqb t (py "+inf")
     || pystr_eqb t (py "infinity") || pystr_eqb t (py "+infinity")
  then Inf false
  else if pystr_eqb t (py "-inf") || pystr_eqb t (py "-infinity")
  then Inf true
  else NA.

(** What the numeric parser makes of a text cell; [NA] when it is not a
    number. *)
Definition parse_number (s : pystr) : cell :=
  match parse_decimal s with
  | Some c => c
  | None => parse_special s
  end.

(** [pd.to_numeric(series, errors="coerce")] on one cell. *)
Definition to_numeric (c : cell) : cell :=
  match c with
  | Str s => parse_number s
  | _ => c
  end.

(** [series.fillna(0)] on one cell. *)
Definition fillna0 (c : cell) : cell :=
  match c with NA => Int 0 | _ => c end.

(** Truncation toward zero. *)
Definition Qtrunc (q : Q) : Z := Z.quot (Qnum q) (Zpos (Qden q)).

Inductive error : Type :=
| KeyError (column : pystr)
| TypeError
| ValueError
| AttributeError
| IntCastingNaNError.

Inductive result (A : Type) : Type :=
| Ok (a : A)
| Raise (e : error).
Arguments Ok {A} a.
Arguments Raise {A} e.

Definition bind {A B : Type} (r : result A) (f : A -> result B) : result B :=
  match r with
  | Ok a => f a
  | Raise e => Raise e
  end.

Notation "x <- r ;; k" := (bind r (fun x => k))
  (at level 61, r at next level, right associativity).

(** [astype(int)] on one cell: a float is truncated toward zero, a
    non-finite value cannot be converted. *)
Definition astype_int_cell (c : cell) : result cell :=
  match c with
  | Int z => Ok (Int z)
  | Float q => Ok (Int (Qtrunc q))
  | NA | Inf _ => Raise IntCastingNaNError
  | Str _ => Raise ValueError
  end.

(** [series.astype(int)]: the first cell that cannot be converted makes
    the whole conversion raise. *)
Fixpoint astype_int (series : list cell) : result (list cell) :=
  match series with
  | [] => Ok []
  | c :: rest =>
      v <- astype_int_cell c ;;
      vs <- astype_int rest ;;
      Ok (v :: vs)
  end.

(** [pd.to_numeric(series, errors="coerce").fillna(0).astype(int)], the
    expression shared by the integer steps and the yearly summary. *)
Definition to_integer_series (series : list cell) : result (list cell) :=
  astype_int (map fillna0 (map to_numeric series)).

(** ** Frames *)

(** A row carries its index label and its cells in column order. *)
Definition row : Type := (nat * list cell)%type.

(** A pandas [DataFrame]: the column labels (pandas lets a label repeat)
    and the rows. *)
Record DataFrame : Type := mkFrame {
  columns : list pystr;
  rows : list row
}.

(** The invariant of the tabular container: every row has one cell per
    column. *)
Definition rectangular (df : DataFrame) : Prop :=
  Forall (fun r : row => length (snd r) = length (columns df)) (rows df).

Definition cell_at (j : nat) (r : row) : cell := nth j (snd r) NA.

Definition column_values (j : nat) (df : DataFrame) : list cell :=
  map (cell_at j) (rows df).

(** Boolean indexing: the elements whose mask entry is [true]. *)
Fixpoint select {A : Type} (mask : list bool) (l : list A) : list A :=
  match mask, l with
  | b :: mask', x :: l' => if b then x :: select mask' l' else select mask' l'
  | _, _ => []
  end.

Fixpoint set_nth {A : Type} (j : nat) (v : A) (l : list A) : list A :=
  match l, j with
  | [], _ => []
  | _ :: l', O => v :: l'
  | x :: l', S j' => x :: set_nth j' v l'
  end.

Fixpoint positions (c : pystr) (cols : list pystr) (from : nat) : list nat :=
  match cols with
  | [] => []
  | d :: cols' =>
      if pystr_eqb c d then from :: positions c cols' (S from)
      else positions c cols' (S from)
  end.

Inductive column_lookup : Type :=
| NoColumn
| OneColumn (j : nat)
| ManyColumns.

(** What [dataframe[column]] finds: nothing (a [KeyError]), one column (a
    Series) or several columns of that label (a frame, not a Series). *)
Definition lookup_column (c : pystr) (cols : list pystr) : column_lookup :=
  match positions c cols 0 with
  | [] => NoColumn
  | [j] => OneColumn j
  | _ => ManyColumns
  end.

(** [dataframe.loc[mask]] *)
Definition loc (df : DataFrame) (mask : list bool) : DataFrame :=
  {| columns := columns df; rows := select mask (rows df) |}.

(** [result[column] = series] for the column at position [j]. *)
Definition set_column (j : nat) (series : list cell) (df : DataFrame) : DataFrame :=
  {| columns := columns df;
     rows := map (fun rv : row * cell => (fst (fst rv), set_nth j (snd rv) (snd (fst rv))))
               (combine (rows df) series) |}.

(** [dataframe.reset_index(drop=True)] *)
Definition reset_index (df : DataFrame) : DataFrame :=
  {| columns := columns df;
     rows := combine (seq 0 (length (rows df))) (map snd (rows df)) |}.

(** [dataframe.dropna(axis=1, how="all")]: a column stays when some cell
    of it is not missing. *)
Definition dropna_columns (df : DataFrame) : DataFrame :=
  let mask := map (fun j => existsb notna (column_values j df))
                (seq 0 (length (columns df))) in
  {| columns := select mask (columns df);
     rows := map (fun r : row => (fst r, select mask (snd r))) (rows df) |}.

(** [dataframe.dropna(axis=0, how="all")]: a row stays when some cell of
    it is not missing. *)
Definition dropna_rows (df : DataFrame) : DataFrame :=
  {| columns := columns df;
     rows := filter (fun r : row => existsb notna (snd r)) (rows df) |}.

(** [dataframe.dropna(subset=subset, how="any")]: every label of [subset]
    must exist; a row stays when none of its cells under those labels is
    missing. *)
Definition dropna_subset (subset : list pystr) (df : DataFrame) : result DataFrame :=
  match find (fun c => match positions c (columns df) 0 with [] => true | _ => false end)
          subset with
  | Some c => Raise (KeyError c)
  | None =>
      let indices := flat_map (fun c => positions c (columns df) 0) subset in
      Ok {| columns := columns df;
            rows := filter (fun r : row => forallb (fun j => notna (cell_at j r)) indices)
                      (rows df) |}
  end.

(** A Python [dict] from labels to labels, by its items. *)
Definition dict : Type := list (pystr * pystr).

Fixpoint dict_get (d : dict) (k : pystr) : option pystr :=
  match d with
  | [] => None
  | (k', v) :: d' => if pystr_eqb k k' then Some v else dict_get d' k
  end.

(** [dataframe.rename(columns=mapping)]: a label that is a key is replaced,
    every other label is kept, keys that match nothing are ignored. *)
Definition rename (mapping : dict) (df : DataFrame) : DataFrame :=
  {| columns := map (fun c => match dict_get mapping c with
                              | Some t => t
                              | None => c
                              end) (columns df);
     rows := rows df |}.

(** ** Ordering of keys *)

Definition is_number (c : cell) : bool :=
  match c with Int _ | Float _ | Inf _ => true | _ => false end.

Definition is_text (c : cell) : bool :=
  match c with Str _ => true | _ => false end.

Definition number_value (c : cell) : Q :=
  match c with
  | Int z => inject_Z z
  | Float q => q
  | _ => 0%Q
  end.

Definition number_leb (a b : cell) : bool :=
  match a, b with
  | Inf true, _ => true
  | _, Inf false => true
  | Inf false, _ => false
  | _, Inf true => false
  | _, _ => Qle_bool (number_value a) (number_value b)
  end.

(** Python's order on [str]: lexicographic on code points. *)
Fixpoint str_leb (a b : pystr) : bool :=
  match a, b with
  | [], _ => true
  | _ :: _, [] => false
  | x :: a', y :: b' => (x <? y)%N || (x =? y)%N && str_leb a' b'
  end.

Definition key_rank (c : cell) : nat :=
  match c with
  | Int _ | Float _ | Inf _ => 0
  | Str _ => 1
  | NA => 2
  end.

(** [a <= b] on sort keys.  Numbers compare by value and texts as Python
    strings; across kinds the order is by kind, which no sort of the
    pipeline observes (a column mixing kinds makes [sort_values] raise). *)
Definition key_leb (a b : cell) : bool :=
  if key_rank a <? key_rank b then true
  else if key_rank b <? key_rank a then false
  else match a, b with
       | Str s, Str t => str_leb s t
       | NA, _ | _, NA => true
       | _, _ => number_leb a b
       end.

(** Keys that compare equal. *)
Definition key_eqb (a b : cell) : bool := key_leb a b && key_leb b a.

(** All numbers or all text: the keys Python can order. *)
Definition homogeneous (ks : list cell) : bool :=
  forallb is_number ks || forallb is_text ks.

(** ** The host routines left open

    [argsort] is numpy's [argsort] as pandas calls it with its default
    [kind="quicksort"]: the positions of the keys in non decreasing order
    of the keys.  [float_repr] is Python's [repr] of a float. *)
Class Host : Type := {
  argsort : list cell -> list nat;
  float_repr : Q -> pystr
}.

(** What numpy documents of [argsort] with kind quicksort: the result
    lists every position once, in non decreasing order of the keys; the
    order of equal keys is not fixed. *)
Definition argsort_sorts (sorter : list cell -> list nat) : Prop :=
  forall ks : list cell,
    homogeneous ks = true ->
    Permutation (sorter ks) (seq 0 (length ks)) /\
    StronglySorted (fun i j => key_leb (nth i ks NA) (nth j ks NA) = true) (sorter ks).

(** A stable [argsort] moreover keeps equal keys in their given order. *)
Definition argsort_stable (sorter : list cell -> list nat) : Prop :=
  forall ks : list cell,
    homogeneous ks = true ->
    StronglySorted (fun i j => key_leb (nth j ks NA) (nth i ks NA) = true -> i < j)
      (sorter ks).

Section Insertion.
Variable A : Type.
Variable before : A -> A -> bool.

Fixpoint insert (x : A) (l : list A) : list A :=
  match l with
  | [] => [x]
  | y :: l' => if before x y then x :: l else y :: insert x l'
  end.

Fixpoint insertion_sort (l : list A) : list A :=
  match l with
  | [] => []
  | x :: l' => insert x (insertion_sort l')
  end.
End Insertion.

(** Sorting the keys, paired with their positions, by insertion;
    [before x y] tells whether [x] is put in front of [y]. *)
Definition argsort_by (before : cell -> cell -> bool) (ks : list cell) : list nat :=
  map snd (insertion_sort (fun a b : cell * nat => before (fst a) (fst b))
             (combine ks (seq 0 (length ks)))).

(** Two sorting routines that meet [argsort_sorts]: the first leaves equal
    keys in their given order, the second reverses them. *)
Definition argsort_keep : list cell -> list nat := argsort_by key_leb.

Definition argsort_flip : list cell -> list nat :=
  argsort_by (fun x y => negb (key_leb y x)).

(** Two hosts to run the steps on.  Shortest round-trip rendering of a
    float is outside the model; these hosts print a float value as a
    fraction, which never meets a label of the datasets. *)
Definition Z_repr (z : Z) : pystr :=
  py (DecimalString.NilZero.string_of_int (Z.to_int z)).

Definition ratio_repr (q : Q) : pystr :=
  Z_repr (Qnum q) ++ py "/" ++ Z_repr (Zpos (Qden q)).

Definition keep_host : Host := {| argsort := argsort_keep; float_repr := ratio_repr |}.
Definition flip_host : Host := {| argsort := argsort_flip; float_repr := ratio_repr |}.

(** ** The outer join *)

Fixpoint remove_nth {A : Type} (j : nat) (l : list A) : list A :=
  match l, j with
  | [], _ => []
  | _ :: l', O => l'
  | x :: l', S j' => x :: remove_nth j' l'
  end.

Definition has_label (c : pystr) (cols : list pystr) : bool :=
  existsb (pystr_eqb c) cols.

(** [left.merge(right, on=on, how="outer", suffixes=(lsuffix, rsuffix))].
    The key column is kept once; a label other than the key that both
    frames carry gets the suffix of its side.  Every left row is joined
    with the right rows of equal key, or filled with missing cells when
    there is none; the right rows whose key no left row has follow, their
    left cells missing.  The rows are numbered afresh.  (The order pandas
    gives the joined rows depends on its version; [build_yearly_summary]
    sorts them right after.) *)
Definition merge_outer (left right : DataFrame) (on_ lsuffix rsuffix : pystr)
  : result DataFrame :=
  match lookup_column on_ (columns left), lookup_column on_ (columns right) with
  | NoColumn, _ | _, NoColumn => Raise (KeyError on_)
  | OneColumn jl, OneColumn jr =>
      if homogeneous (filter notna (column_values jl left ++ column_values jr right))
      then
        let rcols := remove_nth jr (columns right) in
        let llabels := map (fun c => if has_label c rcols then c ++ lsuffix else c)
                         (columns left) in
        let rlabels := map (fun c => if has_label c (columns left) then c ++ rsuffix else c)
                         rcols in
        let joined :=
          flat_map (fun l : row =>
                      match filter (fun r : row => key_eqb (cell_at jl l) (cell_at jr r))
                              (rows right) with
                      | [] => [snd l ++ repeat NA (length rcols)]
                      | ms => map (fun r : row => snd l ++ remove_nth jr (snd r)) ms
                      end) (rows left) in
        let right_only :=
          map (fun r : row =>
                 set_nth jl (cell_at jr r) (repeat NA (length (columns left)))
                   ++ remove_nth jr (snd r))
            (filter (fun r : row =>
                       negb (existsb (fun l : row => key_eqb (cell_at jl l) (cell_at jr r))
                               (rows left)))
               (rows right)) in
        let cells := joined ++ right_only in
        Ok {| columns := llabels ++ rlabels;
              rows := combine (seq 0 (length cells)) cells |}
      else Raise ValueError
  | _, _ => Raise ValueError
  end.

(** ** Sorting and text conversion on a host *)

Section OnHost.
Context {host : Host}.

(** [pandas.core.sorting.nargsort] with [na_position="last"]: the
    missing keys are set aside and come last; for a descending sort the
    keys are reversed before and the result after the call of
    [argsort]. *)
Definition nargsort (items : list cell) (ascending : bool) : list nat :=
  let idx := seq 0 (length items) in
  let mask := map isna items in
  let non_nans := select (map negb mask) items in
  let non_nan_idx := select (map negb mask) idx in
  let nan_idx := select mask idx in
  let non_nans := if ascending then non_nans else rev non_nans in
  let non_nan_idx := if ascending then non_nan_idx else rev non_nan_idx in
  let indexer := map (fun i => nth i non_nan_idx 0) (argsort non_nans) in
  let indexer := if ascending then indexer else rev indexer in
  indexer ++ nan_idx.

(** [dataframe.take(indexer)] on the rows. *)
Definition take (indexer : list nat) (df : DataFrame) : DataFrame :=
  {| columns := columns df;
     rows := map (fun i => nth i (rows df) (0, [])) indexer |}.

(** [dataframe.sort_values(by=by, ascending=ascending)] *)
Definition sort_values (df : DataFrame) (by_ : pystr) (ascending : bool)
  : result DataFrame :=
  match lookup_column by_ (columns df) with
  | NoColumn => Raise (KeyError by_)
  | ManyColumns => Raise ValueError
  | OneColumn j =>
      let k := column_values j df in
      if homogeneous (filter notna k)
      then Ok (take (nargsort k ascending) df)
      else Raise TypeError
  end.

(** [series.astype(str)] on one cell. *)
Definition astype_str (c : cell) : pystr :=
  match c with
  | NA => py "nan"
  | Int z => Z_repr z
  | Float q => float_repr q
  | Inf negative => if negative then py "-inf" else py "inf"
  | Str s => s
  end.

(** ** [transformers.py] *)

Definition drop_completely_empty_columns (dataframe : DataFrame) : DataFrame :=
  dropna_columns dataframe.

Definition drop_completely_empty_rows (dataframe : DataFrame) : DataFrame :=
  dropna_rows dataframe.

Definition standardize_column_names (dataframe : DataFrame) : DataFrame :=
  let renamed_dataframe :=
    rename (map (fun column => (column, to_snake column)) (columns dataframe))
      dataframe in
  renamed_dataframe.

Definition filter_rows_with_numeric_column (dataframe : DataFrame) (column : pystr)
  : result DataFrame :=
  match lookup_column column (columns dataframe) with
  | NoColumn => Raise (KeyError column)
  | ManyColumns => Raise TypeError
  | OneColumn j =>
      let numeric_mask := map notna (map to_numeric (column_values j dataframe)) in
      Ok (loc dataframe numeric_mask)
  end.

(** The statement
    [result[column] = pd.to_numeric(result[column], errors="coerce").fillna(0).astype(int)]. *)
Definition assign_integer_column (result_ : DataFrame) (column : pystr)
  : result DataFrame :=
  match lookup_column column (columns result_) with
  | NoColumn => Raise (KeyError column)
  | ManyColumns => Raise TypeError
  | OneColumn j =>
      series <- to_integer_series (column_values j result_) ;;
      Ok (set_column j series result_)
  end.

Fixpoint enforce_integer_columns (dataframe : DataFrame) (columns_ : list pystr)
  : result DataFrame :=
  match columns_ with
  | [] => Ok dataframe
  | column :: rest =>
      result_ <- assign_integer_column dataframe column ;;
      enforce_integer_columns result_ rest
  end.

Definition sort_by_column (dataframe : DataFrame) (column : pystr) (ascending : bool)
  : result DataFrame :=
  sorted <- sort_values dataframe column ascending ;;
  Ok (reset_index sorted).

Definition make_column_renamer (mapping : dict) : DataFrame -> DataFrame :=
  fun dataframe => rename mapping dataframe.

Definition make_numeric_row_filter (column : pystr) : DataFrame -> result DataFrame :=
  fun dataframe => filter_rows_with_numeric_column dataframe column.

Definition make_integer_enforcer (columns_ : list pystr) : DataFrame -> result DataFrame :=
  fun dataframe => enforce_integer_columns dataframe columns_.

Definition make_sorter (column : pystr) (ascending : bool) : DataFrame -> result DataFrame :=
  fun dataframe => sort_by_column dataframe column ascending.

Definition make_integer_column (column : pystr) : DataFrame -> result DataFrame :=
  fun dataframe => assign_integer_column dataframe column.

Definition make_non_null_filter (columns_ : list pystr) : DataFrame -> result DataFrame :=
  fun dataframe => dropna_subset columns_ dataframe.

Definition make_value_filter (column : pystr) (allowed_values : list pystr)
  : DataFrame -> result DataFrame :=
  let allowed := map lower allowed_values in
  fun dataframe =>
    match lookup_column column (columns dataframe) with
    | NoColumn => Raise (KeyError column)
    | ManyColumns => Raise AttributeError
    | OneColumn j =>
        let mask :=
          map (fun c => existsb (pystr_eqb (lower (astype_str c))) allowed)
            (column_values j dataframe) in
        Ok (loc dataframe mask)
    end.

(** ** The steps of a chain ([config.py], [pipeline.py]) *)

(** The kinds of transformation the dataset descriptors are built from. *)
Inductive step : Type :=
| DropEmptyColumns
| DropEmptyRows
| StandardizeColumnNames
| ColumnRenamer (mapping : dict)
| NumericRowFilter (column : pystr)
| IntegerColumn (column : pystr)
| IntegerEnforcer (columns_ : list pystr)
| Sorter (column : pystr) (ascending : bool)
| NonNullFilter (columns_ : list pystr)
| ValueFilter (column : pystr) (allowed_values : list pystr).

Definition transformation (s : step) : DataFrame -> result DataFrame :=
  match s with
  | DropEmptyColumns => fun df => Ok (drop_completely_empty_columns df)
  | DropEmptyRows => fun df => Ok (drop_completely_empty_rows df)
  | StandardizeColumnNames => fun df => Ok (standardize_column_names df)
  | ColumnRenamer mapping => fun df => Ok (make_column_renamer mapping df)
  | NumericRowFilter column => make_numeric_row_filter column
  | IntegerColumn column => make_integer_column column
  | IntegerEnforcer columns_ => make_integer_enforcer columns_
  | Sorter column ascending => make_sorter column ascending
  | NonNullFilter columns_ => make_non_null_filter columns_
  | ValueFilter column allowed_values => make_value_filter column allowed_values
  end.

(** The loop of [DatasetPipeline.run]. *)
Fixpoint run_transformations (transformations : list step) (dataframe : DataFrame)
  : result DataFrame :=
  match transformations with
  | [] => Ok dataframe
  | t :: rest =>
      dataframe' <- transformation t dataframe ;;
      run_transformations rest dataframe'
  end.

(** The chain of the [adhesion_by_size] descriptor. *)
Definition adhesion_by_size : list step :=
  [ DropEmptyColumns;
    DropEmptyRows;
    StandardizeColumnNames;
    ColumnRenamer [ (py "tamano_empresa", py "company_size");
                    (py "empresas", py "companies");
                    (py "instalacion", py "installations") ];
    NonNullFilter [py "company_size"];
    ValueFilter (py "company_size")
      [py "PEQUEÑA"; py "MICRO"; py "MEDIANA"; py "GRANDE"; py "SSPP"];
    IntegerEnforcer [py "companies"; py "installations"];
    Sorter (py "companies") false ].

(** The chain of the [adhesion_by_year] descriptor. *)
Definition adhesion_by_year : list step :=
  [ DropEmptyColumns;
    DropEmptyRows;
    StandardizeColumnNames;
    ColumnRenamer [ (py "ano_adhesion_establecimiento", py "year");
                    (py "instalaciones_adheridas", py "installations");
                    (py "empresas_adheridas", py "companies") ];
    NumericRowFilter (py "year");
    IntegerColumn (py "year");
    IntegerEnforcer [py "installations"; py "companies"];
    Sorter (py "year") true ].

(** The chain of the [adhesion_by_sector] descriptor. *)
Definition adhesion_by_sector : list step :=
  [ DropEmptyColumns;
    DropEmptyRows;
    StandardizeColumnNames;
    ColumnRenamer [ (py "sector_economico", py "sector");
                    (py "instalaciones_adheridas_por_sector", py "installations") ];
    IntegerColumn (py "installations");
    Sorter (py "installations") false ].

(** The chain of the [certification_by_year] descriptor. *)
Definition certification_by_year : list step :=
  [ DropEmptyColumns;
    DropEmptyRows;
    StandardizeColumnNames;
    ColumnRenamer [ (py "ano_certificacion_del_establecimiento", py "year");
                    (py "instalaciones_certificadas", py "installations");
                    (py "empresas_certificadas", py "companies") ];
    NumericRowFilter (py "year");
    IntegerColumn (py "year");
    IntegerEnforcer [py "installations"; py "companies"];
    Sorter (py "year") true ].

(** The chain of the [certification_by_sector] descriptor. *)
Definition certification_by_sector : list step :=
  [ DropEmptyColumns;
    DropEmptyRows;
    StandardizeColumnNames;
    ColumnRenamer [ (py "sector_economico", py "sector");
                    (py "instalaciones_certificadas_por_sector", py "installations") ];
    IntegerColumn (py "installations");
    Sorter (py "installations") false ].

(** ** [post_processors.py] *)

Definition int_columns : list pystr :=
  [ py "year";
    py "installations_adhesion";
    py "companies_adhesion";
    py "installations_certification";
    py "companies_certification" ].

(** [build_yearly_summary], by the frame it stores as
    [yearly_summary.csv]. *)
Definition build_yearly_summary (adhesion_by_year_ certification_by_year_ : DataFrame)
  : result DataFrame :=
  merged <- merge_outer adhesion_by_year_ certification_by_year_
              (py "year") (py "_adhesion") (py "_certification") ;;
  merged <- enforce_integer_columns merged int_columns ;;
  merged <- sort_values merged (py "year") true ;;
  Ok (reset_index merged).
End OnHost.

(** ** The normalizer as the specification words it *)

Definition to_underscore (c : N) : N :=
  if ((c =? 32) || (c =? 45))%N then 95%N else c.

Definition fold_accent (c : N) : N :=
  if (c =? 225)%N then 97%N        (* a acute *)
  else if (c =? 233)%N then 101%N  (* e acute *)
  else if (c =? 237)%N then 105%N  (* i acute *)
  else if (c =? 243)%N then 111%N  (* o acute *)
  else if (c =? 250)%N then 117%N  (* u acute *)
  else if (c =? 241)%N then 110%N  (* n tilde *)
  else c.

(** Every run of two or more underscores becomes one underscore. *)
Fixpoint collapse_runs (s : pystr) : pystr :=
  match s with
  | [] => []
  | a :: t =>
      match t with
      | b :: _ => if ((a =? 95) && (b =? 95))%N then collapse_runs t
                  else a :: collapse_runs t
      | [] => [a]
      end
  end.

(** Trim, lowercase, spaces and hyphens to underscores, fold the accents,
    collapse the runs, strip the underscores. *)
Definition normalize_spec (s : pystr) : pystr :=
  strip_chars us
    (collapse_runs (map fold_accent (map to_underscore (lower (strip s))))).

(** A character the normalizer leaves as it is. *)
Definition settled (c : N) : Prop :=
  lower_cp c = c /\ to_underscore c = c /\ fold_accent c = c.

(** A code point that [lower_cp] leaves as it is because it has no
    uppercase form in the two blocks. *)
Definition caseless (c : N) : Prop :=
  ((c < 65 \/ 90 < c) /\ (c < 192 \/ 222 < c \/ c = 215))%N.

(** ** Notions the properties are stated with *)

(** The mapping without the key [k]. *)
Fixpoint dict_remove (k : pystr) (d : dict) : dict :=
  match d with
  | [] => []
  | (k', v) :: d' =>
      if pystr_eqb k k' then dict_remove k d' else (k', v) :: dict_remove k d'
  end.

(** A value parses as a number when [to_numeric] does not leave it
    missing. *)
Definition parses_as_number (c : cell) : bool := notna (to_numeric c).

(** The value of the cell, as text and lowercased, is one of the allowed
    labels lowercased. *)
Definition matches_allowed {host : Host} (allowed_values : list pystr) (c : cell) : bool :=
  existsb (pystr_eqb (lower (astype_str c))) (map lower allowed_values).

(** The whole number the integer steps put for a value: 0 when it is
    missing or does not parse, the value cut at the decimal point
    otherwise. *)
Definition integer_of (c : cell) : Z :=
  match fillna0 (to_numeric c) with
  | Int z => z
  | Float q => Qtrunc q
  | _ => 0%Z
  end.

(** The value is or parses to an infinity. *)
Definition parses_infinite (c : cell) : bool :=
  match to_numeric c with Inf _ => true | _ => false end.

(** A row after the columns labelled in [coerced] were cast. *)
Definition coerce_cells (cols coerced : list pystr) (cells : list cell) : list cell :=
  map (fun cx : pystr * cell =>
         if has_label (fst cx) coerced then Int (integer_of (snd cx)) else snd cx)
    (combine cols cells).

(** The order a sort leaves two keys in, the first before the second:
    missing keys come last, the others are non decreasing for an ascending
    and non increasing for a descending sort. *)
Definition ordered (ascending : bool) (a b : cell) : bool :=
  isna b || notna a && (if ascending then key_leb a b else key_leb b a).

(** [x] stands somewhere before [y] in [l]. *)
Definition precedes {A : Type} (x y : A) (l : list A) : Prop :=
  exists l1 l2 l3, l = l1 ++ x :: l2 ++ y :: l3.

(** Stability: two rows with equal keys at position [j] stand in the
    output in the order they stand in the input. *)
Definition keeps_tie_order (j : nat) (input output : list (list cell)) : Prop :=
  forall r1 r2,
    key_eqb (nth j r1 NA) (nth j r2 NA) = true ->
    precedes r1 r2 input -> precedes r1 r2 output.

(** The columns of a by-year table. *)
Definition by_year_columns : list pystr :=
  [py "year"; py "installations"; py "companies"].

(** The year column of the table holds the integers [ys], in this order. *)
Definition years_of (df : DataFrame) (ys : list Z) : Prop :=
  exists j, nth_error (columns df) j = Some (py "year") /\
            column_values j df = map Int ys.

(** The value of a row under a label (of a table with distinct labels). *)
Definition value_of (df : DataFrame) (name : pystr) (r : row) : cell :=
  match lookup_column name (columns df) with
  | OneColumn j => cell_at j r
  | _ => NA
  end.

(** The labels of the outer join of two tables on [year], the key of the
    right table being at position [jr]. *)
Definition merged_labels (ca cc : list pystr) (jr : nat) : list pystr :=
  let rcols := remove_nth jr cc in
  map (fun c => if has_label c rcols then c ++ py "_adhesion" else c) ca
  ++ map (fun c => if has_label c ca then c ++ py "_certification" else c) rcols.

Fixpoint distinct (l : list pystr) : bool :=
  match l with
  | [] => true
  | x :: l' => negb (has_label x l') && distinct l'
  end.

(** Where the outer join of two by-year tables puts the columns: the year
    stays at its place [jl] in the left table, the adhesion columns fill
    the other two of the first three places, the certification columns
    the last two. *)
Definition summary_layout (ca cc : list pystr) (jl jr : nat) : bool :=
  let mc := merged_labels ca cc jr in
  (length ca =? 3) && (length cc =? 3) && (jl <? 3) && (jr <? 3)
  && distinct ca && distinct cc
  && forallb (fun x => has_label x by_year_columns) ca
  && forallb (fun x => has_label x by_year_columns) cc
  && match lookup_column (py "year") ca, lookup_column (py "year") cc with
     | OneColumn j, OneColumn j' => (j =? jl) && (j' =? jr)
     | _, _ => false
     end
  && distinct mc
  && forallb (fun x => has_label x int_columns) mc
  && forallb (fun x => has_label x mc) int_columns
  && match lookup_column (py "year") mc with
     | OneColumn j => j =? jl
     | _ => false
     end
  && forallb (fun name => match lookup_column name mc with
                          | OneColumn j => (j <? 3) && negb (j =? jl)
                          | _ => false
                          end)
       [py "installations_adhesion"; py "companies_adhesion"]
  && forallb (fun name => match lookup_column name mc with
                          | OneColumn j => 3 <=? j
                          | _ => false
                          end)
       [py "installations_certification"; py "companies_certification"].

(** The integer a cell holds (0 when it holds none). *)
Definition int_value (c : cell) : Z :=
  match c with Int z => z | _ => 0%Z end.

(** A value as the integer steps leave it. *)
Definition intify (c : cell) : cell := Int (integer_of c).

(** A table on which the cast of the columns [coerced] goes through: no
    value under them is or parses to an infinity. *)
Definition finite_under (coerced : list pystr) (df : DataFrame) : Prop :=
  forall r j c, In r (rows df) -> nth_error (columns df) j = Some c -> In c coerced ->
                parses_infinite (cell_at j r) = false.

(** ** Sample tables *)

Definition sample_years : DataFrame :=
  {| columns := [py "year"; py "installations"; py "companies"];
     rows := [ (0, [Str (py " 2011 "); Str (py "7.9"); NA]);
               (1, [Str (py "Total"); Int 12; Int 5]);
               (2, [Float (Qmake 4021 2); Str (py "n/a"); Int 2]);
               (3, [NA; NA; Str (py "")]);
               (4, [Int 2009; Int 3; Float (Qmake (-7) 2)]) ] |}.

Definition sample_sizes : DataFrame :=
  {| columns := [py "company_size"; py "companies"; py "installations"];
     rows := [ (0, [Str (py "MICRO"); Int 4; Int 6]);
               (1, [NA; Int 2; Int 2]);
               (2, [Str (py "micro "); Int 1; NA]);
               (3, [Str (py "Grande"); Str (py "x"); Int 9]) ] |}.

Definition sample_ties : DataFrame :=
  {| columns := [py "year"; py "sector"];
     rows := [ (0, [Int 2010; Str (py "a")]); (1, [Int 2010; Str (py "b")]) ] |}.

Definition sample_adhesion : DataFrame :=
  {| columns := [py "year"; py "installations"; py "companies"];
     rows := [ (0, [Int 2010; Int 5; Int 3]); (1, [Int 2015; Int 10; Int 4]) ] |}.

Definition sample_certification : DataFrame :=
  {| columns := [py "installations"; py "year"; py "companies"];
     rows := [ (0, [Int 7; Int 2010; Int 2]); (1, [Int 1; Int 2012; Int 1]) ] |}.

Definition sample_repeated_year : DataFrame :=
  {| columns := [py "year"; py "installations"; py "companies"];
     rows := [ (0, [Int 2010; Int 5; Int 3]); (1, [Int 2010; Int 2; Int 1]) ] |}.

(** ** Notions of the further properties *)

(** The cell holds a whole number, as [astype(int)] leaves it. *)
Definition integral (c : cell) : bool :=
  match c with Int _ => true | _ => false end.

(** The labels a step looks up in the table it is given. *)
Definition reads (s : step) : list pystr :=
  match s with
  | DropEmptyColumns | DropEmptyRows | StandardizeColumnNames | ColumnRenamer _ => []
  | NumericRowFilter column | IntegerColumn column | Sorter column _
  | ValueFilter column _ => [column]
  | IntegerEnforcer columns_ | NonNullFilter columns_ => columns_
  end.

(** ** [validators.py] and [extractors.py] *)

(** [dataframe.empty]: one of the two axes has length zero. *)
Definition empty (dataframe : DataFrame) : bool :=
  (length (rows dataframe) =? 0) || (length (columns dataframe) =? 0).

Inductive validator : Type :=
| NonEmptyFrameValidator
| RequiredColumnsValidator (expected_columns : list pystr).

(** [validate]: returns nothing, or raises [ValueError]. *)
Definition validate (v : validator) (dataframe : DataFrame) : result unit :=
  match v with
  | NonEmptyFrameValidator =>
      if empty dataframe then Raise ValueError else Ok tt
  | RequiredColumnsValidator expected_columns =>
      let missing_columns :=
        filter (fun column => negb (has_label column (columns dataframe)))
          expected_columns in
      match missing_columns with
      | [] => Ok tt
      | _ :: _ => Raise ValueError
      end
  end.

(** [CSVExtractor.extract], from the frame [read_csv] returned. *)
Definition extract (validator_ : option validator) (dataframe : DataFrame)
  : result DataFrame :=
  match validator_ with
  | Some v => _ <- validate v dataframe ;; Ok dataframe
  | None => Ok dataframe
  end.

(** Where the outer join of two by-year tables puts the measurements: an
    adhesion column stays at its place in the left table; a certification
    column comes after the three left columns, at its place in the right
    table once the key of that table is taken out. *)
Definition summary_positions (ca cc : list pystr) (jr : nat) : bool :=
  let mc := merged_labels ca cc jr in
  forallb (fun name =>
             match lookup_column name ca, lookup_column (name ++ py "_adhesion") mc with
             | OneColumn j, OneColumn j' => j' =? j
             | _, _ => false
             end
             && match lookup_column name cc,
                      lookup_column (name ++ py "_certification") mc with
                | OneColumn j, OneColumn j' =>
                    negb (j =? jr) && (j' =? 3 + (if j <? jr then j else j - 1))
                | _, _ => false
                end)
    [py "installations"; py "companies"].

(** ** [pipeline.py] and [main.py] *)

(** The dataset descriptors of [ETLConfig.build_default], in the order in
    which the dictionary holds them. *)
Definition dataset_configs : list (pystr * list step) :=
  [ (py "adhesion_by_year", adhesion_by_year);
    (py "adhesion_by_sector", adhesion_by_sector);
    (py "adhesion_by_size", adhesion_by_size);
    (py "certification_by_year", certification_by_year);
    (py "certification_by_sector", certification_by_sector) ].

(** [results[name].dataframe] *)
Fixpoint frame_of (name : pystr) (results : list (pystr * DataFrame))
  : result DataFrame :=
  match results with
  | [] => Raise (KeyError name)
  | (dataset_name, dataframe) :: rest =>
      if pystr_eqb name dataset_name then Ok dataframe else frame_of name rest
  end.

Section Pipeline.
Context {host : Host}.

(** [ETLPipeline.run], from the frame the extractor of each dataset read:
    the datasets are processed in turn and the first error ends the
    run. *)
Fixpoint ETLPipeline_run (configs : list (pystr * list step))
    (extracted : pystr -> DataFrame) : result (list (pystr * DataFrame)) :=
  match configs with
  | [] => Ok []
  | (dataset_name, transformations) :: rest =>
      dataframe <- run_transformations transformations (extracted dataset_name) ;;
      results <- ETLPipeline_run rest extracted ;;
      Ok ((dataset_name, dataframe) :: results)
  end.

(** [run_etl]: the datasets, then the yearly summary of the two by-year
    results. *)
Definition run_etl (extracted : pystr -> DataFrame)
  : result (list (pystr * DataFrame)) :=
  results <- ETLPipeline_run dataset_configs extracted ;;
  adhesion <- frame_of (py "adhesion_by_year") results ;;
  certification <- frame_of (py "certification_by_year") results ;;
  _ <- build_yearly_summary adhesion certification ;;
  Ok results.
End Pipeline.

(** The five tables of a sample run, by dataset. *)
Definition sample_sources (dataset_name : pystr) : DataFrame :=
  if pystr_eqb dataset_name (py "adhesion_by_year") then
    {| columns := [py "Año adhesión establecimiento"; py "Instalaciones adheridas";
                   py "Empresas adheridas"];
       rows := [ (0, [Int 2015; Str (py "10"); Int 4]); (1, [Int 2010; Int 5; NA]);
                 (2, [Str (py "Total"); Int 15; Int 4]) ] |}
  else if pystr_eqb dataset_name (py "certification_by_year") then
    {| columns := [py "Año certificación del establecimiento";
                   py "Instalaciones certificadas"; py "Empresas certificadas"];
       rows := [ (0, [Int 2010; Int 7; Int 2]); (1, [Int 2012; Int 1; Int 1]) ] |}
  else if pystr_eqb dataset_name (py "adhesion_by_size") then
    {| columns := [py "Tamaño empresa"; py "Empresas"; py "Instalación"];
       rows := [ (0, [Str (py "MICRO"); Int 4; Int 6]); (1, [NA; Int 2; Int 2]) ] |}
  else if pystr_eqb dataset_name (py "adhesion_by_sector") then
    {| columns := [py "Sector económico"; py "Instalaciones adheridas por sector"];
       rows := [ (0, [Str (py "Turismo"); Int 12]) ] |}
  else
    {| columns := [py "Sector económico"; py "Instalaciones certificadas por sector"];
       rows := [ (0, [Str (py "Turismo"); Int 3]) ] |}.

(** * Properties *)

Unset Implicit Arguments.

(** ** The model on small inputs *)

Example to_snake_spaces_and_hyphens :
  to_snake (py "  Sector -- Económico_ ") = py "sector_economico".
Proof. vm_compute. reflexivity. Qed.

Example to_snake_long_run :
  to_snake (py "a_______b") = py "a_b".
Proof. vm_compute. reflexivity. Qed.

Example replace_pairs :
  replace us2 us (py "a_____b") = py "a___b".
Proof. vm_compute. reflexivity. Qed.

Example parse_number_samples :
  map parse_number [py "2010"; py " -12 "; py "5.50"; py "1e3"; py "Total";
                    py ""; py "-Inf"; py "nan"; py "1e"; py "."; py "12a"]
  = [Int 2010; Int (-12); Float (Qmake 550 100); Float (inject_Z 1000); NA;
     NA; Inf true; NA; NA; NA; NA].
Proof. vm_compute. reflexivity. Qed.

Example to_integer_series_samples :
  to_integer_series [Str (py "7.9"); NA; Str (py "x"); Int 3; Float (Qmake (-7) 2)]
  = Ok [Int 7; Int 0; Int 0; Int 3; Int (-3)].
Proof. vm_compute. reflexivity. Qed.

Example adhesion_by_year_run :
  @run_transformations keep_host adhesion_by_year
    {| columns := [py "Año Adhesión Establecimiento"; py "Instalaciones Adheridas";
                   py "Empresas adheridas"; py "Unnamed: 3"];
       rows := [ (0, [Str (py "2011"); Str (py "5"); Int 3; NA]);
                 (1, [Str (py "Total"); Int 12; Int 5; NA]);
                 (2, [NA; NA; NA; NA]);
                 (3, [Float (inject_Z 2009); Str (py "7.9"); NA; NA]) ] |}
  = Ok {| columns := [py "year"; py "installations"; py "companies"];
          rows := [ (0, [Int 2009; Int 7; Int 0]); (1, [Int 2011; Int 5; Int 3]) ] |}.
Proof. vm_compute. reflexivity. Qed.

Example sort_descending_missing_last :
  @sort_by_column keep_host sample_sizes (py "installations") false
  = Ok {| columns := columns sample_sizes;
          rows := [ (0, [Str (py "Grande"); Str (py "x"); Int 9]);
                    (1, [Str (py "MICRO"); Int 4; Int 6]);
                    (2, [NA; Int 2; Int 2]);
                    (3, [Str (py "micro "); Int 1; NA]) ] |}.
Proof. vm_compute. reflexivity. Qed.

Example sort_mixed_kinds_raises :
  @sort_by_column keep_host sample_sizes (py "companies") true = Raise TypeError.
Proof. vm_compute. reflexivity. Qed.


(** ** Strings *)

Lemma replace_char (a b : N) (s : pystr) :
  replace [a] [b] s = map (fun c => if (c =? a)%N then b else c) s.
Proof.
  unfold replace. induction s as [|c s IH]; [reflexivity|].
  cbn [replace_from startswith length Nat.sub map app].
  rewrite IH, andb_true_r, N.eqb_sym.
  destruct (c =? a)%N; reflexivity.
Qed.

Lemma replace_us2_nil : replace us2 us [] = [].
Proof. reflexivity. Qed.

Lemma replace_us2_pair (s : pystr) :
  replace us2 us (95 :: 95 :: s)%N = (95 :: replace us2 us s)%N.
Proof. reflexivity. Qed.

Lemma replace_us2_other (c : N) (s : pystr) :
  startswith us2 (c :: s) = false ->
  replace us2 us (c :: s) = c :: replace us2 us s.
Proof.
  intros H. unfold replace. cbn [replace_from]. rewrite H. reflexivity.
Qed.

Lemma startswith_us2 (c : N) (s : pystr) :
  startswith us2 (c :: s) = true -> exists s', c = 95%N /\ s = (95 :: s')%N.
Proof.
  unfold us2. cbn [startswith]. destruct s as [|d s'].
  - rewrite andb_false_r. discriminate.
  - rewrite andb_true_r. intros H. apply andb_prop in H as [H1 H2].
    apply N.eqb_eq in H1, H2. subst. exists s'. split; reflexivity.
Qed.

Lemma collapse_runs_cons (c : N) (s t : pystr) :
  hd_error s = hd_error t -> collapse_runs s = collapse_runs t ->
  collapse_runs (c :: s) = collapse_runs (c :: t).
Proof.
  intros Hh Hc. destruct s as [|a s], t as [|b t]; try discriminate;
    [reflexivity|].
  injection Hh as ->. cbn [collapse_runs] in *. rewrite Hc. reflexivity.
Qed.

Lemma collapse_runs_replace (s : pystr) :
  hd_error (replace us2 us s) = hd_error s /\
  collapse_runs (replace us2 us s) = collapse_runs s.
Proof.
  remember (length s) as n eqn:Hn. revert s Hn.
  induction n as [n IH] using lt_wf_ind. intros s Hn.
  destruct s as [|c s]; [split; reflexivity|].
  destruct (startswith us2 (c :: s)) eqn:E.
  - apply startswith_us2 in E as (s' & -> & ->).
    rewrite replace_us2_pair. split; [reflexivity|].
    cbn [length] in Hn.
    destruct (IH (length s') ltac:(lia) s' eq_refl) as [Hh Hc].
    rewrite (@collapse_runs_cons 95%N _ _ Hh Hc). reflexivity.
  - rewrite (replace_us2_other _ _ E). split; [reflexivity|].
    cbn [length] in Hn.
    destruct (IH (length s) ltac:(lia) s eq_refl) as [Hh Hc].
    apply collapse_runs_cons; assumption.
Qed.

Lemma collapse_runs_fixed (s : pystr) :
  contains us2 s = false -> collapse_runs s = s.
Proof.
  induction s as [|c s IH]; [reflexivity|].
  cbn [contains]. intros H. apply orb_false_elim in H as [H1 H2].
  specialize (IH H2). cbn [collapse_runs]. rewrite IH.
  destruct s as [|d s]; [reflexivity|].
  unfold us2 in H1. cbn [startswith] in H1. rewrite andb_true_r in H1.
  rewrite (N.eqb_sym c), (N.eqb_sym d), H1. reflexivity.
Qed.

Lemma collapse_loop_runs (s : pystr) : collapse_loop s = collapse_runs s.
Proof.
  funelim (collapse_loop s).
  - rewrite H. apply collapse_runs_replace.
  - symmetry. apply collapse_runs_fixed. assumption.
Qed.

Lemma py_literals :
  py "á" = [225%N] /\ py "é" = [233%N] /\ py "í" = [237%N] /\ py "ó" = [243%N] /\
  py "ú" = [250%N] /\ py "ñ" = [241%N] /\ py "a" = [97%N] /\ py "e" = [101%N] /\
  py "i" = [105%N] /\ py "o" = [111%N] /\ py "u" = [117%N] /\ py "n" = [110%N].
Proof. vm_compute. repeat split. Qed.

Ltac no_test a :=
  lazymatch a with
  | context [if _ then _ else _] => fail
  | _ => idtac
  end.

Ltac split_tests :=
  repeat (match goal with
          | |- context [(?a =? ?b)%N] =>
              no_test a; no_test b; destruct (N.eqb_spec a b)
          | |- context [(?a <=? ?b)%N] =>
              no_test a; no_test b; destruct (N.leb_spec a b)
          end; cbn [andb orb negb]);
  try reflexivity; try lia.

Lemma to_snake_to_spec (s : pystr) : to_snake s = normalize_spec s.
Proof.
  unfold to_snake, normalize_spec.
  destruct py_literals as (-> & -> & -> & -> & -> & -> & -> & -> & -> & -> & -> & ->).
  change sp with [32%N]. change hy with [45%N]. change us with [95%N].
  rewrite !replace_char, collapse_loop_runs, !map_map.
  do 2 f_equal. apply map_ext. intros c.
  unfold fold_accent, to_underscore. split_tests.
Qed.

(** *** Facts on stripping *)

Lemma lstrip_by_split (p : N -> bool) (s : pystr) :
  exists pre, s = pre ++ lstrip_by p s.
Proof.
  induction s as [|c s [pre IH]]; [exists []; reflexivity|].
  cbn [lstrip_by]. destruct (p c).
  - exists (c :: pre). cbn [app]. f_equal. exact IH.
  - exists []. reflexivity.
Qed.

Lemma rstrip_by_split (p : N -> bool) (s : pystr) :
  exists suf, s = rstrip_by p s ++ suf.
Proof.
  unfold rstrip_by. destruct (lstrip_by_split p (rev s)) as [pre H].
  exists (rev pre). rewrite <- rev_app_distr, <- H, rev_involutive. reflexivity.
Qed.

Lemma strip_by_split (p : N -> bool) (s : pystr) :
  exists pre suf, s = pre ++ strip_by p s ++ suf.
Proof.
  unfold strip_by. destruct (lstrip_by_split p s) as [pre H].
  destruct (rstrip_by_split p (lstrip_by p s)) as [suf H'].
  exists pre, suf. rewrite <- H'. exact H.
Qed.

Lemma strip_by_length (p : N -> bool) (s : pystr) :
  length (strip_by p s) <= length s.
Proof.
  destruct (strip_by_split p s) as (pre & suf & H).
  rewrite H at 2. rewrite !length_app. lia.
Qed.

Lemma strip_by_full_length (p : N -> bool) (s : pystr) :
  length (strip_by p s) = length s -> strip_by p s = s.
Proof.
  destruct (strip_by_split p s) as (pre & suf & H). intros L.
  rewrite H in L at 2. rewrite !length_app in L.
  destruct pre; [|cbn [length] in L; lia].
  destruct suf; [|cbn [length] in L; lia].
  rewrite H at 2. cbn [app]. rewrite app_nil_r. reflexivity.
Qed.

Lemma strip_by_Forall (P : N -> Prop) (p : N -> bool) (s : pystr) :
  Forall P s -> Forall P (strip_by p s).
Proof.
  destruct (strip_by_split p s) as (pre & suf & H). intros F.
  rewrite H in F. apply Forall_app in F as [_ F].
  apply Forall_app in F as [F _]. exact F.
Qed.

Lemma lstrip_by_idem (p : N -> bool) (s : pystr) :
  lstrip_by p (lstrip_by p s) = lstrip_by p s.
Proof.
  induction s as [|c s IH]; [reflexivity|].
  cbn [lstrip_by]. destruct (p c) eqn:E; [exact IH|].
  cbn [lstrip_by]. rewrite E. reflexivity.
Qed.

Lemma lstrip_by_snoc (p : N -> bool) (l : pystr) (y : N) :
  p y = false -> lstrip_by p (l ++ [y]) = lstrip_by p l ++ [y].
Proof.
  intros E. induction l as [|c l IH]; cbn [app lstrip_by].
  - rewrite E. reflexivity.
  - destruct (p c); [exact IH | reflexivity].
Qed.

Lemma rstrip_by_cons (p : N -> bool) (y : N) (s : pystr) :
  p y = false -> rstrip_by p (y :: s) = y :: rstrip_by p s.
Proof.
  intros E. unfold rstrip_by. cbn [rev].
  rewrite (lstrip_by_snoc _ _ _ E), rev_app_distr. reflexivity.
Qed.

Lemma strip_by_idem (p : N -> bool) (s : pystr) :
  strip_by p (strip_by p s) = strip_by p s.
Proof.
  unfold strip_by.
  assert (A : lstrip_by p (rstrip_by p (lstrip_by p s)) = rstrip_by p (lstrip_by p s)).
  { pose proof (lstrip_by_idem p s) as I.
    destruct (lstrip_by p s) as [|y u]; [reflexivity|].
    cbn [lstrip_by] in I. destruct (p y) eqn:E.
    - exfalso. destruct (lstrip_by_split p u) as [pre H].
      apply (f_equal (@length N)) in I, H.
      rewrite length_app in H. cbn [length] in I. lia.
    - rewrite (rstrip_by_cons _ _ _ E). cbn [lstrip_by]. rewrite E. reflexivity. }
  rewrite A. unfold rstrip_by. rewrite rev_involutive, lstrip_by_idem. reflexivity.
Qed.

(** *** Facts on runs of underscores *)

Lemma collapse_runs_length (s : pystr) : length (collapse_runs s) <= length s.
Proof.
  induction s as [|a t IH]; [apply le_n|].
  cbn [collapse_runs]. destruct t as [|b r]; [apply le_n|].
  destruct ((a =? 95) && (b =? 95))%N; cbn [length] in *; lia.
Qed.

Lemma collapse_runs_Forall (P : N -> Prop) (s : pystr) :
  Forall P s -> Forall P (collapse_runs s).
Proof.
  induction s as [|a t IH]; intros F; [constructor|].
  inversion F as [|? ? Pa Ft]; subst. specialize (IH Ft).
  cbn [collapse_runs]. destruct t as [|b r]; [exact F|].
  destruct ((a =? 95) && (b =? 95))%N; [exact IH|].
  constructor; assumption.
Qed.

Lemma collapse_runs_hd (a : N) (t : pystr) :
  hd_error (collapse_runs (a :: t)) = Some a.
Proof.
  revert a. induction t as [|b r IH]; intros a; [reflexivity|].
  cbn [collapse_runs] in *. destruct ((a =? 95) && (b =? 95))%N eqn:E; [|reflexivity].
  apply andb_prop in E as [Ea Eb]. apply N.eqb_eq in Ea, Eb. subst.
  apply (IH 95%N).
Qed.

Lemma collapse_runs_no_pair (s : pystr) : contains us2 (collapse_runs s) = false.
Proof.
  induction s as [|a t IH]; [reflexivity|].
  destruct t as [|b r].
  { unfold us2. cbn [collapse_runs contains startswith].
    rewrite andb_false_r. reflexivity. }
  pose proof (collapse_runs_hd b r) as Hh.
  change (collapse_runs (a :: b :: r))
    with (if ((a =? 95) && (b =? 95))%N then collapse_runs (b :: r)
          else a :: collapse_runs (b :: r)).
  destruct ((a =? 95) && (b =? 95))%N eqn:E; [exact IH|].
  cbn [contains]. rewrite IH, orb_false_r.
  destruct (collapse_runs (b :: r)) as [|h x]; [discriminate|].
  injection Hh as ->. unfold us2. cbn [startswith].
  rewrite andb_true_r, (N.eqb_sym 95 a), (N.eqb_sym 95 b). exact E.
Qed.

Lemma startswith_app (old x y : pystr) :
  startswith old x = true -> startswith old (x ++ y) = true.
Proof.
  revert x. induction old as [|o old IH]; intros x H; [reflexivity|].
  destruct x as [|c x]; [discriminate|].
  cbn [startswith app] in *. apply andb_prop in H as [H1 H2].
  rewrite H1, (IH _ H2). reflexivity.
Qed.

Lemma contains_app_false (old x y : pystr) :
  contains old (x ++ y) = false -> contains old x = false /\ contains old y = false.
Proof.
  induction x as [|c x IH]; cbn [app].
  - intros H. split; [|exact H].
    destruct old; [destruct y; discriminate | reflexivity].
  - cbn [contains]. intros H. apply orb_false_elim in H as [H1 H2].
    destruct (IH H2) as [Hx Hy]. split; [|exact Hy].
    rewrite Hx, orb_false_r.
    destruct (startswith old (c :: x)) eqn:E; [|reflexivity].
    pose proof (startswith_app _ _ y E) as E'. cbn [app] in E'.
    rewrite E' in H1. discriminate.
Qed.

Lemma strip_by_no_pair (p : N -> bool) (s : pystr) :
  contains us2 s = false -> contains us2 (strip_by p s) = false.
Proof.
  destruct (strip_by_split p s) as (pre & suf & H). intros C.
  rewrite H in C. apply contains_app_false in C as [_ C].
  apply contains_app_false in C as [C _]. exact C.
Qed.

Lemma lower_cp_caseless (c : N) : caseless (lower_cp c).
Proof. unfold caseless, lower_cp. split_tests. Qed.

Lemma to_underscore_caseless (c : N) :
  caseless c ->
  caseless (to_underscore c) /\ to_underscore c <> 32%N /\ to_underscore c <> 45%N.
Proof. unfold caseless, to_underscore. intros H. split_tests. Qed.

Lemma fold_accent_settled (c : N) :
  caseless c -> c <> 32%N -> c <> 45%N -> settled (fold_accent c).
Proof.
  unfold caseless, settled. intros H H1 H2.
  assert (F : fold_accent (fold_accent c) = fold_accent c)
    by (unfold fold_accent; split_tests).
  assert (U : to_underscore (fold_accent c) = fold_accent c)
    by (unfold fold_accent, to_underscore; split_tests).
  assert (L : lower_cp (fold_accent c) = fold_accent c)
    by (unfold fold_accent, lower_cp; split_tests).
  repeat split; assumption.
Qed.

Lemma settled_char (c : N) : settled (fold_accent (to_underscore (lower_cp c))).
Proof.
  destruct (to_underscore_caseless _ (lower_cp_caseless c)) as (H & H1 & H2).
  apply fold_accent_settled; assumption.
Qed.

Lemma map_settled (f : N -> N) (s : pystr) :
  Forall (fun c => f c = c) s -> map f s = s.
Proof.
  induction 1 as [|c s H _ IH]; [reflexivity|].
  cbn [map]. rewrite H, IH. reflexivity.
Qed.

Lemma normalize_spec_settled (s : pystr) : Forall settled (normalize_spec s).
Proof.
  unfold normalize_spec, strip_chars. apply strip_by_Forall, collapse_runs_Forall.
  unfold lower. rewrite !map_map. apply Forall_forall. intros d Hd.
  apply in_map_iff in Hd as (c & <- & _). apply settled_char.
Qed.

Lemma normalize_spec_length (s : pystr) :
  length (normalize_spec s) <= length (strip s).
Proof.
  unfold normalize_spec, strip_chars.
  etransitivity; [apply strip_by_length|].
  etransitivity; [apply collapse_runs_length|].
  unfold lower. rewrite !length_map. apply le_n.
Qed.

Lemma normalize_spec_fixed (t : pystr) :
  strip t = t -> Forall settled t -> contains us2 t = false ->
  strip_chars us t = t -> normalize_spec t = t.
Proof.
  intros H1 F H2 H3. unfold normalize_spec. rewrite H1. unfold lower.
  rewrite (map_settled lower_cp), (map_settled to_underscore), (map_settled fold_accent).
  - rewrite (collapse_runs_fixed _ H2). exact H3.
  - eapply Forall_impl; [|exact F]. intros c (_ & _ & H). exact H.
  - eapply Forall_impl; [|exact F]. intros c (_ & H & _). exact H.
  - eapply Forall_impl; [|exact F]. intros c (H & _ & _). exact H.
Qed.





(** ** Frames: selection and lookup *)

Lemma select_filter {A : Type} (f : A -> bool) (l : list A) :
  select (map f l) l = filter f l.
Proof.
  induction l as [|x l IH]; [reflexivity|].
  cbn [map select filter]. rewrite IH. reflexivity.
Qed.

Lemma select_length {A : Type} (mask : list bool) (l : list A) :
  length (select mask l) <= length l.
Proof.
  revert l. induction mask as [|b mask IH]; intros [|x l]; cbn [select length];
    try lia.
  specialize (IH l). destruct b; cbn [length]; lia.
Qed.

Lemma filter_length_le {A : Type} (f : A -> bool) (l : list A) :
  length (filter f l) <= length l.
Proof.
  induction l as [|x l IH]; [apply le_n|].
  cbn [filter]. destruct (f x); cbn [length]; lia.
Qed.

Lemma pystr_eqb_eq (a b : pystr) : pystr_eqb a b = true <-> a = b.
Proof.
  unfold pystr_eqb. destruct (list_eq_dec N.eq_dec a b); split;
    intros H; try reflexivity; try assumption; try discriminate.
  contradiction.
Qed.

Lemma pystr_eqb_refl (a : pystr) : pystr_eqb a a = true.
Proof. apply pystr_eqb_eq. reflexivity. Qed.

Lemma pystr_eqb_neq (a b : pystr) : a <> b -> pystr_eqb a b = false.
Proof.
  intros H. destruct (pystr_eqb a b) eqn:E; [|reflexivity].
  apply pystr_eqb_eq in E. contradiction.
Qed.

Lemma positions_absent (c : pystr) (cols : list pystr) (from : nat) :
  ~ In c cols -> positions c cols from = [].
Proof.
  revert from. induction cols as [|d cols IH]; intros from H; [reflexivity|].
  cbn [positions]. rewrite pystr_eqb_neq.
  - apply IH. intros I. apply H. right. exact I.
  - intros ->. apply H. left. reflexivity.
Qed.

Lemma positions_In (c : pystr) (cols : list pystr) (from j : nat) :
  In j (positions c cols from) <->
  from <= j /\ nth_error cols (j - from) = Some c.
Proof.
  revert from. induction cols as [|d cols IH]; intros from.
  - cbn [positions In]. split; [contradiction|].
    intros [_ H]. destruct (j - from); discriminate.
  - cbn [positions]. destruct (pystr_eqb c d) eqn:E.
    + apply pystr_eqb_eq in E. subst d. cbn [In]. rewrite IH. split.
      * intros [<- | [H1 H2]].
        -- split; [apply le_n|]. rewrite Nat.sub_diag. reflexivity.
        -- split; [lia|]. replace (j - from) with (S (j - S from)) by lia. exact H2.
      * intros [H1 H2]. destruct (Nat.eq_dec from j) as [->|N]; [left; reflexivity|].
        right. split; [lia|].
        replace (j - from) with (S (j - S from)) in H2 by lia. exact H2.
    + rewrite IH. split.
      * intros [H1 H2]. split; [lia|].
        replace (j - from) with (S (j - S from)) by lia. exact H2.
      * intros [H1 H2]. destruct (Nat.eq_dec from j) as [->|N].
        -- rewrite Nat.sub_diag in H2. cbn [nth_error] in H2. injection H2 as ->.
           rewrite pystr_eqb_refl in E. discriminate.
        -- split; [lia|].
           replace (j - from) with (S (j - S from)) in H2 by lia. exact H2.
Qed.

Lemma positions_unique (c : pystr) (cols : list pystr) (from : nat) :
  NoDup cols -> In c cols ->
  exists j, positions c cols from = [from + j] /\ nth_error cols j = Some c.
Proof.
  revert from. induction cols as [|d cols IH]; intros from ND I; [contradiction|].
  inversion ND as [|? ? Hd ND']; subst. cbn [positions].
  destruct (pystr_eqb c d) eqn:E.
  - apply pystr_eqb_eq in E. subst d. exists 0.
    rewrite (positions_absent _ _ _ Hd), Nat.add_0_r. split; reflexivity.
  - destruct I as [->|I]; [rewrite pystr_eqb_refl in E; discriminate|].
    destruct (IH (S from) ND' I) as (j & H1 & H2). exists (S j).
    rewrite H1. split; [f_equal; lia | exact H2].
Qed.

(** In a frame whose labels are distinct, a label that is present is found
    at one position. *)
Lemma lookup_column_unique (c : pystr) (cols : list pystr) :
  NoDup cols -> In c cols ->
  exists j, lookup_column c cols = OneColumn j /\ nth_error cols j = Some c.
Proof.
  intros ND I. destruct (positions_unique c cols 0 ND I) as (j & H1 & H2).
  exists j. unfold lookup_column. rewrite H1. split; [reflexivity | exact H2].
Qed.

Lemma lookup_column_absent (c : pystr) (cols : list pystr) :
  ~ In c cols -> lookup_column c cols = NoColumn.
Proof.
  intros H. unfold lookup_column. rewrite (positions_absent _ _ _ H). reflexivity.
Qed.

Lemma lookup_column_one (c : pystr) (cols : list pystr) (j : nat) :
  lookup_column c cols = OneColumn j -> nth_error cols j = Some c.
Proof.
  unfold lookup_column. intros H.
  destruct (positions c cols 0) as [|i [|i' l]] eqn:E; try discriminate.
  injection H as ->.
  assert (I : In j (positions c cols 0)) by (rewrite E; left; reflexivity).
  apply positions_In in I as [_ I]. rewrite Nat.sub_0_r in I. exact I.
Qed.

(** ** C10: the two structural cleaning steps commute *)

Lemma existsb_notna_nth (l : list cell) (j : nat) :
  notna (nth j l NA) = true -> existsb notna l = true.
Proof.
  revert j. induction l as [|c l IH]; intros j H.
  - destruct j; discriminate.
  - destruct j as [|j]; cbn [nth existsb] in *.
    + rewrite H. reflexivity.
    + rewrite (IH _ H). apply orb_true_r.
Qed.

Lemma column_notna_filter (j : nat) (rs : list row) :
  existsb notna (map (cell_at j) (filter (fun r : row => existsb notna (snd r)) rs))
  = existsb notna (map (cell_at j) rs).
Proof.
  induction rs as [|r rs IH]; [reflexivity|].
  cbn [filter map existsb]. destruct (existsb notna (snd r)) eqn:E.
  - cbn [map existsb]. rewrite IH. reflexivity.
  - rewrite IH. destruct (notna (cell_at j r)) eqn:E'; [|reflexivity].
    unfold cell_at in E'. rewrite (existsb_notna_nth _ _ E') in E. discriminate.
Qed.

Lemma select_existsb_notna (mask : list bool) (l : list cell) :
  length l <= length mask ->
  (forall j, j < length l -> notna (nth j l NA) = true -> nth j mask false = true) ->
  existsb notna (select mask l) = existsb notna l.
Proof.
  revert mask. induction l as [|c l IH]; intros mask L H.
  - destruct mask; reflexivity.
  - destruct mask as [|b mask]; [cbn [length] in L; lia|].
    cbn [length] in L.
    assert (IH' : existsb notna (select mask l) = existsb notna l).
    { apply IH; [lia|]. intros j Hj Hn. apply (H (S j)); [cbn [length]; lia | exact Hn]. }
    cbn [select existsb]. destruct (notna c) eqn:E.
    + rewrite (H 0 ltac:(cbn [length]; lia) E : b = true). cbn [existsb].
      rewrite E. reflexivity.
    + destruct b; cbn [existsb]; rewrite ?E; exact IH'.
Qed.

Lemma nth_map_seq (f : nat -> bool) (n j : nat) :
  j < n -> nth j (map f (seq 0 n)) false = f j.
Proof.
  intros H. rewrite (nth_indep _ false (f 0)) by (rewrite length_map, length_seq; exact H).
  rewrite map_nth, seq_nth by exact H. reflexivity.
Qed.

(** C10: on a rectangular table, dropping the empty columns and then the
    empty rows gives the same table as dropping the empty rows and then
    the empty columns. *)
Theorem drop_empty_commute (df : DataFrame) :
  rectangular df ->
  drop_completely_empty_rows (drop_completely_empty_columns df)
  = drop_completely_empty_columns (drop_completely_empty_rows df).
Proof.
  intros W. unfold drop_completely_empty_rows, drop_completely_empty_columns.
  unfold dropna_rows, dropna_columns, column_values. cbn [columns rows].
  set (mask := map (fun j => existsb notna (map (cell_at j) (rows df)))
                 (seq 0 (length (columns df)))).
  assert (M : map (fun j => existsb notna
                      (map (cell_at j)
                         (filter (fun r : row => existsb notna (snd r)) (rows df))))
                (seq 0 (length (columns df))) = mask).
  { apply map_ext. intros j. apply column_notna_filter. }
  rewrite M. f_equal.
  assert (K : forall r, In r (rows df) ->
                existsb notna (select mask (snd r)) = existsb notna (snd r)).
  { intros r I. unfold rectangular in W. rewrite Forall_forall in W.
    specialize (W r I). apply select_existsb_notna.
    - unfold mask. rewrite length_map, length_seq, W. apply le_n.
    - intros j Hj Hn. unfold mask. rewrite nth_map_seq by lia.
      apply existsb_exists. exists (cell_at j r). split; [|exact Hn].
      apply in_map. exact I. }
  clearbody mask. clear M W. induction (rows df) as [|r rs IH]; [reflexivity|].
  cbn [map filter snd].
  rewrite (K r (or_introl eq_refl)), IH
    by (intros r' I; apply K; right; exact I).
  destruct (existsb notna (snd r)); reflexivity.
Qed.

Lemma drop_empty_commute_witness :
  let df := {| columns := [py "a"; py "b"; py "c"];
               rows := [ (0, [Int 1; NA; Str (py "x")]);
                         (1, [NA; NA; NA]);
                         (2, [Float (Qmake 5 2); NA; NA]) ] |} in
  rectangular df /\
  drop_completely_empty_rows (drop_completely_empty_columns df)
  = drop_completely_empty_columns (drop_completely_empty_rows df).
Proof.
  intros df. assert (W : rectangular df) by (repeat constructor).
  split; [exact W | exact (drop_empty_commute df W)].
Defined.

(** ** C6: renaming *)

Lemma dict_get_remove_other (d : dict) (k c : pystr) :
  c <> k -> dict_get (dict_remove k d) c = dict_get d c.
Proof.
  intros N. induction d as [|[k' v] d IH]; [reflexivity|].
  cbn [dict_remove dict_get]. destruct (pystr_eqb k k') eqn:E.
  - apply pystr_eqb_eq in E. subst k'.
    rewrite (pystr_eqb_neq _ _ N). exact IH.
  - cbn [dict_get]. rewrite IH. reflexivity.
Qed.

(** C6: the renamer always returns a table; it leaves the rows and the
    number of columns as they are; a label that is no key of the mapping
    keeps its place and its name; a key that labels no column can be
    taken out of the mapping without changing the result; and when a
    later step asks for a name that the renamed table does not carry, it
    is that step (the numeric row filter, the integer cast, the sorter)
    that raises the missing-column error. *)
Theorem renamer_never_fails {host : Host} (mapping : dict) (df : DataFrame) :
  let renamed := make_column_renamer mapping df in
  transformation (ColumnRenamer mapping) df = Ok renamed /\
  rows renamed = rows df /\
  length (columns renamed) = length (columns df) /\
  (forall j c, nth_error (columns df) j = Some c -> dict_get mapping c = None ->
               nth_error (columns renamed) j = Some c) /\
  (forall k, ~ In k (columns df) ->
             make_column_renamer (dict_remove k mapping) df = renamed) /\
  (forall target ascending, ~ In target (columns renamed) ->
     make_numeric_row_filter target renamed = Raise (KeyError target) /\
     make_integer_column target renamed = Raise (KeyError target) /\
     make_sorter target ascending renamed = Raise (KeyError target)).
Proof.
  cbv zeta. unfold make_column_renamer, rename. cbn [transformation columns rows].
  repeat split.
  - apply length_map.
  - intros j c H1 H2. rewrite nth_error_map, H1. cbn [option_map].
    rewrite H2. reflexivity.
  - intros k Hk. f_equal. apply map_ext_in. intros c Hc.
    rewrite dict_get_remove_other; [reflexivity|].
    intros ->. contradiction.
  - unfold make_numeric_row_filter, filter_rows_with_numeric_column.
    cbn [columns]. rewrite (lookup_column_absent _ _ H). reflexivity.
  - unfold make_integer_column, assign_integer_column.
    cbn [columns]. rewrite (lookup_column_absent _ _ H). reflexivity.
  - unfold make_sorter, sort_by_column, sort_values.
    cbn [columns]. rewrite (lookup_column_absent _ _ H). reflexivity.
Qed.

(** The fifth scenario of the specification: a renamer from [foo] to
    [year] on a table without [foo], followed by the numeric row filter
    on [year]. *)
Lemma renamer_never_fails_witness :
  let df := {| columns := [py "bar"]; rows := [(0, [Int 1])] |} in
  let renamed := make_column_renamer [(py "foo", py "year")] df in
  renamed = df /\
  make_numeric_row_filter (py "year") renamed = Raise (KeyError (py "year")).
Proof.
  intros df renamed. split; [reflexivity|].
  refine (proj1 (proj2 (proj2 (proj2 (proj2 (proj2
    (@renamer_never_fails keep_host [(py "foo", py "year")] df)))))
    (py "year") true _)).
  vm_compute. intros [H|[]]. discriminate H.
Defined.

(** ** C7: the numeric row filter *)



(** ** C9: the categorical filter *)



(** ** C8: integer coercion *)

Lemma parse_decimal_number (s : pystr) (c : cell) :
  parse_decimal s = Some c -> (exists z, c = Int z) \/ (exists q, c = Float q).
Proof.
  unfold parse_decimal.
  destruct (take_sign (lstrip_by is_c_space s)) as [neg s2].
  destruct (take_digits s2) as [ip s3].
  destruct (match s3 with
            | 46%N :: r => let (f, r') := take_digits r in (true, f, r')
            | _ => (false, [], s3)
            end) as [[dot fp] s4].
  destruct (ip ++ fp) as [|m ms]; [discriminate|].
  destruct (take_exponent s4) as [ex s5].
  destruct (lstrip_by is_c_space s5); [|discriminate].
  destruct dot, ex; intros H; injection H as <-; eauto.
Qed.

Lemma to_numeric_not_text (c : cell) (s : pystr) : to_numeric c <> Str s.
Proof.
  destruct c as [| | | |t]; try discriminate. cbn [to_numeric].
  unfold parse_number. destruct (parse_decimal t) as [d|] eqn:E.
  - destruct (parse_decimal_number _ _ E) as [[z ->]|[q ->]]; discriminate.
  - unfold parse_special.
    repeat match goal with |- context [if ?b then _ else _] => destruct b end;
      discriminate.
Qed.

Lemma integer_of_Int (z : Z) : integer_of (Int z) = z.
Proof. reflexivity. Qed.

Lemma integer_of_unparsable (c : cell) :
  parses_as_number c = false -> integer_of c = 0%Z.
Proof.
  unfold parses_as_number, integer_of. destruct (to_numeric c); try discriminate.
  reflexivity.
Qed.

Lemma astype_int_finite_cell (c : cell) :
  parses_infinite c = false ->
  astype_int_cell (fillna0 (to_numeric c)) = Ok (Int (integer_of c)).
Proof.
  unfold parses_infinite, integer_of. pose proof (to_numeric_not_text c) as T.
  destruct (to_numeric c) as [| | | |s]; intros H; try reflexivity; try discriminate.
  exfalso. exact (T s eq_refl).
Qed.

Lemma to_integer_series_finite (series : list cell) :
  Forall (fun c => parses_infinite c = false) series ->
  to_integer_series series = Ok (map (fun c => Int (integer_of c)) series).
Proof.
  unfold to_integer_series. induction 1 as [|c l H _ IH]; [reflexivity|].
  cbn [map astype_int]. rewrite (astype_int_finite_cell _ H). cbn [bind].
  rewrite IH. reflexivity.
Qed.

Lemma to_integer_series_infinite (series : list cell) :
  Exists (fun c => parses_infinite c = true) series ->
  to_integer_series series = Raise IntCastingNaNError.
Proof.
  unfold to_integer_series. induction series as [|c l IH]; intros E.
  - inversion E.
  - cbn [map astype_int]. destruct (parses_infinite c) eqn:P.
    + unfold parses_infinite in P. destruct (to_numeric c); try discriminate.
      reflexivity.
    + rewrite (astype_int_finite_cell _ P). cbn [bind].
      inversion E as [? ? P'|? ? E']; subst; [congruence|].
      rewrite (IH E'). reflexivity.
Qed.

Lemma set_column_map (j : nat) (f : cell -> cell) (df : DataFrame) :
  set_column j (map f (column_values j df)) df
  = {| columns := columns df;
       rows := map (fun r : row => (fst r, set_nth j (f (cell_at j r)) (snd r)))
                 (rows df) |}.
Proof.
  unfold set_column, column_values. f_equal.
  induction (rows df) as [|r rs IH]; [reflexivity|].
  cbn [map combine fst snd]. rewrite IH. reflexivity.
Qed.

Lemma set_nth_length {A : Type} (j : nat) (v : A) (l : list A) :
  length (set_nth j v l) = length l.
Proof.
  revert j. induction l as [|x l IH]; intros [|j]; cbn [set_nth length];
    try reflexivity.
  rewrite IH. reflexivity.
Qed.

Lemma nth_set_nth {A : Type} (j i : nat) (v d : A) (l : list A) :
  nth i (set_nth j v l) d = if (i =? j) && (j <? length l) then v else nth i l d.
Proof.
  revert j i. induction l as [|x l IH]; intros j i.
  - destruct j; cbn [set_nth length]; rewrite andb_false_r; reflexivity.
  - destruct j as [|j], i as [|i]; cbn [set_nth nth length]; try reflexivity.
    rewrite IH. reflexivity.
Qed.

Lemma has_label_cons (c c1 : pystr) (rest : list pystr) :
  has_label c (c1 :: rest) = pystr_eqb c c1 || has_label c rest.
Proof. reflexivity. Qed.

Lemma coerce_cells_nil (cols : list pystr) (cells : list cell) :
  length cells = length cols -> coerce_cells cols [] cells = cells.
Proof.
  unfold coerce_cells. revert cells.
  induction cols as [|c cols IH]; intros [|x cells] L; try discriminate;
    [reflexivity|].
  cbn [combine map fst snd has_label existsb]. rewrite IH; [reflexivity|].
  cbn [length] in L. lia.
Qed.

Lemma coerce_cells_step (cols rest : list pystr) (c1 : pystr) (j1 : nat)
    (cells : list cell) :
  NoDup cols -> nth_error cols j1 = Some c1 -> length cells = length cols ->
  coerce_cells cols rest (set_nth j1 (Int (integer_of (nth j1 cells NA))) cells)
  = coerce_cells cols (c1 :: rest) cells.
Proof.
  unfold coerce_cells. revert j1 cells.
  induction cols as [|c cols IH]; intros j1 cells ND E L.
  - destruct j1; discriminate.
  - destruct cells as [|x cells]; [discriminate|].
    inversion ND as [|? ? Hc ND']; subst. cbn [length] in L.
    destruct j1 as [|j1].
    + cbn [nth_error] in E. injection E as ->.
      cbn [set_nth nth combine map fst snd]. f_equal.
      * rewrite has_label_cons, pystr_eqb_refl. cbn [orb].
        destruct (has_label c1 rest); reflexivity.
      * apply map_ext_in. intros [c y] I. cbn [fst snd].
        rewrite has_label_cons, pystr_eqb_neq; [reflexivity|].
        intros ->. apply Hc. apply in_combine_l in I. exact I.
    + cbn [nth_error] in E.
      cbn [set_nth nth combine map fst snd]. f_equal.
      * rewrite has_label_cons, pystr_eqb_neq; [reflexivity|].
        intros ->. apply Hc. apply nth_error_In in E. exact E.
      * apply (IH j1 cells ND' E). lia.
Qed.

Lemma assign_integer_column_finite (df : DataFrame) (column : pystr) (j : nat) :
  lookup_column column (columns df) = OneColumn j ->
  Forall (fun r => parses_infinite (cell_at j r) = false) (rows df) ->
  assign_integer_column df column
  = Ok {| columns := columns df;
          rows := map (fun r : row =>
                         (fst r, set_nth j (Int (integer_of (cell_at j r))) (snd r)))
                    (rows df) |}.
Proof.
  intros L F. unfold assign_integer_column. rewrite L.
  rewrite to_integer_series_finite.
  - cbn [bind]. rewrite set_column_map. reflexivity.
  - unfold column_values. rewrite Forall_map. exact F.
Qed.

Lemma enforce_integer_columns_finite (coerced : list pystr) (df : DataFrame) :
  rectangular df -> NoDup (columns df) -> incl coerced (columns df) ->
  finite_under coerced df ->
  enforce_integer_columns df coerced
  = Ok {| columns := columns df;
          rows := map (fun r : row => (fst r, coerce_cells (columns df) coerced (snd r)))
                    (rows df) |}.
Proof.
  revert df. induction coerced as [|c1 rest IH]; intros df W ND I F.
  - cbn [enforce_integer_columns]. destruct df as [cols rs]. cbn [columns rows] in *.
    f_equal. f_equal. rewrite <- (map_id rs) at 1. apply map_ext_in.
    intros r Hr. unfold rectangular in W. rewrite Forall_forall in W.
    rewrite coerce_cells_nil by (apply (W r Hr)). destruct r; reflexivity.
  - cbn [enforce_integer_columns].
    destruct (lookup_column_unique c1 (columns df) ND (I c1 (or_introl eq_refl)))
      as (j1 & L & E).
    rewrite (assign_integer_column_finite df c1 j1 L).
    2:{ apply Forall_forall. intros r Hr. apply (F r j1 c1 Hr E). left. reflexivity. }
    cbn [bind]. rewrite IH; cbn [columns rows].
    + f_equal. f_equal. rewrite map_map. apply map_ext_in. intros r Hr. cbn [fst snd].
      f_equal. unfold cell_at. apply coerce_cells_step; [exact ND | exact E |].
      unfold rectangular in W. rewrite Forall_forall in W. exact (W r Hr).
    + unfold rectangular in *. cbn [columns rows]. rewrite Forall_map.
      eapply Forall_impl; [|exact W]. intros r Hr. cbn [snd].
      rewrite set_nth_length. exact Hr.
    + exact ND.
    + intros c Hc. apply I. right. exact Hc.
    + intros r' j c Hr' Hj Hc. cbn [columns rows] in *.
      apply in_map_iff in Hr' as (r & <- & Hr). unfold cell_at. cbn [snd].
      rewrite nth_set_nth.
      destruct ((j =? j1) && (j1 <? length (snd r))); [reflexivity|].
      apply (F r j c Hr Hj). right. exact Hc.
Qed.


Lemma sample_years_shape :
  rectangular sample_years /\ NoDup (columns sample_years) /\
  incl [py "installations"; py "companies"] (columns sample_years) /\
  finite_under [py "installations"; py "companies"] sample_years.
Proof.
  split; [repeat constructor|]. split.
  { apply (NoDup_count_occ' (list_eq_dec N.eq_dec)); intros x Hx;
      repeat destruct Hx as [<-|Hx]; [reflexivity..|contradiction]. }
  split.
  { intros c Hc. repeat destruct Hc as [<-|Hc]; [right; left| right; right; left|];
      try reflexivity. contradiction. }
  intros r j c Hr Hj Hc.
  repeat destruct Hr as [<-|Hr]; try contradiction;
    (destruct j as [|[|[|j]]]; [reflexivity..|]; destruct j; discriminate).
Defined.



(** ** The order on keys *)

Lemma number_leb_total (a b : cell) : number_leb a b = true \/ number_leb b a = true.
Proof.
  unfold number_leb.
  destruct a as [| | |[|]|], b as [| | |[|]|]; auto;
    rewrite !Qle_bool_iff;
    match goal with |- (?x <= ?y)%Q \/ _ =>
      destruct (Qlt_le_dec x y) as [H|H]; [left; apply Qlt_le_weak|right]; exact H end.
Qed.

Lemma number_leb_trans (a b c : cell) :
  is_number b = true ->
  number_leb a b = true -> number_leb b c = true -> number_leb a c = true.
Proof.
  unfold number_leb.
  destruct a as [| | |[|]|], b as [| | |[|]|], c as [| | |[|]|];
    try discriminate; try reflexivity; cbn [number_value]; intros _;
    rewrite ?Qle_bool_iff; intros H1 H2; try assumption;
    try (eapply Qle_trans; eassumption).
Qed.

Lemma str_leb_total (a b : pystr) : str_leb a b = true \/ str_leb b a = true.
Proof.
  revert b. induction a as [|x a IH]; intros b; [left; reflexivity|].
  destruct b as [|y b]; [right; reflexivity|].
  cbn [str_leb]. destruct (N.compare_spec x y) as [->|H|H].
  - rewrite N.ltb_irrefl, N.eqb_refl. cbn [orb andb]. apply IH.
  - left. apply N.ltb_lt in H. rewrite H. reflexivity.
  - right. apply N.ltb_lt in H. rewrite H. reflexivity.
Qed.

Lemma str_leb_trans (a b c : pystr) :
  str_leb a b = true -> str_leb b c = true -> str_leb a c = true.
Proof.
  revert b c. induction a as [|x a IH]; intros b c; [reflexivity|].
  destruct b as [|y b]; [discriminate|]. destruct c as [|z c]; [discriminate|].
  cbn [str_leb]. intros H1 H2.
  apply orb_prop in H1 as [H1|H1]; apply orb_prop in H2 as [H2|H2].
  - apply N.ltb_lt in H1, H2. apply orb_true_intro. left. apply N.ltb_lt. lia.
  - apply andb_prop in H2 as [H2 _]. apply N.eqb_eq in H2. subst z.
    rewrite H1. reflexivity.
  - apply andb_prop in H1 as [H1 _]. apply N.eqb_eq in H1. subst y.
    rewrite H2. reflexivity.
  - apply andb_prop in H1 as [H1 H1'], H2 as [H2 H2'].
    apply N.eqb_eq in H1, H2. subst. rewrite N.eqb_refl, (IH _ _ H1' H2').
    apply orb_true_r.
Qed.

Lemma key_leb_total (a b : cell) : key_leb a b = true \/ key_leb b a = true.
Proof.
  unfold key_leb.
  destruct a as [| | | |s], b as [| | | |t]; cbn [key_rank Nat.ltb Nat.leb]; auto;
    try apply number_leb_total. apply str_leb_total.
Qed.

Lemma key_leb_trans (a b c : cell) :
  key_leb a b = true -> key_leb b c = true -> key_leb a c = true.
Proof.
  unfold key_leb.
  destruct a as [| | | |s], b as [| | | |t], c as [| | | |u];
    cbn [key_rank Nat.ltb Nat.leb]; try discriminate; try reflexivity;
    try (apply number_leb_trans; reflexivity).
  apply str_leb_trans.
Qed.

(** ** Insertion sort *)

Section InsertionFacts.
Variable A : Type.
Variable before : A -> A -> bool.
Variable R : A -> A -> Prop.
Hypothesis R_trans : forall x y z, R x y -> R y z -> R x z.
Hypothesis before_R : forall x y, before x y = true -> R x y.
Hypothesis not_before_R : forall x y, before x y = false -> R y x.

Lemma insert_perm (x : A) (l : list A) : Permutation (insert before x l) (x :: l).
Proof.
  induction l as [|y l IH]; [apply Permutation_refl|].
  cbn [insert]. destruct (before x y); [apply Permutation_refl|].
  eapply perm_trans; [apply perm_skip, IH | apply perm_swap].
Qed.

Lemma insertion_sort_perm (l : list A) : Permutation (insertion_sort before l) l.
Proof.
  induction l as [|x l IH]; [apply perm_nil|].
  cbn [insertion_sort]. eapply perm_trans; [apply insert_perm|].
  apply perm_skip, IH.
Qed.

Lemma insert_sorted (x : A) (l : list A) :
  StronglySorted R l -> StronglySorted R (insert before x l).
Proof.
  induction 1 as [|y l S IH F]; [repeat constructor|].
  cbn [insert]. destruct (before x y) eqn:E.
  - constructor; [constructor; assumption|]. constructor; [apply before_R, E|].
    eapply Forall_impl; [|exact F]. intros z. apply R_trans, before_R, E.
  - constructor; [exact IH|].
    apply (Permutation_Forall (Permutation_sym (insert_perm x l))).
    constructor; [apply not_before_R, E | exact F].
Qed.

Lemma insertion_sort_sorted (l : list A) : StronglySorted R (insertion_sort before l).
Proof.
  induction l as [|x l IH]; [constructor|]. cbn [insertion_sort].
  apply insert_sorted, IH.
Qed.
End InsertionFacts.

(** ** Facts on sorted lists *)

Lemma StronglySorted_map_in {A B : Type} (R : A -> A -> Prop) (Q : B -> B -> Prop)
    (f : A -> B) (l : list A) :
  (forall a b, In a l -> In b l -> R a b -> Q (f a) (f b)) ->
  StronglySorted R l -> StronglySorted Q (map f l).
Proof.
  intros H S. induction S as [|x l S IH F]; [constructor|].
  cbn [map]. constructor.
  - apply IH. intros a b Ia Ib. apply H; right; assumption.
  - rewrite Forall_map. rewrite Forall_forall in *. intros b Ib.
    apply H; [left; reflexivity | right; exact Ib | apply F, Ib].
Qed.

Lemma StronglySorted_in {A : Type} (R Q : A -> A -> Prop) (l : list A) :
  (forall a b, In a l -> In b l -> R a b -> Q a b) ->
  StronglySorted R l -> StronglySorted Q l.
Proof.
  intros H S. rewrite <- (map_id l). apply (StronglySorted_map_in R Q (fun x => x)); assumption.
Qed.

Lemma StronglySorted_app {A : Type} (R : A -> A -> Prop) (l1 l2 : list A) :
  StronglySorted R l1 -> StronglySorted R l2 ->
  (forall a b, In a l1 -> In b l2 -> R a b) ->
  StronglySorted R (l1 ++ l2).
Proof.
  intros S1 S2 H. induction S1 as [|x l S IH F]; [exact S2|].
  cbn [app]. constructor.
  - apply IH. intros a b Ia. apply H. right. exact Ia.
  - apply Forall_app. split; [exact F|].
    apply Forall_forall. intros b Ib. apply H; [left; reflexivity | exact Ib].
Qed.

Lemma StronglySorted_rev {A : Type} (R : A -> A -> Prop) (l : list A) :
  StronglySorted R l -> StronglySorted (fun a b => R b a) (rev l).
Proof.
  induction 1 as [|x l S IH F]; [constructor|].
  cbn [rev]. apply StronglySorted_app; [exact IH | repeat constructor |].
  intros a b Ia [<-|[]]. rewrite Forall_forall in F. apply F.
  apply in_rev. exact Ia.
Qed.

Lemma StronglySorted_conj {A : Type} (R Q : A -> A -> Prop) (l : list A) :
  StronglySorted R l -> StronglySorted Q l ->
  StronglySorted (fun a b => R a b /\ Q a b) l.
Proof.
  induction 1 as [|x l S IH F]; intros S'; [constructor|].
  inversion S' as [|? ? S'' F']; subst. constructor; [apply IH, S''|].
  rewrite Forall_forall in *. intros b Ib. split; [apply F | apply F']; exact Ib.
Qed.

Lemma StronglySorted_nth {A : Type} (R : A -> A -> Prop) (l : list A) (d : A) (a b : nat) :
  StronglySorted R l -> a < b -> b < length l -> R (nth a l d) (nth b l d).
Proof.
  intros S. revert a b. induction S as [|x l S IH F]; intros a b H1 H2.
  - cbn [length] in H2. lia.
  - destruct b as [|b]; [lia|]. cbn [length] in H2. destruct a as [|a]; cbn [nth].
    + rewrite Forall_forall in F. apply F, nth_In. lia.
    + apply IH; lia.
Qed.

Lemma StronglySorted_filter {A : Type} (R : A -> A -> Prop) (f : A -> bool) (l : list A) :
  StronglySorted R l -> StronglySorted R (filter f l).
Proof.
  induction 1 as [|x l S IH F]; [constructor|].
  cbn [filter]. destruct (f x); [|exact IH]. constructor; [exact IH|].
  rewrite Forall_forall in *. intros b Ib. apply F.
  apply filter_In in Ib. apply Ib.
Qed.

Lemma StronglySorted_seq (s n : nat) : StronglySorted lt (seq s n).
Proof.
  revert s. induction n as [|n IH]; intros s; [constructor|].
  cbn [seq]. constructor; [apply IH|].
  apply Forall_forall. intros b Ib. apply in_seq in Ib. lia.
Qed.

(** ** The two sorting routines meet the contract *)

Lemma map_snd_combine {A B : Type} (l : list A) (l' : list B) :
  length l = length l' -> map snd (combine l l') = l'.
Proof.
  revert l'. induction l as [|x l IH]; intros [|y l'] L; try discriminate;
    [reflexivity|].
  cbn [combine map snd]. rewrite IH; [reflexivity|]. cbn [length] in L. lia.
Qed.

Lemma in_combine_seq (ks : list cell) (s : nat) (k : cell) (i : nat) :
  In (k, i) (combine ks (seq s (length ks))) -> s <= i /\ nth (i - s) ks NA = k.
Proof.
  revert s. induction ks as [|x ks IH]; intros s; [contradiction|].
  cbn [length seq combine In]. intros [H|H].
  - injection H as <- <-. rewrite Nat.sub_diag. split; [apply le_n | reflexivity].
  - destruct (IH _ H) as [H1 H2]. split; [lia|].
    replace (i - s) with (S (i - S s)) by lia. exact H2.
Qed.

Section ArgsortBy.
Variable before : cell -> cell -> bool.
Hypothesis before_leb : forall x y, before x y = true -> key_leb x y = true.
Hypothesis not_before_leb : forall x y, before x y = false -> key_leb y x = true.

Lemma argsort_by_sorts : argsort_sorts (argsort_by before).
Proof.
  intros ks _. unfold argsort_by. split.
  - eapply perm_trans; [apply Permutation_map, insertion_sort_perm|].
    rewrite map_snd_combine by (rewrite length_seq; reflexivity).
    apply Permutation_refl.
  - apply (StronglySorted_map_in
             (fun a b : cell * nat => key_leb (fst a) (fst b) = true)).
    + intros [k i] [k' i'] I I' H. cbn [fst snd] in *.
      apply (Permutation_in _ (insertion_sort_perm _ _ _)) in I, I'.
      apply in_combine_seq in I as [_ I], I' as [_ I'].
      rewrite Nat.sub_0_r in I, I'. rewrite I, I'. exact H.
    + apply insertion_sort_sorted.
      * intros x y z. apply key_leb_trans.
      * intros x y. apply before_leb.
      * intros x y. apply not_before_leb.
Qed.
End ArgsortBy.

Lemma argsort_keep_sorts : argsort_sorts argsort_keep.
Proof.
  apply (argsort_by_sorts key_leb).
  - intros x y H. exact H.
  - intros x y H. destruct (key_leb_total x y) as [T|T]; [congruence | exact T].
Qed.

Lemma argsort_flip_sorts : argsort_sorts argsort_flip.
Proof.
  apply (argsort_by_sorts (fun x y => negb (key_leb y x))).
  - intros x y H. apply negb_true_iff in H.
    destruct (key_leb_total x y) as [T|T]; [exact T | congruence].
  - intros x y H. apply negb_false_iff in H. exact H.
Qed.

Lemma insert_keeps_order (x : cell * nat) (l : list (cell * nat)) :
  let S := fun a b : cell * nat => key_leb (fst b) (fst a) = true -> snd a < snd b in
  StronglySorted S l -> Forall (fun z => snd x < snd z) l ->
  StronglySorted S (insert (fun a b => key_leb (fst a) (fst b)) x l).
Proof.
  intros S H. induction H as [|y l Hs IH F]; intros G; [repeat constructor|].
  cbn [insert]. inversion G as [|? ? Gy Gl]; subst.
  destruct (key_leb (fst x) (fst y)) eqn:E.
  - constructor; [constructor; assumption|].
    eapply Forall_impl; [|exact G]. intros z Hz _. exact Hz.
  - constructor; [apply IH, Gl|].
    apply (Permutation_Forall (Permutation_sym (insert_perm _ _ x l))).
    constructor; [|exact F]. unfold S. intros C. congruence.
Qed.

Lemma argsort_keep_stable : argsort_stable argsort_keep.
Proof.
  intros ks _. unfold argsort_keep, argsort_by.
  set (S := fun a b : cell * nat => key_leb (fst b) (fst a) = true -> snd a < snd b).
  assert (G : forall l : list (cell * nat),
             StronglySorted (fun a b => snd a < snd b) l ->
             StronglySorted S (insertion_sort (fun a b => key_leb (fst a) (fst b)) l)).
  { induction 1 as [|x l Hs IH F]; [constructor|].
    cbn [insertion_sort]. apply insert_keeps_order; [exact IH|].
    apply (Permutation_Forall (Permutation_sym (insertion_sort_perm _ _ l))). exact F. }
  apply (StronglySorted_map_in S).
  - intros [k i] [k' i'] I I' H. cbn [fst snd] in *.
    apply (Permutation_in _ (insertion_sort_perm _ _ _)) in I, I'.
    apply in_combine_seq in I as [_ I], I' as [_ I'].
    rewrite Nat.sub_0_r in I, I'. rewrite I, I'. exact H.
  - apply G. clear. generalize 0. induction ks as [|x ks IH]; intros s; [constructor|].
    cbn [length seq combine]. constructor; [apply IH|].
    apply Forall_forall. intros [k i] I. apply in_combine_seq in I as [I _].
    cbn [snd]. lia.
Qed.

(** ** [nargsort] *)

Lemma select_seq (f : cell -> bool) (k : list cell) (s : nat) :
  select (map f k) (seq s (length k))
  = filter (fun i => f (nth (i - s) k NA)) (seq s (length k)).
Proof.
  revert s. induction k as [|x k IH]; intros s; [reflexivity|].
  cbn [map length seq select filter]. rewrite Nat.sub_diag. cbn [nth].
  rewrite IH.
  assert (E : filter (fun i => f (nth (i - S s) k NA)) (seq (S s) (length k))
              = filter (fun i => f (nth (i - s) (x :: k) NA)) (seq (S s) (length k))).
  { apply filter_ext_in. intros i Hi. apply in_seq in Hi.
    replace (i - s) with (S (i - S s)) by lia. reflexivity. }
  rewrite E. reflexivity.
Qed.

Lemma map_nth_filter_seq (f : cell -> bool) (k : list cell) (s : nat) :
  map (fun i => nth (i - s) k NA)
    (filter (fun i => f (nth (i - s) k NA)) (seq s (length k)))
  = filter f k.
Proof.
  revert s. induction k as [|x k IH]; intros s; [reflexivity|].
  assert (E : filter (fun i => f (nth (i - s) (x :: k) NA)) (seq (S s) (length k))
              = filter (fun i => f (nth (i - S s) k NA)) (seq (S s) (length k))).
  { apply filter_ext_in. intros i Hi. apply in_seq in Hi.
    replace (i - s) with (S (i - S s)) by lia. reflexivity. }
  assert (M : map (fun i => nth (i - s) (x :: k) NA)
                (filter (fun i => f (nth (i - S s) k NA)) (seq (S s) (length k)))
              = filter f k).
  { rewrite <- (IH (S s)). apply map_ext_in. intros i Hi.
    apply filter_In in Hi as [Hi _]. apply in_seq in Hi.
    replace (i - s) with (S (i - S s)) by lia. reflexivity. }
  change (seq s (length (x :: k))) with (s :: seq (S s) (length k)).
  cbn [filter]. rewrite E, Nat.sub_diag.
  change (nth 0 (x :: k) NA) with x.
  destruct (f x); cbn [filter map]; rewrite ?Nat.sub_diag, M; reflexivity.
Qed.

Lemma map_nth_seq {A : Type} (l : list A) (d : A) :
  map (fun i => nth i l d) (seq 0 (length l)) = l.
Proof.
  induction l as [|x l IH]; [reflexivity|].
  cbn [length seq map nth]. rewrite <- seq_shift, map_map. cbn [nth].
  rewrite IH. reflexivity.
Qed.

Lemma filter_partition_perm {A : Type} (f : A -> bool) (l : list A) :
  Permutation (filter f l ++ filter (fun x => negb (f x)) l) l.
Proof.
  induction l as [|x l IH]; [apply perm_nil|].
  cbn [filter]. destruct (f x); cbn [negb app].
  - apply perm_skip, IH.
  - eapply perm_trans; [apply Permutation_sym, Permutation_middle|].
    apply perm_skip, IH.
Qed.

Lemma homogeneous_rev (ks : list cell) : homogeneous (rev ks) = homogeneous ks.
Proof.
  unfold homogeneous. f_equal.
  - destruct (forallb is_number ks) eqn:E.
    + rewrite forallb_forall in *. intros x Hx. apply E, in_rev, Hx.
    + destruct (forallb is_number (rev ks)) eqn:E'; [|reflexivity].
      rewrite <- E. symmetry. rewrite forallb_forall in *.
      intros x Hx. apply E'. rewrite <- in_rev. exact Hx.
  - destruct (forallb is_text ks) eqn:E.
    + rewrite forallb_forall in *. intros x Hx. apply E, in_rev, Hx.
    + destruct (forallb is_text (rev ks)) eqn:E'; [|reflexivity].
      rewrite <- E. symmetry. rewrite forallb_forall in *.
      intros x Hx. apply E'. rewrite <- in_rev. exact Hx.
Qed.

Lemma key_eqb_notna_na (a b : cell) : notna a = true -> isna b = true -> key_eqb a b = false.
Proof.
  destruct a, b; try discriminate; intros _ _; unfold key_eqb, key_leb;
    cbn [key_rank Nat.ltb Nat.leb]; apply andb_false_r.
Qed.

Section NargsortFacts.
Context {host : Host}.
Hypothesis sorts : argsort_sorts argsort.
Variable k : list cell.
Hypothesis comparable : homogeneous (filter notna k) = true.

Let key (i : nat) : cell := nth i k NA.
Let present : list nat := filter (fun i => notna (key i)) (seq 0 (length k)).
Let absent : list nat := filter (fun i => isna (key i)) (seq 0 (length k)).

Lemma nargsort_unfold (ascending : bool) :
  nargsort k ascending
  = (if ascending
     then map (fun a => nth a present 0) (argsort (map key present))
     else rev (map (fun a => nth a (rev present) 0) (argsort (map key (rev present)))))
    ++ absent.
Proof.
  unfold nargsort.
  assert (P : select (map negb (map isna k)) (seq 0 (length k)) = present).
  { rewrite map_map. rewrite (select_seq (fun c => negb (isna c))).
    apply filter_ext. intros i. rewrite Nat.sub_0_r. reflexivity. }
  assert (Q : select (map isna k) (seq 0 (length k)) = absent).
  { rewrite select_seq. apply filter_ext. intros i. rewrite Nat.sub_0_r. reflexivity. }
  assert (V : select (map negb (map isna k)) k = map key present).
  { rewrite map_map. rewrite (select_filter (fun c => negb (isna c))).
    rewrite <- (map_nth_filter_seq (fun c => negb (isna c)) k 0). unfold present.
    rewrite (filter_ext (fun i => negb (isna (nth (i - 0) k NA)))
               (fun i => notna (key i)))
      by (intros i; rewrite Nat.sub_0_r; reflexivity).
    apply map_ext. intros i. rewrite Nat.sub_0_r. reflexivity. }
  rewrite P, Q, V. destruct ascending; [reflexivity|].
  rewrite map_rev. reflexivity.
Qed.

Lemma present_values : map key present = filter notna k.
Proof.
  rewrite <- (map_nth_filter_seq notna k 0). unfold present.
  rewrite (filter_ext (fun i => notna (key i)) (fun i => notna (nth (i - 0) k NA)))
    by (intros i; unfold key; rewrite Nat.sub_0_r; reflexivity).
  apply map_ext. intros i. unfold key. rewrite Nat.sub_0_r. reflexivity.
Qed.

(** What is common to both directions: [argsort] on the keys of [idx],
    a rearrangement of [present]. *)
Section Part.
Variable idx : list nat.
Hypothesis idx_perm : Permutation idx present.

Let part : list nat := map (fun a => nth a idx 0) (argsort (map key idx)).

Lemma idx_comparable : homogeneous (map key idx) = true.
Proof.
  rewrite <- comparable, <- present_values.
  unfold homogeneous. f_equal; apply eq_true_iff_eq; rewrite !forallb_forall;
    split; intros H x Hx; apply H;
    (eapply Permutation_in; [|exact Hx]); apply Permutation_map;
    try exact idx_perm; apply Permutation_sym; exact idx_perm.
Qed.

Lemma part_perm : Permutation part idx.
Proof.
  unfold part. destruct (sorts (map key idx) idx_comparable) as [P _].
  rewrite length_map in P.
  eapply perm_trans; [apply Permutation_map, P|].
  rewrite map_nth_seq. apply Permutation_refl.
Qed.

Lemma key_part (a : nat) :
  a < length idx -> nth a (map key idx) NA = key (nth a idx 0).
Proof.
  intros H. rewrite (nth_indep _ NA (key 0)) by (rewrite length_map; exact H).
  apply map_nth.
Qed.

Lemma argsort_in (a : nat) : In a (argsort (map key idx)) -> a < length idx.
Proof.
  intros I. destruct (sorts (map key idx) idx_comparable) as [P _].
  apply (Permutation_in _ P) in I. apply in_seq in I.
  rewrite length_map in I. lia.
Qed.

Lemma part_sorted :
  StronglySorted (fun i i' => key_leb (key i) (key i') = true) part.
Proof.
  unfold part. destruct (sorts (map key idx) idx_comparable) as [_ S].
  eapply StronglySorted_map_in; [|exact S].
  intros a b Ia Ib H. cbv beta in H.
  rewrite !key_part in H by (apply argsort_in; assumption). exact H.
Qed.

Lemma part_stable (R : nat -> nat -> Prop) :
  argsort_stable argsort ->
  StronglySorted R idx ->
  StronglySorted
    (fun i i' => key_leb (key i') (key i) = true -> R i i') part.
Proof.
  intros St Sr. unfold part. specialize (St (map key idx) idx_comparable).
  eapply StronglySorted_map_in; [|exact St].
  intros a b Ia Ib H L. cbv beta in H.
  rewrite !key_part in H by (apply argsort_in; assumption).
  apply StronglySorted_nth; [exact Sr | apply H, L | apply argsort_in, Ib].
Qed.
End Part.

Lemma present_absent_perm : Permutation (present ++ absent) (seq 0 (length k)).
Proof.
  unfold present, absent.
  rewrite (filter_ext (fun i => isna (key i)) (fun i => negb (notna (key i))))
    by (intros i; unfold notna; rewrite negb_involutive; reflexivity).
  apply filter_partition_perm.
Qed.

Lemma nargsort_perm (ascending : bool) :
  Permutation (nargsort k ascending) (seq 0 (length k)).
Proof.
  rewrite nargsort_unfold.
  eapply perm_trans; [|apply present_absent_perm].
  apply Permutation_app_tail. destruct ascending.
  - apply (part_perm present (Permutation_refl _)).
  - eapply perm_trans; [apply Permutation_sym, Permutation_rev|].
    eapply perm_trans; [apply (part_perm (rev present))|];
      apply Permutation_sym, Permutation_rev.
Qed.

Lemma in_present (i : nat) : In i present -> notna (key i) = true.
Proof. unfold present. intros H. apply filter_In in H. apply H. Qed.

Lemma in_absent (i : nat) : In i absent -> isna (key i) = true.
Proof. unfold absent. intros H. apply filter_In in H. apply H. Qed.

Lemma nargsort_sorted (ascending : bool) :
  StronglySorted (fun i i' => ordered ascending (key i) (key i') = true)
    (nargsort k ascending).
Proof.
  rewrite nargsort_unfold. apply StronglySorted_app.
  - destruct ascending.
    + eapply StronglySorted_in; [|apply (part_sorted present (Permutation_refl _))].
      intros a b Ia Ib H. cbv beta in *. unfold ordered.
      apply (Permutation_in _ (part_perm present (Permutation_refl _))) in Ia.
      rewrite (in_present _ Ia), H. apply orb_true_r.
    + pose proof (Permutation_sym (Permutation_rev present)) as PR.
      eapply StronglySorted_in; [|apply StronglySorted_rev, (part_sorted (rev present) PR)].
      intros a b Ia Ib H. cbv beta in *. unfold ordered.
      apply in_rev in Ia.
      apply (Permutation_in _ (part_perm (rev present) PR)) in Ia.
      apply in_rev in Ia. rewrite (in_present _ Ia), H. apply orb_true_r.
  - eapply StronglySorted_in;
      [|apply (StronglySorted_filter lt), StronglySorted_seq].
    intros a b _ Ib _. unfold ordered.
    rewrite (in_absent b Ib). reflexivity.
  - intros a b _ Ib. unfold ordered. rewrite (in_absent b Ib). reflexivity.
Qed.

Lemma nargsort_stable (ascending : bool) :
  argsort_stable argsort ->
  StronglySorted (fun i i' => key_eqb (key i) (key i') = true -> i < i')
    (nargsort k ascending).
Proof.
  intros St. rewrite nargsort_unfold.
  assert (Sp : StronglySorted lt present)
    by (apply StronglySorted_filter, StronglySorted_seq).
  apply StronglySorted_app.
  - destruct ascending.
    + eapply StronglySorted_in;
        [|apply (part_stable present (Permutation_refl _) lt St Sp)].
      intros a b _ _ H E. apply H. unfold key_eqb in E.
      apply andb_prop in E. apply E.
    + pose proof (Permutation_sym (Permutation_rev present)) as PR.
      eapply StronglySorted_in;
        [|apply StronglySorted_rev,
            (part_stable (rev present) PR (fun a b => b < a) St),
            StronglySorted_rev, Sp].
      intros a b _ _ H E. apply H. unfold key_eqb in E.
      apply andb_prop in E. apply E.
  - eapply StronglySorted_in;
      [|apply (StronglySorted_filter lt), StronglySorted_seq].
    intros a b _ _ H _. exact H.
  - intros a b Ia Ib E. exfalso.
    assert (Na : notna (key a) = true).
    { apply in_present. destruct ascending.
      - apply (Permutation_in _ (part_perm present (Permutation_refl _))), Ia.
      - apply in_rev in Ia.
        apply (Permutation_in _
                 (part_perm (rev present) (Permutation_sym (Permutation_rev present))))
          in Ia.
        apply in_rev in Ia. exact Ia. }
    rewrite (key_eqb_notna_na _ _ Na (in_absent b Ib)) in E. discriminate.
Qed.
End NargsortFacts.

(** ** C2: the sort step *)

Lemma cell_at_default (j : nat) : cell_at j (0, []) = NA.
Proof. destruct j; reflexivity. Qed.

Lemma nth_column_values (j i : nat) (df : DataFrame) :
  nth i (column_values j df) NA = cell_at j (nth i (rows df) (0, [])).
Proof.
  unfold column_values. rewrite <- (cell_at_default j) at 1. apply map_nth.
Qed.

Lemma column_values_take (j : nat) (indexer : list nat) (df : DataFrame) :
  column_values j (take indexer df)
  = map (fun i => nth i (column_values j df) NA) indexer.
Proof.
  unfold column_values at 1. unfold take. cbn [rows]. rewrite map_map.
  apply map_ext. intros i. symmetry. apply nth_column_values.
Qed.

Lemma rows_take (indexer : list nat) (df : DataFrame) :
  map snd (rows (take indexer df))
  = map (fun i => nth i (map snd (rows df)) []) indexer.
Proof.
  unfold take. cbn [rows]. rewrite map_map. apply map_ext. intros i.
  symmetry. apply (map_nth snd (rows df) (0, []) i).
Qed.

Lemma map_fst_combine {A B : Type} (l : list A) (l' : list B) :
  length l = length l' -> map fst (combine l l') = l.
Proof.
  revert l'. induction l as [|x l IH]; intros [|y l'] L; try discriminate;
    [reflexivity|].
  cbn [combine map fst]. rewrite IH; [reflexivity|]. cbn [length] in L. lia.
Qed.

Lemma rows_reset_index (df : DataFrame) :
  map fst (rows (reset_index df)) = seq 0 (length (rows df)) /\
  map snd (rows (reset_index df)) = map snd (rows df).
Proof.
  unfold reset_index. cbn [rows]. split.
  - apply map_fst_combine. rewrite length_seq, length_map. reflexivity.
  - apply map_snd_combine. rewrite length_seq, length_map. reflexivity.
Qed.

Lemma column_values_reset_index (j : nat) (df : DataFrame) :
  column_values j (reset_index df) = column_values j df.
Proof.
  assert (G : forall rs : list row,
             map (cell_at j) rs = map (fun cells => nth j cells NA) (map snd rs))
    by (intros rs; rewrite map_map; reflexivity).
  unfold column_values. rewrite !G, (proj2 (rows_reset_index df)). reflexivity.
Qed.

Lemma StronglySorted_middle {A : Type} (R : A -> A -> Prop) (l1 l2 : list A) (x y : A) :
  StronglySorted R (l1 ++ x :: l2) -> In y l2 -> R x y.
Proof.
  induction l1 as [|z l1 IH]; cbn [app]; intros S I.
  - apply StronglySorted_inv in S as [_ F]. rewrite Forall_forall in F. apply F, I.
  - apply StronglySorted_inv in S as [S _]. apply IH; assumption.
Qed.

Lemma key_eqb_sym (a b : cell) : key_eqb a b = key_eqb b a.
Proof. unfold key_eqb. apply andb_comm. Qed.

Lemma nth_middle_app {A : Type} (l1 l2 : list A) (x d : A) :
  nth (length l1) (l1 ++ x :: l2) d = x.
Proof. induction l1 as [|z l1 IH]; [reflexivity | exact IH]. Qed.

(** An indexer that keeps equal keys in increasing position keeps the
    order of tied rows. *)
Lemma stable_indexer_keeps_ties (j : nat) (input : list (list cell)) (indexer : list nat) :
  Permutation indexer (seq 0 (length input)) ->
  StronglySorted (fun i i' => key_eqb (nth j (nth i input []) NA)
                                (nth j (nth i' input []) NA) = true -> i < i') indexer ->
  keeps_tie_order j input (map (fun i => nth i input []) indexer).
Proof.
  intros P S r1 r2 E (l1 & l2 & l3 & H).
  set (a := length l1). set (b := length (l1 ++ r1 :: l2)).
  assert (Ha : nth a input [] = r1) by (rewrite H; apply nth_middle_app).
  assert (Hb : nth b input [] = r2).
  { rewrite H. change (l1 ++ r1 :: l2 ++ r2 :: l3) with (l1 ++ (r1 :: l2) ++ r2 :: l3).
    rewrite app_assoc. apply nth_middle_app. }
  assert (Lab : a < b) by (unfold a, b; rewrite length_app; cbn [length]; lia).
  assert (Lb : b < length input).
  { rewrite H. unfold b. rewrite !length_app. cbn [length]. rewrite length_app.
    cbn [length]. lia. }
  assert (Ia : In a indexer).
  { apply (Permutation_in _ (Permutation_sym P)), in_seq. lia. }
  assert (Ib : In b indexer).
  { apply (Permutation_in _ (Permutation_sym P)), in_seq. lia. }
  apply in_split in Ia as (p1 & p2 & Hp). rewrite Hp in Ib.
  apply in_app_or in Ib as [Ib|[Ib|Ib]]; [| lia |].
  - exfalso. apply in_split in Ib as (q1 & q2 & Hq). rewrite Hq in Hp.
    rewrite Hp, <- app_assoc in S. cbn [app] in S.
    assert (C : b < a).
    { apply (StronglySorted_middle _ _ _ _ _ S).
      - apply in_or_app. right. left. reflexivity.
      - rewrite Ha, Hb, key_eqb_sym. exact E. }
    lia.
  - apply in_split in Ib as (q1 & q2 & Hq). rewrite Hp, Hq.
    exists (map (fun i => nth i input []) p1), (map (fun i => nth i input []) q1),
      (map (fun i => nth i input []) q2).
    rewrite map_app. cbn [map]. rewrite map_app. cbn [map]. rewrite Ha, Hb.
    reflexivity.
Qed.


Lemma sample_sizes_shape :
  NoDup (columns sample_sizes) /\ In (py "installations") (columns sample_sizes) /\
  forall j, nth_error (columns sample_sizes) j = Some (py "installations") ->
            homogeneous (filter notna (column_values j sample_sizes)) = true.
Proof.
  split.
  { apply (NoDup_count_occ' (list_eq_dec N.eq_dec)); intros x Hx;
      repeat destruct Hx as [<-|Hx]; [reflexivity..|contradiction]. }
  split; [right; right; left; reflexivity|].
  intros [|[|[|[|j]]]] H; vm_compute in H; try discriminate H; reflexivity.
Defined.


Lemma precedes_pair {A : Type} (x y : A) : x <> y -> ~ precedes x y [y; x].
Proof.
  intros N (l1 & l2 & l3 & H).
  destruct l1 as [|a [|b l1]]; cbn [app] in H.
  - injection H as H1 H2. congruence.
  - injection H as _ H2. destruct l2; discriminate H2.
  - injection H as _ _ H. destruct l1; discriminate H.
Qed.


(** ** C3: row and column counts *)

Lemma astype_int_length (series vs : list cell) :
  astype_int series = Ok vs -> length vs = length series.
Proof.
  revert vs. induction series as [|c l IH]; intros vs H.
  - injection H as <-. reflexivity.
  - cbn [astype_int] in H. destruct (astype_int_cell c); [|discriminate].
    cbn [bind] in H. destruct (astype_int l) as [ws|]; [|discriminate].
    cbn [bind] in H. injection H as <-. cbn [length]. rewrite (IH ws eq_refl).
    reflexivity.
Qed.

Lemma assign_integer_column_rows (df df' : DataFrame) (column : pystr) :
  assign_integer_column df column = Ok df' -> length (rows df') = length (rows df).
Proof.
  unfold assign_integer_column. destruct (lookup_column column (columns df)); try discriminate.
  destruct (to_integer_series (column_values j df)) as [vs|] eqn:E; [|discriminate].
  cbn [bind]. intros H. injection H as <-. unfold set_column. cbn [rows].
  unfold to_integer_series in E. apply astype_int_length in E.
  rewrite !length_map in E. unfold column_values in E. rewrite length_map in E.
  rewrite length_map, length_combine, E. apply Nat.min_id.
Qed.

Lemma enforce_integer_columns_rows (columns_ : list pystr) (df df' : DataFrame) :
  enforce_integer_columns df columns_ = Ok df' -> length (rows df') = length (rows df).
Proof.
  revert df. induction columns_ as [|c cs IH]; intros df H.
  - injection H as <-. reflexivity.
  - cbn [enforce_integer_columns] in H.
    destruct (assign_integer_column df c) as [d|] eqn:E; [|discriminate].
    cbn [bind] in H. rewrite (IH _ H). apply (assign_integer_column_rows _ _ _ E).
Qed.

Lemma sort_by_column_rows {host : Host} (df df' : DataFrame) (column : pystr) (ascending : bool) :
  argsort_sorts argsort ->
  sort_by_column df column ascending = Ok df' -> length (rows df') = length (rows df).
Proof.
  intros sorts. unfold sort_by_column, sort_values.
  destruct (lookup_column column (columns df)); try discriminate.
  destruct (homogeneous (filter notna (column_values j df))) eqn:C; [|discriminate].
  cbn [bind]. intros H. injection H as <-.
  rewrite <- (length_map fst (rows (reset_index _))), (proj1 (rows_reset_index _)).
  rewrite length_seq. unfold take. cbn [rows]. rewrite length_map.
  rewrite (Permutation_length (nargsort_perm sorts _ C ascending)), length_seq.
  unfold column_values. apply length_map.
Qed.

(** C3, as the code has it: dropping the empty columns or the empty rows
    never adds a row or a column; the numeric row filter, the categorical
    value filter and the non-null filter never add a row; every other
    step, where it succeeds, returns as many rows as it was given. *)
Theorem steps_row_count {host : Host} (s : step) (df df' : DataFrame) :
  argsort_sorts argsort ->
  transformation s df = Ok df' ->
  match s with
  | DropEmptyColumns | DropEmptyRows =>
      length (rows df') <= length (rows df) /\
      length (columns df') <= length (columns df)
  | NumericRowFilter _ | ValueFilter _ _ | NonNullFilter _ =>
      length (rows df') <= length (rows df)
  | _ => length (rows df') = length (rows df)
  end.
Proof.
  intros sorts H. destruct s; cbn [transformation] in H.
  - injection H as <-. unfold drop_completely_empty_columns, dropna_columns.
    cbn [rows columns]. rewrite length_map. split; [apply le_n | apply select_length].
  - injection H as <-. unfold drop_completely_empty_rows, dropna_rows.
    cbn [rows columns]. split; [apply filter_length_le | apply le_n].
  - injection H as <-. reflexivity.
  - injection H as <-. reflexivity.
  - unfold make_numeric_row_filter, filter_rows_with_numeric_column in H.
    destruct (lookup_column column (columns df)); try discriminate.
    injection H as <-. apply select_length.
  - apply (assign_integer_column_rows _ _ _ H).
  - apply (enforce_integer_columns_rows _ _ _ H).
  - apply (sort_by_column_rows _ _ _ _ sorts H).
  - unfold make_non_null_filter, dropna_subset in H.
    destruct (find _ columns_); [discriminate|].
    injection H as <-. apply filter_length_le.
  - unfold make_value_filter in H.
    destruct (lookup_column column (columns df)); try discriminate.
    injection H as <-. apply select_length.
Qed.

Lemma steps_row_count_witness :
  length (rows (reset_index
                  (take (@nargsort keep_host (column_values 2 sample_sizes) false)
                     sample_sizes)))
  = length (rows sample_sizes).
Proof.
  exact (@steps_row_count keep_host (Sorter (py "installations") false) sample_sizes _
           argsort_keep_sorts eq_refl).
Defined.

(** C3 fails as stated: the non-null filter, the fifth step of the
    [adhesion_by_size] chain, is neither the numeric row filter nor the
    categorical value filter; it succeeds, and it returns fewer rows than
    it was given. *)
Lemma non_null_filter_drops_rows :
  nth_error adhesion_by_size 4 = Some (NonNullFilter [py "company_size"]) /\
  exists df',
    @transformation keep_host (NonNullFilter [py "company_size"]) sample_sizes = Ok df' /\
    length (rows df') < length (rows sample_sizes).
Proof.
  split; [reflexivity|]. eexists. split; [vm_compute; reflexivity|].
  cbn [rows length]. apply le_n.
Qed.

(** ** C1: the yearly summary *)

Lemma perm3_cases {A : Type} (a b c : A) (l : list A) :
  Permutation l [a; b; c] ->
  l = [a; b; c] \/ l = [a; c; b] \/ l = [b; a; c] \/
  l = [b; c; a] \/ l = [c; a; b] \/ l = [c; b; a].
Proof.
  intros P. destruct l as [|x l]; [apply Permutation_nil in P; discriminate|].
  assert (I : In x [a; b; c]) by (apply (Permutation_in _ P); left; reflexivity).
  destruct I as [<-|[<-|[<-|[]]]].
  - apply Permutation_cons_inv in P. apply Permutation_sym in P.
    apply Permutation_length_2_inv in P as [->| ->]; auto.
  - assert (P' : Permutation l [a; c]).
    { apply (Permutation_cons_inv (a := b)).
      eapply perm_trans; [exact P | apply perm_swap]. }
    apply Permutation_sym in P'.
    apply Permutation_length_2_inv in P' as [->| ->]; auto.
  - assert (P' : Permutation l [a; b]).
    { apply (Permutation_cons_inv (a := c)).
      eapply perm_trans; [exact P|].
      eapply perm_trans; [apply perm_skip, perm_swap | apply perm_swap]. }
    apply Permutation_sym in P'.
    apply Permutation_length_2_inv in P' as [->| ->]; auto 10.
Qed.

Lemma by_year_layout (ca cc : list pystr) :
  Permutation ca by_year_columns -> Permutation cc by_year_columns ->
  exists jl jr, summary_layout ca cc jl jr = true.
Proof.
  intros Pa Pc. apply perm3_cases in Pa, Pc.
  destruct Pa as [->|[->|[->|[->|[->| ->]]]]];
    destruct Pc as [->|[->|[->|[->|[->| ->]]]]];
    first [ exists 0, 0; vm_compute; reflexivity
          | exists 0, 1; vm_compute; reflexivity
          | exists 0, 2; vm_compute; reflexivity
          | exists 1, 0; vm_compute; reflexivity
          | exists 1, 1; vm_compute; reflexivity
          | exists 1, 2; vm_compute; reflexivity
          | exists 2, 0; vm_compute; reflexivity
          | exists 2, 1; vm_compute; reflexivity
          | exists 2, 2; vm_compute; reflexivity ].
Qed.

Lemma has_label_In (x : pystr) (l : list pystr) : has_label x l = true <-> In x l.
Proof.
  unfold has_label. rewrite existsb_exists. split.
  - intros (y & I & E). apply pystr_eqb_eq in E. subst. exact I.
  - intros I. exists x. split; [exact I | apply pystr_eqb_refl].
Qed.

Lemma distinct_NoDup (l : list pystr) : distinct l = true -> NoDup l.
Proof.
  induction l as [|x l IH]; intros H; [constructor|].
  cbn [distinct] in H. apply andb_prop in H as [H1 H2]. constructor.
  - intros I. apply has_label_In in I. rewrite I in H1. discriminate.
  - apply IH, H2.
Qed.

Lemma forallb_has_label (l l' : list pystr) :
  forallb (fun x => has_label x l') l = true -> forall x, In x l -> In x l'.
Proof.
  intros H x I. rewrite forallb_forall in H. apply has_label_In, H, I.
Qed.

Lemma summary_layout_facts (ca cc : list pystr) (jl jr : nat) :
  summary_layout ca cc jl jr = true ->
  let mc := merged_labels ca cc jr in
  (length ca = 3 /\ length cc = 3 /\ jl < 3 /\ jr < 3) /\
  (NoDup ca /\ NoDup cc) /\
  ((forall x, In x ca -> In x by_year_columns) /\
   (forall x, In x cc -> In x by_year_columns)) /\
  (lookup_column (py "year") ca = OneColumn jl /\
   lookup_column (py "year") cc = OneColumn jr) /\
  (NoDup mc /\ (forall x, In x mc -> In x int_columns) /\
   (forall x, In x int_columns -> In x mc)) /\
  lookup_column (py "year") mc = OneColumn jl /\
  (forall name, In name [py "installations_adhesion"; py "companies_adhesion"] ->
     exists j, lookup_column name mc = OneColumn j /\ j < 3 /\ j <> jl) /\
  (forall name, In name [py "installations_certification"; py "companies_certification"] ->
     exists j, lookup_column name mc = OneColumn j /\ 3 <= j).
Proof.
  intros H mc. unfold summary_layout in H. cbv zeta in H. fold mc in H.
  repeat (apply andb_prop in H; destruct H as [H ?]).
  repeat match goal with
         | E : (_ =? _) = true |- _ => apply Nat.eqb_eq in E
         | E : (_ <? _) = true |- _ => apply Nat.ltb_lt in E
         | E : distinct _ = true |- _ => apply distinct_NoDup in E
         end.
  split; [repeat split; assumption|]. split; [split; assumption|].
  split; [split; apply forallb_has_label; assumption|].
  split.
  { destruct (lookup_column (py "year") ca); try discriminate.
    destruct (lookup_column (py "year") cc); try discriminate.
    match goal with E : (_ =? _) && (_ =? _) = true |- _ =>
      apply andb_prop in E; destruct E as [E1 E2];
      apply Nat.eqb_eq in E1, E2; subst end.
    split; reflexivity. }
  split; [repeat split; try assumption; apply forallb_has_label; assumption|].
  split.
  { destruct (lookup_column (py "year") mc); try discriminate.
    match goal with E : (_ =? _) = true |- _ => apply Nat.eqb_eq in E; subst end.
    reflexivity. }
  split.
  - intros name I.
    match goal with E : forallb _ [py "installations_adhesion"; _] = true |- _ =>
      rewrite forallb_forall in E; specialize (E name I) end.
    destruct (lookup_column name mc) as [|j|]; try discriminate. exists j.
    match goal with E : _ && _ = true |- _ =>
      apply andb_prop in E; destruct E as [E1 E2];
      apply Nat.ltb_lt in E1; apply negb_true_iff, Nat.eqb_neq in E2 end.
    repeat split; assumption.
  - intros name I.
    match goal with E : forallb _ [py "installations_certification"; _] = true |- _ =>
      rewrite forallb_forall in E; specialize (E name I) end.
    destruct (lookup_column name mc) as [|j|]; try discriminate. exists j.
    match goal with E : (_ <=? _) = true |- _ => apply Nat.leb_le in E end.
    split; [reflexivity | assumption].
Qed.

Lemma key_leb_Int (x y : Z) : key_leb (Int x) (Int y) = (x <=? y)%Z.
Proof.
  unfold key_leb. cbn [key_rank Nat.ltb Nat.leb number_leb number_value].
  unfold Qle_bool. cbn [Qnum Qden inject_Z]. rewrite !Z.mul_1_r. reflexivity.
Qed.

Lemma key_eqb_Int (x y : Z) : key_eqb (Int x) (Int y) = (x =? y)%Z.
Proof.
  unfold key_eqb. rewrite !key_leb_Int.
  destruct (Z.leb_spec x y), (Z.leb_spec y x), (Z.eqb_spec x y); cbn [andb];
    try reflexivity; lia.
Qed.

Lemma column_ints (j : nat) (rs : list row) (ys : list Z) :
  map (cell_at j) rs = map Int ys ->
  ys = map (fun r => int_value (cell_at j r)) rs /\
  forall r, In r rs -> cell_at j r = Int (int_value (cell_at j r)).
Proof.
  revert ys. induction rs as [|r rs IH]; intros [|y ys] H; try discriminate.
  - split; [reflexivity | contradiction].
  - cbn [map] in H. injection H as H1 H2. destruct (IH _ H2) as [E F].
    split.
    + cbn [map]. rewrite H1. cbn [int_value]. f_equal. exact E.
    + intros r' [<-|I]; [rewrite H1; reflexivity | apply F, I].
Qed.

Lemma remove_nth_length {A : Type} (j : nat) (l : list A) :
  j < length l -> S (length (remove_nth j l)) = length l.
Proof.
  revert j. induction l as [|x l IH]; intros j H; [cbn [length] in H; lia|].
  destruct j as [|j]; cbn [remove_nth length]; [reflexivity|].
  rewrite IH; [reflexivity|]. cbn [length] in H. lia.
Qed.

Lemma Forall_remove_nth {A : Type} (P : A -> Prop) (j : nat) (l : list A) :
  Forall P l -> Forall P (remove_nth j l).
Proof.
  intros F. revert j. induction F as [|x l Px F IH]; intros j.
  - destruct j; constructor.
  - destruct j as [|j]; cbn [remove_nth]; [exact F|]. constructor; [exact Px | apply IH].
Qed.

Lemma Forall_set_nth {A : Type} (P : A -> Prop) (j : nat) (v : A) (l : list A) :
  P v -> Forall P l -> Forall P (set_nth j v l).
Proof.
  intros Pv F. revert j. induction F as [|x l Px F IH]; intros j.
  - destruct j; constructor.
  - destruct j as [|j]; cbn [set_nth]; constructor; auto.
Qed.

Lemma coerce_cells_all (cols coerced : list pystr) (cells : list cell) :
  length cells = length cols -> (forall x, In x cols -> In x coerced) ->
  coerce_cells cols coerced cells = map intify cells.
Proof.
  unfold coerce_cells. revert cells.
  induction cols as [|c cols IH]; intros [|x cells] L H; try discriminate;
    [reflexivity|].
  cbn [combine map fst snd].
  rewrite (proj2 (has_label_In c coerced) (H c (or_introl eq_refl))).
  rewrite IH; [reflexivity | cbn [length] in L; lia |].
  intros y Hy. apply H. right. exact Hy.
Qed.

Lemma map_combine_snd {A B C : Type} (f : B -> C) (l : list A) (l' : list B) :
  map (fun r : A * B => (fst r, f (snd r))) (combine l l') = combine l (map f l').
Proof.
  revert l'. induction l as [|x l IH]; intros [|y l']; try reflexivity.
  cbn [combine map fst snd]. rewrite IH. reflexivity.
Qed.

Lemma StronglySorted_le_lt (l : list Z) :
  StronglySorted Z.le l -> NoDup l -> StronglySorted Z.lt l.
Proof.
  induction 1 as [|x l S IH F]; intros ND; [constructor|].
  inversion ND as [|? ? Hx ND']; subst. constructor; [apply IH, ND'|].
  rewrite Forall_forall in *. intros y Hy. specialize (F y Hy).
  assert (x <> y) by (intros ->; contradiction). lia.
Qed.

Lemma homogeneous_ints (ys : list Z) : homogeneous (filter notna (map Int ys)) = true.
Proof.
  unfold homogeneous. apply orb_true_intro. left.
  induction ys as [|y ys IH]; [reflexivity|]. cbn [map filter notna isna negb forallb is_number].
  exact IH.
Qed.

Lemma forall_nth_Forall {A : Type} (P : A -> Prop) (d : A) (l : list A) :
  (forall j, j < length l -> P (nth j l d)) -> Forall P l.
Proof.
  intros H. apply Forall_forall. intros x I.
  destruct (In_nth l x d I) as (j & Hj & <-). apply H, Hj.
Qed.

Lemma nth_map_intify (j : nat) (cells : list cell) :
  j < length cells -> nth j (map intify cells) NA = intify (nth j cells NA).
Proof.
  intros H. rewrite (nth_indep _ NA (intify NA)) by (rewrite length_map; exact H).
  apply map_nth.
Qed.

(** With no repeated year on the right, at most one right row has the key
    of a given left row. *)
Lemma filter_key_unique (j : nat) (rs : list row) (ys : list Z) (y : Z) :
  map (cell_at j) rs = map Int ys -> NoDup ys ->
  filter (fun r => key_eqb (Int y) (cell_at j r)) rs = [] \/
  exists r, filter (fun r => key_eqb (Int y) (cell_at j r)) rs = [r] /\
            cell_at j r = Int y /\ In r rs.
Proof.
  revert ys. induction rs as [|r rs IH]; intros [|z ys] H ND; try discriminate;
    [left; reflexivity|].
  cbn [map] in H. injection H as H1 H2. inversion ND as [|? ? Hz ND']; subst.
  cbn [filter]. rewrite H1, key_eqb_Int.
  destruct (Z.eqb_spec y z) as [->|N].
  - right. exists r. split; [|split; [exact H1 | left; reflexivity]]. f_equal.
    assert (G : forall r', In r' rs -> key_eqb (Int z) (cell_at j r') = false).
    { intros r' I. destruct (column_ints j rs ys H2) as [E F].
      rewrite (F r' I), key_eqb_Int. apply Z.eqb_neq. intros ->.
      apply Hz. rewrite E. apply in_map_iff. exists r'. split; [reflexivity | exact I]. }
    clear -G. induction rs as [|r' rs IH]; [reflexivity|].
    cbn [filter]. rewrite (G r' (or_introl eq_refl)). apply IH.
    intros r'' I. apply G. right. exact I.
  - destruct (IH ys H2 ND') as [E|(r' & E & C & I)].
    + left. exact E.
    + right. exists r'. split; [exact E|]. split; [exact C | right; exact I].
Qed.

(** What the hypotheses on a by-year table give for each of its rows. *)
Lemma by_year_row (df : DataFrame) (j : nat) (ys : list Z) :
  rectangular df -> length (columns df) = 3 -> NoDup (columns df) ->
  (forall x, In x (columns df) -> In x by_year_columns) ->
  lookup_column (py "year") (columns df) = OneColumn j ->
  column_values j df = map Int ys ->
  finite_under [py "installations"; py "companies"] df ->
  forall r, In r (rows df) ->
    length (snd r) = 3 /\
    cell_at j r = Int (int_value (cell_at j r)) /\
    In (int_value (cell_at j r)) ys /\
    Forall (fun x => parses_infinite x = false) (snd r).
Proof.
  intros W L ND B J Y F r I.
  destruct (column_ints j (rows df) ys Y) as [E G].
  assert (Lr : length (snd r) = 3).
  { unfold rectangular in W. rewrite Forall_forall in W. rewrite (W r I). exact L. }
  split; [exact Lr|]. split; [apply G, I|]. split.
  { rewrite E. apply in_map_iff. exists r. split; [reflexivity | exact I]. }
  apply (forall_nth_Forall _ NA). intros i Hi.
  destruct (nth_error (columns df) i) as [x|] eqn:Ex.
  2:{ apply nth_error_None in Ex. lia. }
  destruct (B x (nth_error_In _ _ Ex)) as [<-|[<-|[<-|[]]]].
  - apply lookup_column_one in J.
    assert (i = j).
    { apply (proj1 (NoDup_nth_error (columns df)) ND); [lia | congruence]. }
    subst i. change (nth j (snd r) NA) with (cell_at j r). rewrite (G r I). reflexivity.
  - apply (F r i _ I Ex). left. reflexivity.
  - apply (F r i _ I Ex). right. left. reflexivity.
Qed.

Lemma existsb_Zeqb (y : Z) (l : list Z) : existsb (Z.eqb y) l = true <-> In y l.
Proof.
  rewrite existsb_exists. split.
  - intros (x & I & E). apply Z.eqb_eq in E. subst. exact I.
  - intros I. exists y. split; [exact I | apply Z.eqb_refl].
Qed.

Lemma intify_Int (z : Z) : intify (Int z) = Int z.
Proof. reflexivity. Qed.

Section YearlySummary.
Context {host : Host}.
Hypothesis sorts : argsort_sorts argsort.
Variables a c : DataFrame.
Variables jl jr : nat.
Variables ysa ysc : list Z.
Hypothesis Wa : rectangular a.
Hypothesis Wc : rectangular c.
Hypothesis Lay : summary_layout (columns a) (columns c) jl jr = true.
Hypothesis Ya : column_values jl a = map Int ysa.
Hypothesis Yc : column_values jr c = map Int ysc.
Hypothesis Na : NoDup ysa.
Hypothesis Nc : NoDup ysc.
Hypothesis Fa : finite_under [py "installations"; py "companies"] a.
Hypothesis Fc : finite_under [py "installations"; py "companies"] c.

Let mc : list pystr := merged_labels (columns a) (columns c) jr.

Let block (l : row) : list (list cell) :=
  match filter (fun r : row => key_eqb (cell_at jl l) (cell_at jr r)) (rows c) with
  | [] => [snd l ++ repeat NA (length (remove_nth jr (columns c)))]
  | ms => map (fun r : row => snd l ++ remove_nth jr (snd r)) ms
  end.

Let unmatched (r : row) : bool :=
  negb (existsb (fun l : row => key_eqb (cell_at jl l) (cell_at jr r)) (rows a)).

Let right_only : list (list cell) :=
  map (fun r : row =>
         set_nth jl (cell_at jr r) (repeat NA (length (columns a)))
           ++ remove_nth jr (snd r))
    (filter unmatched (rows c)).

Let cells : list (list cell) := flat_map block (rows a) ++ right_only.

Let ym : list Z := ysa ++ filter (fun y => negb (existsb (Z.eqb y) ysa)) ysc.

Let year_a (l : row) : Z := int_value (cell_at jl l).
Let year_c (r : row) : Z := int_value (cell_at jr r).

Lemma merge_by_year :
  merge_outer a c (py "year") (py "_adhesion") (py "_certification")
  = Ok {| columns := mc; rows := combine (seq 0 (length cells)) cells |}.
Proof.
  destruct (summary_layout_facts _ _ _ _ Lay) as (_ & _ & _ & [Ja Jc] & _).
  unfold merge_outer. rewrite Ja, Jc, Ya, Yc, <- map_app, homogeneous_ints.
  reflexivity.
Qed.

Lemma left_row (l : row) :
  In l (rows a) ->
  length (snd l) = 3 /\ cell_at jl l = Int (year_a l) /\ In (year_a l) ysa /\
  Forall (fun x => parses_infinite x = false) (snd l).
Proof.
  destruct (summary_layout_facts _ _ _ _ Lay)
    as ((La & _) & (NDa & _) & (Ba & _) & (Ja & _) & _).
  apply (by_year_row a jl ysa); assumption.
Qed.

Lemma right_row (r : row) :
  In r (rows c) ->
  length (snd r) = 3 /\ cell_at jr r = Int (year_c r) /\ In (year_c r) ysc /\
  Forall (fun x => parses_infinite x = false) (snd r).
Proof.
  destruct (summary_layout_facts _ _ _ _ Lay)
    as ((_ & Lc & _) & (_ & NDc) & (_ & Bc) & (_ & Jc) & _).
  apply (by_year_row c jr ysc); assumption.
Qed.

Lemma unmatched_fresh (r : row) :
  In r (rows c) -> unmatched r = negb (existsb (Z.eqb (year_c r)) ysa).
Proof.
  intros I. unfold unmatched. f_equal.
  destruct (right_row r I) as (_ & Yr & _). rewrite Yr.
  destruct (column_ints jl (rows a) ysa Ya) as [E F]. rewrite E.
  clear E. induction (rows a) as [|l ls IH]; [reflexivity|].
  cbn [existsb map]. rewrite (F l (or_introl eq_refl)), key_eqb_Int, Z.eqb_sym.
  cbn [int_value]. f_equal. apply IH. intros l' I'. apply F. right. exact I'.
Qed.

Lemma block_cases (l : row) :
  In l (rows a) ->
  (~ In (year_a l) ysc /\
   block l = [snd l ++ repeat NA (length (remove_nth jr (columns c)))]) \/
  (exists r, In r (rows c) /\ year_c r = year_a l /\
             block l = [snd l ++ remove_nth jr (snd r)]).
Proof.
  intros I. destruct (left_row l I) as (_ & Yl & _). unfold block. rewrite Yl.
  destruct (filter_key_unique jr (rows c) ysc (year_a l) Yc Nc)
    as [E|(r & E & C & Ir)]; rewrite E.
  - left. split; [|reflexivity]. intros J.
    destruct (column_ints jr (rows c) ysc Yc) as [Ec Fc']. rewrite Ec in J.
    apply in_map_iff in J as (r & J & Ir).
    assert (M : In r (filter (fun r : row => key_eqb (Int (year_a l)) (cell_at jr r))
                        (rows c))).
    { apply filter_In. split; [exact Ir|]. rewrite (Fc' r Ir), key_eqb_Int, J.
      apply Z.eqb_refl. }
    rewrite E in M. contradiction.
  - right. exists r. split; [exact Ir|]. split; [|reflexivity].
    unfold year_c. rewrite C. reflexivity.
Qed.

Lemma cells_facts (cs : list cell) :
  In cs cells ->
  length cs = 5 /\
  Forall (fun x => parses_infinite x = false) cs /\
  exists y, nth jl cs NA = Int y /\
    (~ In y ysc -> forall j, 3 <= j -> nth j cs NA = NA) /\
    (~ In y ysa -> forall j, j < 3 -> j <> jl -> nth j cs NA = NA).
Proof.
  destruct (summary_layout_facts _ _ _ _ Lay) as ((La & Lc & Hl & Hr) & _).
  assert (Lrc : length (remove_nth jr (columns c)) = 2).
  { pose proof (remove_nth_length jr (columns c) ltac:(lia)). lia. }
  unfold cells. intros I. apply in_app_or in I as [I|I].
  - apply in_flat_map in I as (l & Il & I).
    destruct (left_row l Il) as (Ll & Yl & Ia & Fl).
    destruct (block_cases l Il) as [[N E]|(r & Ir & Er & E)];
      rewrite E in I; destruct I as [<-|[]].
    + rewrite Lrc. split; [rewrite length_app, Ll; reflexivity|]. split.
      { apply Forall_app. split; [exact Fl | repeat constructor]. }
      exists (year_a l). split.
      { rewrite app_nth1 by lia. exact Yl. }
      split; [|intros C; contradiction].
      intros _ j Hj. rewrite app_nth2 by lia. rewrite Ll.
      destruct (j - 3) as [|[|[|k]]]; reflexivity.
    + destruct (right_row r Ir) as (Lr & Yr & Ic & Fr).
      split.
      { rewrite length_app, Ll.
        pose proof (remove_nth_length jr (snd r) ltac:(lia)). lia. }
      split; [apply Forall_app; split; [exact Fl | apply Forall_remove_nth, Fr]|].
      exists (year_a l). split; [rewrite app_nth1 by lia; exact Yl|].
      split; intros C; exfalso; apply C; [rewrite <- Er|]; assumption.
  - unfold right_only in I. apply in_map_iff in I as (r & <- & I).
    apply filter_In in I as [Ir U].
    destruct (right_row r Ir) as (Lr & Yr & Ic & Fr). rewrite La.
    split.
    { rewrite length_app, set_nth_length.
      pose proof (remove_nth_length jr (snd r) ltac:(lia)). cbn [repeat length]. lia. }
    split.
    { apply Forall_app. split; [|apply Forall_remove_nth, Fr].
      apply Forall_set_nth; [rewrite Yr; reflexivity | repeat constructor]. }
    exists (year_c r). split.
    { rewrite app_nth1 by (rewrite set_nth_length; cbn [repeat length]; lia).
      rewrite nth_set_nth. cbn [repeat length]. rewrite Nat.eqb_refl.
      rewrite (proj2 (Nat.ltb_lt jl 3) Hl). exact Yr. }
    split; [intros C; contradiction|].
    intros _ j Hj Nj.
    rewrite app_nth1 by (rewrite set_nth_length; cbn [repeat length]; lia).
    rewrite nth_set_nth. rewrite (proj2 (Nat.eqb_neq j jl) Nj). cbn [andb].
    destruct j as [|[|[|k]]]; try reflexivity. lia.
Qed.

Lemma cells_years : map (fun cs => nth jl cs NA) cells = map Int ym.
Proof.
  destruct (summary_layout_facts _ _ _ _ Lay) as ((La & Lc & Hl & Hr) & _).
  unfold cells, ym. rewrite !map_app. f_equal.
  - destruct (column_ints jl (rows a) ysa Ya) as [E _]. rewrite E. clear E.
    assert (G : forall l, In l (rows a) ->
                  map (fun cs => nth jl cs NA) (block l) = [Int (year_a l)]).
    { intros l Il. destruct (left_row l Il) as (Ll & Yl & _).
      destruct (block_cases l Il) as [[_ E]|(r & _ & _ & E)]; rewrite E;
        cbn [map]; rewrite app_nth1 by lia; rewrite <- Yl; reflexivity. }
    induction (rows a) as [|l ls IH]; [reflexivity|].
    cbn [flat_map map]. rewrite map_app, (G l (or_introl eq_refl)), IH;
      [reflexivity|]. intros l' I'. apply G. right. exact I'.
  - unfold right_only. rewrite map_map.
    destruct (column_ints jr (rows c) ysc Yc) as [E _]. rewrite E. clear E.
    assert (G : forall r, In r (rows c) ->
                  unmatched r = negb (existsb (Z.eqb (year_c r)) ysa) /\
                  nth jl (set_nth jl (cell_at jr r) (repeat NA (length (columns a)))
                            ++ remove_nth jr (snd r)) NA = Int (year_c r)).
    { intros r Ir. split; [apply unmatched_fresh, Ir|].
      destruct (right_row r Ir) as (_ & Yr & _). rewrite La.
      rewrite app_nth1 by (rewrite set_nth_length; cbn [repeat length]; lia).
      rewrite nth_set_nth. cbn [repeat length]. rewrite Nat.eqb_refl.
      rewrite (proj2 (Nat.ltb_lt jl 3) Hl). exact Yr. }
    induction (rows c) as [|r rs IH]; [reflexivity|].
    cbn [filter map].
    destruct (G r (or_introl eq_refl)) as [U V]. rewrite U.
    fold (year_c r).
    destruct (negb (existsb (Z.eqb (year_c r)) ysa)); cbn [map];
      rewrite ?V, IH; try reflexivity; intros r' I'; apply G; right; exact I'.
Qed.
Lemma ym_NoDup : NoDup ym.
Proof.
  unfold ym. apply NoDup_app; [exact Na | apply NoDup_filter, Nc|].
  intros y I J. apply filter_In in J as [_ J].
  apply negb_true_iff in J. apply existsb_Zeqb in I. congruence.
Qed.

Lemma ym_In (y : Z) : In y ym <-> In y ysa \/ In y ysc.
Proof.
  unfold ym. rewrite in_app_iff, filter_In. split.
  - intros [I|[I _]]; [left | right]; exact I.
  - intros [I|I]; [left; exact I|].
    destruct (existsb (Z.eqb y) ysa) eqn:E.
    + left. apply existsb_Zeqb, E.
    + right. split; [exact I | reflexivity].
Qed.

Let m0 : DataFrame :=
  {| columns := mc; rows := combine (seq 0 (length cells)) cells |}.

Let m1 : DataFrame :=
  {| columns := mc; rows := combine (seq 0 (length cells)) (map (map intify) cells) |}.

Lemma mc_length : length mc = 5.
Proof.
  destruct (summary_layout_facts _ _ _ _ Lay) as ((La & Lc & Hl & Hr) & _).
  unfold mc, merged_labels. rewrite length_app, !length_map, La.
  pose proof (remove_nth_length jr (columns c) ltac:(lia)). lia.
Qed.

Lemma enforce_merged : enforce_integer_columns m0 int_columns = Ok m1.
Proof.
  destruct (summary_layout_facts _ _ _ _ Lay) as (_ & _ & _ & _ & (NDm & Im & Im') & _).
  fold mc in NDm, Im, Im'.
  rewrite enforce_integer_columns_finite.
  - unfold m0, m1. cbn [columns rows]. f_equal. f_equal.
    etransitivity; [exact (map_combine_snd (coerce_cells mc int_columns) _ _)|].
    f_equal.
    apply map_ext_in. intros cs I. apply coerce_cells_all; [|exact Im].
    rewrite mc_length. apply (cells_facts cs I).
  - unfold rectangular, m0. cbn [columns rows]. apply Forall_forall.
    intros [i cs] I. apply in_combine_r in I. cbn [snd].
    rewrite mc_length. apply (cells_facts cs I).
  - exact NDm.
  - exact Im'.
  - intros [i cs] j x I Ex _. unfold m0 in I, Ex. cbn [columns rows] in I, Ex.
    apply in_combine_r in I. destruct (cells_facts cs I) as (L & F & _).
    unfold cell_at. cbn [snd]. rewrite Forall_forall in F. apply F, nth_In.
    rewrite L, <- mc_length. apply nth_error_Some. congruence.
Qed.

Lemma keys_merged : column_values jl m1 = map Int ym.
Proof.
  destruct (summary_layout_facts _ _ _ _ Lay) as ((_ & _ & Hl & _) & _).
  unfold column_values, m1. cbn [rows].
  assert (G : forall rs : list row,
             map (cell_at jl) rs = map (fun cs => nth jl cs NA) (map snd rs))
    by (intros rs; rewrite map_map; reflexivity).
  rewrite G, map_snd_combine by (rewrite length_seq, length_map; reflexivity).
  rewrite map_map.
  rewrite (map_ext_in _ (fun cs => intify (nth jl cs NA))).
  - rewrite <- (map_map (fun cs => nth jl cs NA) intify), cells_years, map_map.
    reflexivity.
  - intros cs I. apply nth_map_intify. destruct (cells_facts cs I) as (L & _). lia.
Qed.

Let p : list nat := nargsort (map Int ym) true.
Let merged : DataFrame := reset_index (take p m1).
Let ys : list Z := map (fun i => nth i ym 0%Z) p.

Lemma summary_built : build_yearly_summary a c = Ok merged.
Proof.
  destruct (summary_layout_facts _ _ _ _ Lay) as (_ & _ & _ & _ & _ & Jm & _).
  unfold build_yearly_summary. rewrite merge_by_year. cbn [bind].
  fold m0. rewrite enforce_merged. cbn [bind].
  unfold sort_values. change (columns m1) with mc. unfold mc. rewrite Jm.
  rewrite keys_merged, homogeneous_ints. reflexivity.
Qed.

Lemma p_perm : Permutation p (seq 0 (length ym)).
Proof.
  unfold p. rewrite <- (length_map Int ym).
  apply (nargsort_perm sorts). apply homogeneous_ints.
Qed.

Lemma p_bound (i : nat) : In i p -> i < length ym.
Proof.
  intros I. apply (Permutation_in _ p_perm) in I. apply in_seq in I. lia.
Qed.

Lemma nth_key (i : nat) : i < length ym -> nth i (map Int ym) NA = Int (nth i ym 0%Z).
Proof.
  intros H. rewrite (nth_indep _ NA (Int 0)) by (rewrite length_map; exact H).
  apply map_nth.
Qed.

Lemma merged_years : column_values jl merged = map Int ys.
Proof.
  unfold merged. rewrite column_values_reset_index, column_values_take, keys_merged.
  unfold ys. rewrite map_map. apply map_ext_in. intros i I.
  apply nth_key, p_bound, I.
Qed.

Lemma ys_perm : Permutation ys ym.
Proof.
  unfold ys. eapply perm_trans; [apply Permutation_map, p_perm|].
  rewrite map_nth_seq. apply Permutation_refl.
Qed.

Lemma ys_sorted : StronglySorted Z.lt ys.
Proof.
  apply StronglySorted_le_lt.
  - unfold ys.
    eapply StronglySorted_map_in;
      [|apply (nargsort_sorted sorts (map Int ym) (homogeneous_ints ym) true)].
    fold p. intros i i' I I' H. cbv beta in H.
    rewrite !nth_key in H by (apply p_bound; assumption).
    unfold ordered in H. cbn [isna notna negb orb andb] in H.
    rewrite key_leb_Int in H. apply Z.leb_le, H.
  - apply (Permutation_NoDup (Permutation_sym ys_perm)), ym_NoDup.
Qed.

Lemma merged_index : map fst (rows merged) = seq 0 (length ys).
Proof.
  unfold merged. rewrite (proj1 (rows_reset_index _)). unfold take. cbn [rows].
  unfold ys. rewrite !length_map. reflexivity.
Qed.

Lemma cells_length : length cells = length ym.
Proof.
  rewrite <- (length_map (fun cs => nth jl cs NA) cells), cells_years.
  apply length_map.
Qed.

Lemma merged_row (r : row) :
  In r (rows merged) -> exists cs, In cs cells /\ snd r = map intify cs.
Proof.
  intros I. apply (in_map snd) in I. unfold merged in I.
  rewrite (proj2 (rows_reset_index _)), rows_take in I.
  apply in_map_iff in I as (i & E & I).
  unfold m1 in E. cbn [rows] in E.
  rewrite map_snd_combine in E by (rewrite length_seq, length_map; reflexivity).
  assert (B : i < length (map (map intify) cells)).
  { rewrite length_map, cells_length. apply p_bound, I. }
  pose proof (nth_In _ [] B) as J. rewrite E in J.
  apply in_map_iff in J as (cs & <- & J). exists cs. split; [exact J | reflexivity].
Qed.

Lemma summary_holds :
  build_yearly_summary a c = Ok merged /\
  NoDup (columns merged) /\
  (forall name, In name (columns merged) <-> In name int_columns) /\
  map (value_of merged (py "year")) (rows merged) = map Int ys /\
  StronglySorted Z.lt ys /\
  (forall y, In y ys <-> In y ysa \/ In y ysc) /\
  map fst (rows merged) = seq 0 (length ys) /\
  forall r y, In r (rows merged) -> value_of merged (py "year") r = Int y ->
    (~ In y ysa ->
     value_of merged (py "installations_adhesion") r = Int 0 /\
     value_of merged (py "companies_adhesion") r = Int 0) /\
    (~ In y ysc ->
     value_of merged (py "installations_certification") r = Int 0 /\
     value_of merged (py "companies_certification") r = Int 0).
Proof.
  destruct (summary_layout_facts _ _ _ _ Lay)
    as ((_ & _ & Hl & _) & _ & _ & _ & (NDm & Im & Im') & Jm & Adh & Cer).
  fold mc in NDm, Im, Im', Jm, Adh, Cer.
  split; [exact summary_built|].
  split; [exact NDm|].
  split; [intros name; split; [apply Im | apply Im']|].
  split.
  { unfold value_of. change (columns merged) with mc. rewrite Jm.
    exact merged_years. }
  split; [exact ys_sorted|].
  split.
  { intros y. rewrite <- ym_In. split; apply Permutation_in;
      [exact ys_perm | exact (Permutation_sym ys_perm)]. }
  split; [exact merged_index|].
  intros r y I. unfold value_of. change (columns merged) with mc. rewrite Jm.
  destruct (merged_row r I) as (cs & Ic & E).
  destruct (cells_facts cs Ic) as (L & _ & y0 & Y0 & Zc & Za).
  unfold cell_at. rewrite E, nth_map_intify, Y0, intify_Int by lia.
  intros Ey. injection Ey as <-.
  assert (zero : forall j, j < 5 -> nth j cs NA = NA -> nth j (map intify cs) NA = Int 0).
  { intros j Hj N. rewrite nth_map_intify, N by lia. reflexivity. }
  split; intros N.
  - destruct (Adh (py "installations_adhesion") (or_introl eq_refl)) as (j1 & -> & B1 & N1).
    destruct (Adh (py "companies_adhesion") (or_intror (or_introl eq_refl)))
      as (j2 & -> & B2 & N2).
    split; apply zero; try lia; apply (Za N); assumption.
  - destruct (Cer (py "installations_certification") (or_introl eq_refl)) as (j1 & J1 & B1).
    destruct (Cer (py "companies_certification") (or_intror (or_introl eq_refl)))
      as (j2 & J2 & B2).
    pose proof (lookup_column_one _ _ _ J1) as E1.
    pose proof (lookup_column_one _ _ _ J2) as E2.
    assert (j1 < 5 /\ j2 < 5) as [C1 C2].
    { rewrite <- mc_length. split; apply nth_error_Some; congruence. }
    rewrite J1, J2. split; apply zero; try assumption; apply (Zc N); assumption.
Qed.
(** *** The measurements the summary carries *)

Hypothesis Pos : summary_positions (columns a) (columns c) jr = true.

Lemma cells_sources (cs : list cell) :
  In cs cells ->
  exists y, nth jl cs NA = Int y /\
    (In y ysa ->
     exists l, In l (rows a) /\ cell_at jl l = Int y /\ firstn 3 cs = snd l) /\
    (In y ysc ->
     exists r, In r (rows c) /\ cell_at jr r = Int y /\
               skipn 3 cs = remove_nth jr (snd r)).
Proof.
  destruct (summary_layout_facts _ _ _ _ Lay) as ((La & Lc & Hl & Hr) & _).
  assert (front : forall (x z : list cell), length x = 3 -> firstn 3 (x ++ z) = x).
  { intros x z Lx. rewrite <- Lx, firstn_app, firstn_all, Nat.sub_diag.
    cbn [firstn]. apply app_nil_r. }
  assert (back : forall (x z : list cell), length x = 3 -> skipn 3 (x ++ z) = z).
  { intros x z Lx. rewrite <- Lx, skipn_app, skipn_all, Nat.sub_diag. reflexivity. }
  unfold cells. intros I. apply in_app_or in I as [I|I].
  - apply in_flat_map in I as (l & Il & I).
    destruct (left_row l Il) as (Ll & Yl & Ia & Fl).
    destruct (block_cases l Il) as [[N E]|(r & Ir & Er & E)];
      rewrite E in I; destruct I as [<-|[]];
      exists (year_a l); (split; [rewrite app_nth1 by lia; exact Yl|]).
    + split; [|intros C; contradiction].
      intros _. exists l. split; [exact Il|]. split; [exact Yl | apply front, Ll].
    + destruct (right_row r Ir) as (Lr & Yr & Ic & Fr). split.
      * intros _. exists l. split; [exact Il|]. split; [exact Yl | apply front, Ll].
      * intros _. exists r. split; [exact Ir|]. split; [|apply back, Ll].
        rewrite Yr, Er. reflexivity.
  - unfold right_only in I. apply in_map_iff in I as (r & <- & I).
    apply filter_In in I as [Ir U].
    destruct (right_row r Ir) as (Lr & Yr & Ic & Fr). rewrite La.
    assert (Ls : length (set_nth jl (cell_at jr r) (repeat NA 3)) = 3)
      by (rewrite set_nth_length; reflexivity).
    exists (year_c r). split.
    { rewrite app_nth1 by lia. rewrite nth_set_nth. cbn [repeat length].
      rewrite Nat.eqb_refl, (proj2 (Nat.ltb_lt jl 3) Hl). exact Yr. }
    split.
    + intros C. exfalso. rewrite (unmatched_fresh r Ir) in U.
      apply existsb_Zeqb in C. rewrite C in U. discriminate.
    + intros _. exists r. split; [exact Ir|]. split; [exact Yr | apply back, Ls].
Qed.

Lemma nth_front (j n : nat) (l : list cell) :
  j < n -> nth j (firstn n l) NA = nth j l NA.
Proof.
  revert j l. induction n as [|n IH]; intros j l B; [lia|].
  destruct l as [|x l]; [destruct j; reflexivity|].
  destruct j as [|j]; [reflexivity|]. cbn [firstn nth]. apply IH. lia.
Qed.

Lemma nth_back (k n : nat) (l : list cell) :
  nth k (skipn n l) NA = nth (n + k) l NA.
Proof.
  revert l. induction n as [|n IH]; intros l; [reflexivity|].
  destruct l as [|x l]; [destruct k; reflexivity|]. cbn [skipn Nat.add nth]. apply IH.
Qed.

Lemma nth_remove_nth (k j : nat) (l : list cell) :
  nth k (remove_nth j l) NA = nth (if k <? j then k else S k) l NA.
Proof.
  revert k j. induction l as [|x l IH]; intros k j.
  - destruct j, k; cbn [remove_nth nth]; destruct (_ <? _); reflexivity.
  - destruct j as [|j]; [reflexivity|]. destruct k as [|k]; [reflexivity|].
    cbn [remove_nth nth]. rewrite IH.
    change (S k <? S j) with (k <? j). destruct (k <? j); reflexivity.
Qed.

Lemma summary_values (r : row) (y : Z) :
  In r (rows merged) -> value_of merged (py "year") r = Int y ->
  (In y ysa ->
   exists l, In l (rows a) /\ value_of a (py "year") l = Int y /\
     forall name, In name [py "installations"; py "companies"] ->
       value_of merged (name ++ py "_adhesion") r
       = Int (integer_of (value_of a name l))) /\
  (In y ysc ->
   exists l, In l (rows c) /\ value_of c (py "year") l = Int y /\
     forall name, In name [py "installations"; py "companies"] ->
       value_of merged (name ++ py "_certification") r
       = Int (integer_of (value_of c name l))).
Proof.
  destruct (summary_layout_facts _ _ _ _ Lay)
    as ((La & Lc & Hl & Hr) & _ & _ & (Ja & Jc) & _ & Jm & _).
  fold mc in Jm. intros I.
  destruct (merged_row r I) as (cs & Ic & E).
  destruct (cells_facts cs Ic) as (L & _).
  destruct (cells_sources cs Ic) as (y0 & Y0 & Sa & Sc).
  unfold value_of at 1. change (columns merged) with mc. rewrite Jm.
  unfold cell_at. rewrite E, nth_map_intify, Y0, intify_Int by lia.
  intros Ey. injection Ey as <-.
  unfold summary_positions in Pos. fold mc in Pos. rewrite forallb_forall in Pos.
  split; intros Iy.
  - destruct (Sa Iy) as (l & Il & Yl & Fl). exists l. split; [exact Il|].
    split; [unfold value_of; rewrite Ja; exact Yl|].
    intros name Hn. specialize (Pos name Hn). apply andb_prop in Pos as [P _].
    unfold value_of. change (columns merged) with mc.
    destruct (lookup_column name (columns a)) as [|j|] eqn:Lj; try discriminate.
    destruct (lookup_column (name ++ py "_adhesion") mc) as [|j'|]; try discriminate.
    apply Nat.eqb_eq in P. subst j'.
    assert (Bj : j < length (columns a))
      by (apply nth_error_Some; rewrite (lookup_column_one _ _ _ Lj); discriminate).
    rewrite La in Bj.
    unfold cell_at. rewrite E, nth_map_intify by lia. unfold intify.
    rewrite <- Fl, nth_front by exact Bj. reflexivity.
  - destruct (Sc Iy) as (l & Il & Yl & Fl). exists l. split; [exact Il|].
    split; [unfold value_of; rewrite Jc; exact Yl|].
    intros name Hn. specialize (Pos name Hn). apply andb_prop in Pos as [_ P].
    unfold value_of. change (columns merged) with mc.
    destruct (lookup_column name (columns c)) as [|j|] eqn:Lj; try discriminate.
    destruct (lookup_column (name ++ py "_certification") mc) as [|j'|];
      try discriminate.
    apply andb_prop in P as [Nj P]. apply Nat.eqb_eq in P. subst j'.
    apply negb_true_iff, Nat.eqb_neq in Nj.
    assert (Bj : j < length (columns c))
      by (apply nth_error_Some; rewrite (lookup_column_one _ _ _ Lj); discriminate).
    rewrite Lc in Bj.
    unfold cell_at.
    rewrite E, nth_map_intify
      by (destruct (j <? jr) eqn:Q;
          [apply Nat.ltb_lt in Q | apply Nat.ltb_ge in Q]; lia).
    unfold intify.
    rewrite <- nth_back, Fl, nth_remove_nth. do 2 f_equal.
    destruct (j <? jr) eqn:Q.
    + rewrite Q. reflexivity.
    + apply Nat.ltb_ge in Q.
      rewrite (proj2 (Nat.ltb_ge (j - 1) jr)) by lia. f_equal. lia.
Qed.
End YearlySummary.


Lemma sample_by_year_shape :
  (rectangular sample_adhesion /\ rectangular sample_certification) /\
  (Permutation (columns sample_adhesion) by_year_columns /\
   Permutation (columns sample_certification) by_year_columns) /\
  (years_of sample_adhesion [2010; 2015]%Z /\
   years_of sample_certification [2010; 2012]%Z) /\
  (NoDup [2010; 2015]%Z /\ NoDup [2010; 2012]%Z) /\
  finite_under [py "installations"; py "companies"] sample_adhesion /\
  finite_under [py "installations"; py "companies"] sample_certification.
Proof.
  split; [split; repeat constructor|].
  split; [split; [apply Permutation_refl | apply perm_swap]|].
  split; [split; [exists 0 | exists 1]; split; reflexivity|].
  split.
  { split; repeat constructor; intros H; repeat destruct H as [H|H];
      try discriminate H; exact H. }
  split; intros r j x Hr Hj Hx;
    repeat destruct Hr as [<-|Hr]; try contradiction;
    (destruct j as [|[|[|j]]]; [reflexivity..|]; destruct j; discriminate).
Defined.


(** The fourth scenario of the specification, computed: 2015 has no
    certification row. *)
Example yearly_summary_sample :
  @build_yearly_summary keep_host sample_adhesion sample_certification
  = Ok {| columns := [ py "year"; py "installations_adhesion"; py "companies_adhesion";
                       py "installations_certification"; py "companies_certification" ];
          rows := [ (0, [Int 2010; Int 5; Int 3; Int 7; Int 2]);
                    (1, [Int 2012; Int 0; Int 0; Int 1; Int 1]);
                    (2, [Int 2015; Int 10; Int 4; Int 0; Int 0]) ] |}.
Proof. vm_compute. reflexivity. Qed.


(** * Further properties of the code *)

(** ** The shape of a normalized name *)

Lemma lstrip_by_fixed_head (p : N -> bool) (c : N) (r : pystr) :
  lstrip_by p (c :: r) = c :: r -> p c = false.
Proof.
  cbn [lstrip_by]. destruct (p c); [|reflexivity]. intros H.
  destruct (lstrip_by_split p r) as [pre E].
  apply (f_equal (@length N)) in H, E. rewrite length_app in E.
  cbn [length] in H. lia.
Qed.

Lemma strip_by_ends (p : N -> bool) (s : pystr) :
  lstrip_by p (strip_by p s) = strip_by p s /\
  lstrip_by p (rev (strip_by p s)) = rev (strip_by p s).
Proof.
  split.
  - pose proof (strip_by_idem p s) as I. unfold strip_by at 1 in I.
    destruct (rstrip_by_split p (lstrip_by p (strip_by p s))) as [suf E].
    destruct (lstrip_by_split p (strip_by p s)) as [pre E'].
    rewrite I in E. rewrite E in E'.
    apply (f_equal (@length N)) in E'. rewrite !length_app in E'.
    destruct pre; [|cbn [length] in E'; lia].
    destruct suf; [|cbn [length] in E'; lia].
    rewrite ?app_nil_r in E. congruence.
  - unfold strip_by, rstrip_by. rewrite rev_involutive. apply lstrip_by_idem.
Qed.

Lemma settled_plain (c : N) :
  settled c ->
  c <> 32%N /\ c <> 45%N /\ ~ (65 <= c <= 90)%N /\
  ~ In c [225; 233; 237; 243; 250; 241]%N.
Proof.
  unfold settled, lower_cp, to_underscore, fold_accent. intros (L & U & F).
  repeat split.
  - intros ->. discriminate U.
  - intros ->. discriminate U.
  - intros [H1 H2]. apply N.leb_le in H1, H2. rewrite H1, H2 in L. cbn [andb] in L. lia.
  - intros I. repeat destruct I as [<-|I]; try discriminate F. exact I.
Qed.

(** X1: whatever the header, the normalized name holds no space, no
    hyphen, no capital letter from A to Z, none of the six accented
    letters the normalizer folds and no two underscores in a row, and it
    neither begins nor ends with an underscore. *)
Theorem to_snake_shape (s : pystr) :
  Forall (fun c => c <> 32%N /\ c <> 45%N /\ ~ (65 <= c <= 90)%N /\
                   ~ In c [225; 233; 237; 243; 250; 241]%N) (to_snake s) /\
  contains us2 (to_snake s) = false /\
  (forall r, to_snake s <> 95%N :: r) /\
  (forall r, to_snake s <> r ++ [95%N]).
Proof.
  rewrite to_snake_to_spec. split; [|split; [|split]].
  - eapply Forall_impl; [|apply normalize_spec_settled]. exact settled_plain.
  - unfold normalize_spec, strip_chars. apply strip_by_no_pair, collapse_runs_no_pair.
  - intros r E. unfold normalize_spec, strip_chars in E.
    pose proof (proj1 (strip_by_ends (fun c => existsb (N.eqb c) us)
                         (collapse_runs (map fold_accent (map to_underscore
                                                            (lower (strip s))))))) as H.
    rewrite E in H. apply lstrip_by_fixed_head in H. discriminate H.
  - intros r E. unfold normalize_spec, strip_chars in E.
    pose proof (proj2 (strip_by_ends (fun c => existsb (N.eqb c) us)
                         (collapse_runs (map fold_accent (map to_underscore
                                                            (lower (strip s))))))) as H.
    rewrite E, rev_app_distr in H. cbn [rev app] in H.
    apply lstrip_by_fixed_head in H. discriminate H.
Qed.



(** ** The name standardizer on a table *)

Lemma dict_get_self (f : pystr -> pystr) (cols : list pystr) (c : pystr) :
  In c cols -> dict_get (map (fun x => (x, f x)) cols) c = Some (f c).
Proof.
  induction cols as [|d cols IH]; intros I; [contradiction|].
  cbn [map dict_get]. destruct (pystr_eqb c d) eqn:E.
  - apply pystr_eqb_eq in E. subst. reflexivity.
  - destruct I as [->|I]; [rewrite pystr_eqb_refl in E; discriminate | apply IH, I].
Qed.

(** X3: the name standardizer relabels every column with the normalized
    form of its own label, in place, and leaves the rows as they are; two
    distinct headers can end up under one label. *)
Theorem standardize_column_names_labels (df : DataFrame) :
  columns (standardize_column_names df) = map to_snake (columns df) /\
  rows (standardize_column_names df) = rows df /\
  exists headers, NoDup headers /\ ~ NoDup (map to_snake headers).
Proof.
  split; [|split; [reflexivity|]].
  - unfold standardize_column_names, rename. cbn [columns].
    apply map_ext_in. intros c I. rewrite (dict_get_self to_snake _ _ I). reflexivity.
  - exists [py "Año"; py "ano"]. split.
    + repeat constructor; intros H; repeat destruct H as [H|H];
        try discriminate H; exact H.
    + intros ND. vm_compute in ND. inversion ND as [|? ? H _]. apply H. left. reflexivity.
Qed.

(** ** The non-null filter *)

Lemma find_absent_none (subset cols : list pystr) :
  incl subset cols ->
  find (fun c => match positions c cols 0 with [] => true | _ => false end) subset = None.
Proof.
  induction subset as [|c cs IH]; intros I; [reflexivity|].
  cbn [find].
  destruct (positions c cols 0) as [|j l] eqn:E.
  - exfalso. assert (Ic : In c cols) by (apply I; left; reflexivity).
    destruct (In_nth_error _ _ Ic) as [j Hj].
    assert (J : In j (positions c cols 0)).
    { apply positions_In. split; [lia|]. rewrite Nat.sub_0_r. exact Hj. }
    rewrite E in J. contradiction.
  - apply IH. intros x Hx. apply I. right. exact Hx.
Qed.

Lemma find_absent_first (pre post cols : list pystr) (c : pystr) :
  incl pre cols -> ~ In c cols ->
  find (fun c => match positions c cols 0 with [] => true | _ => false end)
    (pre ++ c :: post) = Some c.
Proof.
  induction pre as [|x pre IH]; intros I N; cbn [app find].
  - rewrite (positions_absent _ _ _ N). reflexivity.
  - destruct (positions x cols 0) as [|j l] eqn:E.
    + exfalso. assert (Ix : In x cols) by (apply I; left; reflexivity).
      destruct (In_nth_error _ _ Ix) as [j Hj].
      assert (J : In j (positions x cols 0)).
      { apply positions_In. split; [lia|]. rewrite Nat.sub_0_r. exact Hj. }
      rewrite E in J. contradiction.
    + apply IH; [|exact N]. intros y Hy. apply I. right. exact Hy.
Qed.



(** ** The row filters applied twice *)

Lemma loc_mask_twice (f : row -> bool) (df : DataFrame) :
  loc (loc df (map f (rows df))) (map f (rows (loc df (map f (rows df)))))
  = loc df (map f (rows df)).
Proof.
  unfold loc. cbn [columns rows]. f_equal.
  rewrite !select_filter. induction (rows df) as [|r rs IH]; [reflexivity|].
  cbn [filter]. destruct (f r) eqn:E; [|exact IH].
  cbn [filter]. rewrite E, IH. reflexivity.
Qed.

(** X5: each of the three row filters, given its own output, returns it
    unchanged. *)
Theorem row_filters_idempotent {host : Host} (df df' : DataFrame) (column : pystr)
    (allowed_values columns_ : list pystr) :
  (make_numeric_row_filter column df = Ok df' ->
   make_numeric_row_filter column df' = Ok df') /\
  (make_value_filter column allowed_values df = Ok df' ->
   make_value_filter column allowed_values df' = Ok df') /\
  (make_non_null_filter columns_ df = Ok df' ->
   make_non_null_filter columns_ df' = Ok df').
Proof.
  split; [|split].
  - unfold make_numeric_row_filter, filter_rows_with_numeric_column.
    destruct (lookup_column column (columns df)) as [|j|] eqn:L; try discriminate.
    intros H. injection H as <-. unfold loc at 1 3. cbn [columns]. rewrite L.
    f_equal. unfold column_values. rewrite !map_map.
    apply (loc_mask_twice (fun r => notna (to_numeric (cell_at j r)))).
  - unfold make_value_filter.
    destruct (lookup_column column (columns df)) as [|j|] eqn:L; try discriminate.
    intros H. injection H as <-. unfold loc at 1 3. cbn [columns]. rewrite L.
    f_equal. unfold column_values. rewrite !map_map.
    apply (loc_mask_twice
             (fun r => existsb (pystr_eqb (lower (astype_str (cell_at j r))))
                         (map lower allowed_values))).
  - unfold make_non_null_filter, dropna_subset.
    destruct (find _ columns_) eqn:F; [discriminate|].
    intros H. injection H as <-. cbn [columns rows]. rewrite F. f_equal. f_equal.
    induction (rows df) as [|r rs IH]; [reflexivity|].
    cbn [filter].
    destruct (forallb (fun j => notna (cell_at j r))
                (flat_map (fun c => positions c (columns df) 0) columns_)) eqn:E;
      [|exact IH].
    cbn [filter]. rewrite E, IH. reflexivity.
Qed.

Lemma row_filters_idempotent_witness :
  make_numeric_row_filter (py "year")
    {| columns := columns sample_years;
       rows := filter (fun r => parses_as_number (cell_at 0 r)) (rows sample_years) |}
  = Ok {| columns := columns sample_years;
          rows := filter (fun r => parses_as_number (cell_at 0 r)) (rows sample_years) |}.
Proof.
  exact (proj1 (@row_filters_idempotent keep_host sample_years _ (py "year") [] [])
           eq_refl).
Defined.

(** ** Chains of steps *)

(** X6: a chain runs its steps in order and stops at the first one that
    raises: when a prefix of the chain succeeds, the chain continues from
    its output; when the prefix raises, or the step right after it does,
    the chain raises that error and the later steps play no part. *)
Theorem run_transformations_sequence {host : Host}
    (pre post : list step) (df : DataFrame) :
  (forall d, run_transformations pre df = Ok d ->
             run_transformations (pre ++ post) df = run_transformations post d) /\
  (forall e, run_transformations pre df = Raise e ->
             run_transformations (pre ++ post) df = Raise e) /\
  (forall d s e, run_transformations pre df = Ok d -> transformation s d = Raise e ->
                 run_transformations (pre ++ s :: post) df = Raise e).
Proof.
  assert (G : forall pre post df,
             run_transformations (pre ++ post) df
             = bind (run_transformations pre df) (run_transformations post)).
  { clear. intros pre post. induction pre as [|s pre IH]; intros df; [reflexivity|].
    cbn [app run_transformations]. destruct (transformation s df) as [d|e];
      cbn [bind]; [apply IH | reflexivity]. }
  split; [|split].
  - intros d H. rewrite G, H. reflexivity.
  - intros e H. rewrite G, H. reflexivity.
  - intros d s e H T. rewrite G, H. cbn [bind run_transformations]. rewrite T.
    reflexivity.
Qed.

Lemma run_transformations_sequence_witness :
  @run_transformations keep_host
    ([DropEmptyRows; NumericRowFilter (py "year")]
       ++ Sorter (py "sector") true :: [IntegerColumn (py "year")])
    sample_years
  = Raise (KeyError (py "sector")).
Proof.
  refine (proj2 (proj2 (@run_transformations_sequence keep_host
                          [DropEmptyRows; NumericRowFilter (py "year")]
                          [IntegerColumn (py "year")] sample_years))
            _ (Sorter (py "sector") true) (KeyError (py "sector")) _ _);
    vm_compute; reflexivity.
Defined.

Lemma assign_integer_column_columns (df df' : DataFrame) (column : pystr) :
  assign_integer_column df column = Ok df' -> columns df' = columns df.
Proof.
  unfold assign_integer_column. destruct (lookup_column column (columns df)); try discriminate.
  destruct (to_integer_series (column_values j df)); [|discriminate].
  cbn [bind]. intros H. injection H as <-. reflexivity.
Qed.

Lemma enforce_integer_columns_columns (columns_ : list pystr) (df df' : DataFrame) :
  enforce_integer_columns df columns_ = Ok df' -> columns df' = columns df.
Proof.
  revert df. induction columns_ as [|c cs IH]; intros df H.
  - injection H as <-. reflexivity.
  - cbn [enforce_integer_columns] in H.
    destruct (assign_integer_column df c) as [d|] eqn:E; [|discriminate].
    cbn [bind] in H. rewrite (IH _ H). apply (assign_integer_column_columns _ _ _ E).
Qed.

Lemma transformation_counts {host : Host} (s : step) (df df' : DataFrame) :
  argsort_sorts argsort ->
  transformation s df = Ok df' ->
  length (rows df') <= length (rows df) /\
  length (columns df') <= length (columns df).
Proof.
  intros sorts H. destruct s; cbn [transformation] in H.
  - injection H as <-. unfold drop_completely_empty_columns, dropna_columns.
    cbn [rows columns]. rewrite length_map. split; [apply le_n | apply select_length].
  - injection H as <-. unfold drop_completely_empty_rows, dropna_rows.
    cbn [rows columns]. split; [apply filter_length_le | apply le_n].
  - injection H as <-. unfold standardize_column_names, rename. cbn [rows columns].
    rewrite length_map. split; apply le_n.
  - injection H as <-. unfold make_column_renamer, rename. cbn [rows columns].
    rewrite length_map. split; apply le_n.
  - unfold make_numeric_row_filter, filter_rows_with_numeric_column in H.
    destruct (lookup_column column (columns df)); try discriminate.
    injection H as <-. split; [apply select_length | apply le_n].
  - rewrite (assign_integer_column_rows _ _ _ H), (assign_integer_column_columns _ _ _ H).
    split; apply le_n.
  - rewrite (enforce_integer_columns_rows _ _ _ H), (enforce_integer_columns_columns _ _ _ H).
    split; apply le_n.
  - rewrite (sort_by_column_rows _ _ _ _ sorts H). split; [apply le_n|].
    unfold make_sorter, sort_by_column, sort_values in H.
    destruct (lookup_column column (columns df)); try discriminate.
    destruct (homogeneous _); [|discriminate].
    cbn [bind] in H. injection H as <-. apply le_n.
  - unfold make_non_null_filter, dropna_subset in H.
    destruct (find _ columns_); [discriminate|].
    injection H as <-. split; [apply filter_length_le | apply le_n].
  - unfold make_value_filter in H.
    destruct (lookup_column column (columns df)); try discriminate.
    injection H as <-. split; [apply select_length | apply le_n].
Qed.

(** X7: whatever its steps, a chain that succeeds returns a table with at
    most as many rows and at most as many columns as it was given. *)
Theorem run_transformations_never_grows {host : Host}
    (transformations : list step) (df df' : DataFrame) :
  argsort_sorts argsort ->
  run_transformations transformations df = Ok df' ->
  length (rows df') <= length (rows df) /\
  length (columns df') <= length (columns df).
Proof.
  intros sorts. revert df. induction transformations as [|s ss IH]; intros df H.
  - injection H as <-. split; apply le_n.
  - cbn [run_transformations] in H.
    destruct (transformation s df) as [d|] eqn:E; [|discriminate].
    cbn [bind] in H. destruct (IH _ H) as [R C].
    destruct (transformation_counts s df d sorts E) as [R' C']. lia.
Qed.

Lemma run_transformations_never_grows_witness :
  let df' := {| columns := [py "year"; py "installations"; py "companies"];
                rows := [ (0, [Int 2009; Int 3; Int (-3)]); (1, [Int 2010; Int 0; Int 2]);
                          (2, [Int 2011; Int 7; Int 0]) ] |} in
  length (rows df') <= length (rows sample_years) /\
  length (columns df') <= length (columns sample_years).
Proof.
  refine (@run_transformations_never_grows keep_host (skipn 4 adhesion_by_year)
            sample_years _ argsort_keep_sorts _).
  vm_compute. reflexivity.
Defined.

(** ** Rectangular tables stay rectangular *)

Lemma select_same_length {A B : Type} (mask : list bool) (l : list A) (l' : list B) :
  length l = length l' -> length (select mask l) = length (select mask l').
Proof.
  revert l l'. induction mask as [|b mask IH]; intros [|x l] [|y l'] L;
    try discriminate; try reflexivity.
  cbn [select]. cbn [length] in L.
  destruct b; cbn [length]; rewrite (IH l l') by lia; reflexivity.
Qed.

Lemma select_In {A : Type} (mask : list bool) (l : list A) (x : A) :
  In x (select mask l) -> In x l.
Proof.
  revert l. induction mask as [|b mask IH]; intros [|y l] I; try contradiction.
  cbn [select] in I. destruct b.
  - destruct I as [->|I]; [left; reflexivity | right; apply IH, I].
  - right. apply IH, I.
Qed.

Lemma rectangular_sub (cols : list pystr) (rs rs' : list row) :
  (forall r, In r rs' -> In r rs) ->
  rectangular {| columns := cols; rows := rs |} ->
  rectangular {| columns := cols; rows := rs' |}.
Proof.
  unfold rectangular. cbn [columns rows]. rewrite !Forall_forall.
  intros S W r I. apply W, S, I.
Qed.

Lemma assign_integer_column_rectangular (df df' : DataFrame) (column : pystr) :
  assign_integer_column df column = Ok df' -> rectangular df -> rectangular df'.
Proof.
  unfold assign_integer_column. destruct (lookup_column column (columns df)); try discriminate.
  destruct (to_integer_series (column_values j df)) as [vs|]; [|discriminate].
  cbn [bind]. intros H W. injection H as <-. unfold rectangular, set_column in *.
  cbn [columns rows]. rewrite Forall_forall in *. intros r I.
  apply in_map_iff in I as ([r0 v] & <- & I). cbn [fst snd].
  rewrite set_nth_length. apply W. apply in_combine_l in I. exact I.
Qed.

Lemma enforce_integer_columns_rectangular (columns_ : list pystr) (df df' : DataFrame) :
  enforce_integer_columns df columns_ = Ok df' -> rectangular df -> rectangular df'.
Proof.
  revert df. induction columns_ as [|c cs IH]; intros df H W.
  - injection H as <-. exact W.
  - cbn [enforce_integer_columns] in H.
    destruct (assign_integer_column df c) as [d|] eqn:E; [|discriminate].
    cbn [bind] in H. apply (IH _ H). apply (assign_integer_column_rectangular _ _ _ E W).
Qed.

Lemma transformation_rectangular {host : Host} (s : step) (df df' : DataFrame) :
  argsort_sorts argsort ->
  transformation s df = Ok df' -> rectangular df -> rectangular df'.
Proof.
  intros sorts H W. destruct s; cbn [transformation] in H.
  - injection H as <-. unfold drop_completely_empty_columns, dropna_columns, rectangular in *.
    cbn [columns rows]. rewrite Forall_map. eapply Forall_impl; [|exact W].
    intros r L. cbn [snd]. apply select_same_length, L.
  - injection H as <-. destruct df as [cols rs].
    apply (rectangular_sub cols rs); [|exact W].
    cbn [rows]. intros r I. apply filter_In in I. apply I.
  - injection H as <-. unfold rectangular, standardize_column_names, rename in *.
    cbn [columns rows]. rewrite length_map. exact W.
  - injection H as <-. unfold rectangular, make_column_renamer, rename in *.
    cbn [columns rows]. rewrite length_map. exact W.
  - unfold make_numeric_row_filter, filter_rows_with_numeric_column in H.
    destruct (lookup_column column (columns df)); try discriminate.
    injection H as <-. destruct df as [cols rs].
    apply (rectangular_sub cols rs); [|exact W]. cbn [rows]. apply select_In.
  - apply (assign_integer_column_rectangular _ _ _ H W).
  - apply (enforce_integer_columns_rectangular _ _ _ H W).
  - unfold make_sorter, sort_by_column, sort_values in H.
    destruct (lookup_column column (columns df)); try discriminate.
    destruct (homogeneous (filter notna (column_values j df))) eqn:C; [|discriminate].
    cbn [bind] in H. injection H as <-.
    pose proof (nargsort_perm sorts _ C ascending) as P.
    unfold rectangular, reset_index, take in *. cbn [columns rows].
    rewrite Forall_forall in *. intros [i cells] I. apply in_combine_r in I.
    rewrite map_map in I. apply in_map_iff in I as (a & <- & I). cbn [snd].
    apply W, nth_In. apply (Permutation_in _ P) in I. apply in_seq in I.
    unfold column_values in I. rewrite length_map in I. lia.
  - unfold make_non_null_filter, dropna_subset in H.
    destruct (find _ columns_); [discriminate|].
    injection H as <-. destruct df as [cols rs].
    apply (rectangular_sub cols rs); [|exact W].
    cbn [rows]. intros r I. apply filter_In in I. apply I.
  - unfold make_value_filter in H.
    destruct (lookup_column column (columns df)); try discriminate.
    injection H as <-. destruct df as [cols rs].
    apply (rectangular_sub cols rs); [|exact W]. cbn [rows]. apply select_In.
Qed.

(** X8: every step, and so every chain, turns a table in which each row
    has one cell per column into a table of that kind. *)
Theorem run_transformations_rectangular {host : Host}
    (transformations : list step) (df df' : DataFrame) :
  argsort_sorts argsort ->
  rectangular df ->
  run_transformations transformations df = Ok df' ->
  rectangular df'.
Proof.
  intros sorts. revert df. induction transformations as [|s ss IH]; intros df W H.
  - injection H as <-. exact W.
  - cbn [run_transformations] in H.
    destruct (transformation s df) as [d|] eqn:E; [|discriminate].
    cbn [bind] in H. apply (IH d); [|exact H].
    apply (transformation_rectangular s df d sorts E W).
Qed.

Lemma run_transformations_rectangular_witness :
  rectangular
    {| columns := [py "year"; py "installations"; py "companies"];
       rows := [ (0, [Int 2009; Int 3; Int (-3)]); (1, [Int 2010; Int 0; Int 2]);
                 (2, [Int 2011; Int 7; Int 0]) ] |}.
Proof.
  refine (@run_transformations_rectangular keep_host (skipn 4 adhesion_by_year)
            sample_years _ argsort_keep_sorts (proj1 sample_years_shape) _).
  vm_compute. reflexivity.
Defined.

(** ** The integer steps, from their success alone *)

Lemma lookup_column_bound (c : pystr) (cols : list pystr) (j : nat) :
  lookup_column c cols = OneColumn j -> j < length cols.
Proof.
  intros L. apply lookup_column_one in L. apply nth_error_Some. congruence.
Qed.

Lemma astype_int_integral (series vs : list cell) :
  astype_int series = Ok vs -> Forall (fun c => integral c = true) vs.
Proof.
  revert vs. induction series as [|c series IH]; intros vs H.
  - injection H as <-. constructor.
  - cbn [astype_int] in H.
    destruct (astype_int_cell c) as [v|] eqn:E; [|discriminate].
    cbn [bind] in H. destruct (astype_int series) as [ws|]; [|discriminate].
    cbn [bind] in H. injection H as <-. constructor; [|apply IH; reflexivity].
    destruct c; try discriminate; injection E as <-; reflexivity.
Qed.

Lemma to_integer_series_integral (series : list cell) :
  Forall (fun c => integral c = true) series -> to_integer_series series = Ok series.
Proof.
  unfold to_integer_series. induction 1 as [|c series I _ IH]; [reflexivity|].
  cbn [map astype_int]. destruct c; try discriminate.
  cbn [to_numeric fillna0 astype_int_cell bind]. rewrite IH. reflexivity.
Qed.

Lemma set_nth_same {A : Type} (j : nat) (l : list A) (d : A) :
  set_nth j (nth j l d) l = l.
Proof.
  revert j. induction l as [|x l IH]; intros j; [destruct j; reflexivity|].
  destruct j; cbn [set_nth nth]; [reflexivity | rewrite IH; reflexivity].
Qed.

Lemma set_column_same (j : nat) (df : DataFrame) :
  set_column j (column_values j df) df = df.
Proof.
  rewrite <- (map_id (column_values j df)). rewrite (set_column_map j (fun c => c) df).
  destruct df as [cols rs]. cbn [columns rows]. f_equal.
  rewrite <- (map_id rs) at 2. apply map_ext. intros [i cells].
  unfold cell_at. cbn [fst snd]. rewrite set_nth_same. reflexivity.
Qed.

(** The cast of a column of whole numbers changes nothing. *)
Lemma assign_integer_column_integral (df : DataFrame) (column : pystr) (j : nat) :
  lookup_column column (columns df) = OneColumn j ->
  Forall (fun c => integral c = true) (column_values j df) ->
  assign_integer_column df column = Ok df.
Proof.
  intros L F. unfold assign_integer_column. rewrite L.
  rewrite (to_integer_series_integral _ F). cbn [bind]. rewrite set_column_same.
  reflexivity.
Qed.

Lemma column_values_set_column (i j : nat) (series : list cell) (df : DataFrame) :
  length series = length (rows df) ->
  (i <> j -> column_values i (set_column j series df) = column_values i df) /\
  (rectangular df -> j < length (columns df) ->
   column_values j (set_column j series df) = series).
Proof.
  intros L. unfold column_values, set_column, rectangular, cell_at. cbn [rows].
  rewrite !map_map. destruct df as [cols rs]. cbn [rows columns fst snd] in *.
  revert series L. induction rs as [|r rs IH]; intros [|v series] L; try discriminate.
  - split; reflexivity.
  - cbn [length] in L. destruct (IH series ltac:(lia)) as [IH1 IH2].
    cbn [combine map fst snd]. rewrite !nth_set_nth. split.
    + intros N. rewrite (proj2 (Nat.eqb_neq i j) N). cbn [andb].
      rewrite (IH1 N). reflexivity.
    + intros W B. apply Forall_cons_iff in W as [Wr W].
      rewrite Nat.eqb_refl, (proj2 (Nat.ltb_lt _ _)) by (rewrite Wr; exact B).
      cbn [andb]. rewrite (IH2 W B). reflexivity.
Qed.

(** What a successful cast of one column leaves. *)
Lemma assign_integer_column_values (df df' : DataFrame) (column : pystr) :
  rectangular df ->
  assign_integer_column df column = Ok df' ->
  exists j, lookup_column column (columns df) = OneColumn j /\
    columns df' = columns df /\
    map fst (rows df') = map fst (rows df) /\
    Forall (fun c => integral c = true) (column_values j df') /\
    forall i, i <> j -> column_values i df' = column_values i df.
Proof.
  intros W H. unfold assign_integer_column in H.
  destruct (lookup_column column (columns df)) as [|j|] eqn:L; try discriminate.
  destruct (to_integer_series (column_values j df)) as [vs|] eqn:E; [|discriminate].
  cbn [bind] in H. injection H as <-. exists j.
  assert (Lv : length vs = length (rows df)).
  { unfold to_integer_series in E. rewrite (astype_int_length _ _ E), !length_map.
    unfold column_values. apply length_map. }
  split; [reflexivity|]. split; [reflexivity|]. split; [|split].
  - unfold set_column. cbn [rows]. rewrite map_map. cbn [fst].
    clear - Lv. revert vs Lv. induction (rows df) as [|r rs IH]; intros [|v vs] Lv;
      try discriminate; [reflexivity|].
    cbn [combine map fst]. rewrite IH; [reflexivity | cbn [length] in Lv; lia].
  - rewrite (proj2 (column_values_set_column j j vs df Lv) W (lookup_column_bound _ _ _ L)).
    apply (astype_int_integral _ _ E).
  - intros i N. apply (proj1 (column_values_set_column i j vs df Lv) N).
Qed.

Lemma enforce_integer_columns_keeps_integral (columns_ : list pystr)
    (df df' : DataFrame) (j : nat) :
  rectangular df ->
  enforce_integer_columns df columns_ = Ok df' ->
  Forall (fun c => integral c = true) (column_values j df) ->
  Forall (fun c => integral c = true) (column_values j df').
Proof.
  revert df. induction columns_ as [|c cs IH]; intros df W H F.
  - injection H as <-. exact F.
  - cbn [enforce_integer_columns] in H.
    destruct (assign_integer_column df c) as [d|] eqn:E; [|discriminate].
    cbn [bind] in H.
    apply (IH d (assign_integer_column_rectangular _ _ _ E W) H).
    destruct (assign_integer_column_values _ _ _ W E) as (j' & _ & _ & _ & I & U).
    destruct (Nat.eq_dec j j') as [->|N]; [exact I | rewrite (U _ N); exact F].
Qed.

(** X9: from its success alone on a rectangular table, the integer
    enforcer leaves whole numbers in every listed column, every other
    column, the labels and the row index as they were, and a table on
    which running it again changes nothing. *)
Theorem integer_enforcer_output (columns_ : list pystr) (df df' : DataFrame) :
  rectangular df ->
  make_integer_enforcer columns_ df = Ok df' ->
  (forall c, In c columns_ ->
     exists j, lookup_column c (columns df) = OneColumn j /\
               Forall (fun x => integral x = true) (column_values j df')) /\
  (forall j c, nth_error (columns df) j = Some c -> ~ In c columns_ ->
     column_values j df' = column_values j df) /\
  columns df' = columns df /\
  map fst (rows df') = map fst (rows df) /\
  make_integer_enforcer columns_ df' = Ok df'.
Proof.
  unfold make_integer_enforcer. revert df.
  induction columns_ as [|c cs IH]; intros df W H.
  - injection H as <-. repeat split; try reflexivity. intros c [].
  - cbn [enforce_integer_columns] in H.
    destruct (assign_integer_column df c) as [d|] eqn:E; [|discriminate].
    cbn [bind] in H.
    pose proof (assign_integer_column_rectangular _ _ _ E W) as Wd.
    destruct (assign_integer_column_values _ _ _ W E) as (j & L & Cd & Fd & I & U).
    destruct (IH d Wd H) as (A1 & A2 & A3 & A4 & A5).
    split; [|split; [|split; [|split]]].
    + intros x [<-|Ix].
      * exists j. split; [exact L|].
        apply (enforce_integer_columns_keeps_integral cs d df' j Wd H I).
      * destruct (A1 x Ix) as (j' & L' & I'). exists j'. rewrite <- Cd. split; assumption.
    + intros i x Hx N.
      assert (Ni : i <> j).
      { intros ->. apply lookup_column_one in L. apply N. left. congruence. }
      rewrite <- (U i Ni). apply (A2 i x); [rewrite Cd; exact Hx|].
      intros Ix. apply N. right. exact Ix.
    + congruence.
    + congruence.
    + cbn [enforce_integer_columns].
      rewrite (assign_integer_column_integral df' c j); [cbn [bind]; exact A5 | |].
      * rewrite A3, Cd. exact L.
      * apply (enforce_integer_columns_keeps_integral cs d df' j Wd H I).
Qed.

Lemma integer_enforcer_output_witness :
  let columns_ := [py "installations"; py "companies"] in
  let df' := {| columns := columns sample_years;
                rows := [ (0, [Str (py " 2011 "); Int 7; Int 0]);
                          (1, [Str (py "Total"); Int 12; Int 5]);
                          (2, [Float (Qmake 4021 2); Int 0; Int 2]);
                          (3, [NA; Int 0; Int 0]);
                          (4, [Int 2009; Int 3; Int (-3)]) ] |} in
  (forall c, In c columns_ ->
     exists j, lookup_column c (columns sample_years) = OneColumn j /\
               Forall (fun x => integral x = true) (column_values j df')) /\
  (forall j c, nth_error (columns sample_years) j = Some c -> ~ In c columns_ ->
     column_values j df' = column_values j sample_years) /\
  columns df' = columns sample_years /\
  map fst (rows df') = map fst (rows sample_years) /\
  make_integer_enforcer columns_ df' = Ok df'.
Proof.
  refine (integer_enforcer_output [py "installations"; py "companies"] sample_years _
            (proj1 sample_years_shape) _).
  vm_compute. reflexivity.
Defined.

(** ** What the configured chains hand on *)

Lemma Forall_select {A : Type} (P : A -> Prop) (mask : list bool) (l : list A) :
  Forall P l -> Forall P (select mask l).
Proof.
  intros F. apply Forall_forall. intros x I. rewrite Forall_forall in F.
  apply F, (select_In mask l x I).
Qed.

Lemma column_values_loc (i : nat) (df : DataFrame) (mask : list bool) :
  column_values i (loc df mask) = select mask (column_values i df).
Proof.
  unfold column_values, loc. cbn [rows]. revert mask.
  induction (rows df) as [|r rs IH]; intros [|b mask]; try reflexivity.
  cbn [select map]. destruct b; cbn [map]; rewrite IH; reflexivity.
Qed.

Lemma Forall_filter_rows {A : Type} (P : A -> Prop) (f : A -> bool) (l : list A) :
  Forall P l -> Forall P (filter f l).
Proof.
  intros F. apply Forall_forall. intros x I. rewrite Forall_forall in F.
  apply filter_In in I. apply F, I.
Qed.

(** What a successful sort step leaves: the rows rearranged by a
    permutation of their positions, numbered afresh, the keys in order. *)
Lemma sort_by_column_values {host : Host} (df df' : DataFrame) (column : pystr)
    (ascending : bool) :
  argsort_sorts argsort ->
  sort_by_column df column ascending = Ok df' ->
  exists j p, lookup_column column (columns df) = OneColumn j /\
    columns df' = columns df /\
    map fst (rows df') = seq 0 (length (rows df')) /\
    Permutation p (seq 0 (length (rows df))) /\
    (forall i, column_values i df' = map (fun a => nth a (column_values i df) NA) p) /\
    StronglySorted (fun a b => ordered ascending a b = true) (column_values j df').
Proof.
  intros sorts H. pose proof (sort_by_column_rows _ _ _ _ sorts H) as Lr.
  unfold sort_by_column, sort_values in H.
  destruct (lookup_column column (columns df)) as [|j|] eqn:L; try discriminate.
  destruct (homogeneous (filter notna (column_values j df))) eqn:C; [|discriminate].
  cbn [bind] in H. injection H as <-.
  set (k := column_values j df) in *.
  exists j, (nargsort k ascending).
  split; [reflexivity|]. split; [reflexivity|]. split; [|split; [|split]].
  - rewrite (proj1 (rows_reset_index _)). f_equal.
    rewrite <- (length_map fst (rows (reset_index _))), (proj1 (rows_reset_index _)).
    rewrite length_seq. reflexivity.
  - replace (length (rows df)) with (length k)
      by (unfold k, column_values; apply length_map).
    apply (nargsort_perm sorts k C ascending).
  - intros i. rewrite column_values_reset_index, column_values_take. reflexivity.
  - rewrite column_values_reset_index, column_values_take. fold k.
    eapply StronglySorted_map_in; [|apply (nargsort_sorted sorts k C ascending)].
    intros a b _ _ G. exact G.
Qed.

Lemma Forall_rearranged {A : Type} (P : A -> Prop) (l : list A) (d : A) (p : list nat) :
  Permutation p (seq 0 (length l)) -> Forall P l ->
  Forall P (map (fun a => nth a l d) p).
Proof.
  intros Pm F. apply Forall_forall. intros x I.
  apply in_map_iff in I as (a & <- & I). rewrite Forall_forall in F.
  apply F, nth_In. apply (Permutation_in _ Pm) in I. apply in_seq in I. lia.
Qed.

Lemma sort_by_column_keeps {host : Host} (P : cell -> Prop) (df df' : DataFrame)
    (column : pystr) (ascending : bool) (i : nat) :
  argsort_sorts argsort ->
  sort_by_column df column ascending = Ok df' ->
  Forall P (column_values i df) -> Forall P (column_values i df').
Proof.
  intros sorts H F.
  destruct (sort_by_column_values _ _ _ _ sorts H) as (j & p & _ & _ & _ & Pm & V & _).
  rewrite V. apply Forall_rearranged; [|exact F].
  unfold column_values. rewrite length_map. exact Pm.
Qed.

Lemma integral_values (l : list cell) :
  Forall (fun c => integral c = true) l -> l = map Int (map int_value l).
Proof.
  induction 1 as [|c l I _ IH]; [reflexivity|].
  destruct c; try discriminate. cbn [map int_value]. rewrite <- IH. reflexivity.
Qed.

Lemma integral_sorted (ascending : bool) (l : list cell) :
  Forall (fun c => integral c = true) l ->
  StronglySorted (fun a b => ordered ascending a b = true) l ->
  StronglySorted (fun x y => if ascending then (x <= y)%Z else (y <= x)%Z)
    (map int_value l).
Proof.
  intros F S. eapply StronglySorted_map_in; [|exact S].
  intros a b Ia Ib O. rewrite Forall_forall in F.
  pose proof (F a Ia) as Fa. pose proof (F b Ib) as Fb.
  destruct a; try discriminate. destruct b; try discriminate.
  cbn [int_value]. unfold ordered in O. cbn [isna notna negb orb andb] in O.
  destruct ascending; rewrite key_leb_Int in O; apply Z.leb_le, O.
Qed.

Lemma lookup_column_apart (c c' : pystr) (cols : list pystr) (j j' : nat) :
  c <> c' -> lookup_column c cols = OneColumn j -> lookup_column c' cols = OneColumn j' ->
  j <> j'.
Proof.
  intros N L L' E. subst j'. apply lookup_column_one in L, L'. congruence.
Qed.

Lemma numeric_row_filter_values (df df' : DataFrame) (column : pystr) :
  make_numeric_row_filter column df = Ok df' ->
  exists j, lookup_column column (columns df) = OneColumn j /\
    columns df' = columns df /\
    Forall (fun c => parses_as_number c = true) (column_values j df').
Proof.
  unfold make_numeric_row_filter, filter_rows_with_numeric_column.
  destruct (lookup_column column (columns df)) as [|j|]; try discriminate.
  intros H. injection H as <-. exists j. split; [reflexivity|]. split; [reflexivity|].
  rewrite column_values_loc, map_map, select_filter.
  apply Forall_forall. intros c I. apply filter_In in I. apply I.
Qed.

(** The four cleaning steps every chain starts with never raise. *)
Lemma cleaning_steps {host : Host} (mapping : dict) (rest : list step) (df : DataFrame) :
  argsort_sorts argsort -> rectangular df ->
  exists d, rectangular d /\
    run_transformations
      (DropEmptyColumns :: DropEmptyRows :: StandardizeColumnNames
         :: ColumnRenamer mapping :: rest) df
    = run_transformations rest d.
Proof.
  intros sorts W.
  exists (make_column_renamer mapping
            (standardize_column_names
               (drop_completely_empty_rows (drop_completely_empty_columns df)))).
  split; [|reflexivity].
  apply (transformation_rectangular (ColumnRenamer mapping) _ _ sorts eq_refl).
  apply (transformation_rectangular StandardizeColumnNames _ _ sorts eq_refl).
  apply (transformation_rectangular DropEmptyRows _ _ sorts eq_refl).
  apply (transformation_rectangular DropEmptyColumns _ _ sorts eq_refl W).
Qed.

Ltac labels_differ :=
  let E := fresh in intros E; vm_compute in E; discriminate E.

Ltac run_step H d E :=
  cbn [run_transformations] in H;
  match type of H with
  | bind ?r _ = Ok _ => destruct r as [d|] eqn:E; [cbn [bind] in H | discriminate H]
  end.

(** A by-year chain is the four cleaning steps, which never raise,
    followed by the numeric filter, the two casts and the sort. *)
Lemma by_year_chain_split {host : Host} (chain : list step) (df df' : DataFrame) :
  argsort_sorts argsort ->
  chain = adhesion_by_year \/ chain = certification_by_year ->
  rectangular df ->
  run_transformations chain df = Ok df' ->
  exists d, rectangular d /\
    run_transformations
      [ NumericRowFilter (py "year"); IntegerColumn (py "year");
        IntegerEnforcer [py "installations"; py "companies"];
        Sorter (py "year") true ] d = Ok df'.
Proof.
  intros sorts Hc W H.
  destruct Hc as [-> | ->];
    unfold adhesion_by_year, certification_by_year in H;
    match type of H with
    | run_transformations (_ :: _ :: _ :: ColumnRenamer ?m :: ?rest) _ = _ =>
        destruct (cleaning_steps m rest df sorts W) as (d & Wd & E)
    end;
    exists d; (split; [exact Wd|]); rewrite <- E; exact H.
Qed.

(** What the last four steps of a by-year chain leave. *)
Lemma by_year_tail {host : Host} (d df' : DataFrame) :
  argsort_sorts argsort ->
  rectangular d ->
  run_transformations
    [ NumericRowFilter (py "year"); IntegerColumn (py "year");
      IntegerEnforcer [py "installations"; py "companies"];
      Sorter (py "year") true ] d = Ok df' ->
  exists jy ji jc,
    (lookup_column (py "year") (columns df') = OneColumn jy /\
     lookup_column (py "installations") (columns df') = OneColumn ji /\
     lookup_column (py "companies") (columns df') = OneColumn jc) /\
    (jy <> ji /\ jy <> jc /\ ji <> jc) /\
    (Forall (fun c => integral c = true) (column_values jy df') /\
     Forall (fun c => integral c = true) (column_values ji df') /\
     Forall (fun c => integral c = true) (column_values jc df')) /\
    StronglySorted (fun a b => ordered true a b = true) (column_values jy df') /\
    map fst (rows df') = seq 0 (length (rows df')) /\
    rectangular df'.
Proof.
  intros sorts W H.
  run_step H d1 E1. run_step H d2 E2. run_step H d3 E3. run_step H d4 E4.
  cbn [run_transformations] in H. injection H as ->.
  cbn [transformation] in E1, E2, E3, E4.
  pose proof (transformation_rectangular (NumericRowFilter _) _ _ sorts E1 W) as W1.
  destruct (numeric_row_filter_values _ _ _ E1) as (jy & Ly & C1 & _).
  unfold make_integer_column in E2.
  pose proof (assign_integer_column_rectangular _ _ _ E2 W1) as W2.
  destruct (assign_integer_column_values _ _ _ W1 E2) as (jy' & Ly' & C2 & _ & Iy & _).
  rewrite C1, Ly in Ly'. injection Ly' as <-.
  unfold make_integer_enforcer in E3. cbn [enforce_integer_columns] in E3.
  destruct (assign_integer_column d2 (py "installations")) as [d2'|] eqn:E3a;
    [|discriminate]. cbn [bind] in E3.
  destruct (assign_integer_column d2' (py "companies")) as [d2''|] eqn:E3b;
    [|discriminate]. cbn [bind] in E3. injection E3 as ->.
  pose proof (assign_integer_column_rectangular _ _ _ E3a W2) as W2'.
  pose proof (assign_integer_column_rectangular _ _ _ E3b W2') as W3.
  destruct (assign_integer_column_values _ _ _ W2 E3a) as (ji & Li & C3a & _ & Ii & Ui).
  destruct (assign_integer_column_values _ _ _ W2' E3b) as (jc & Lc & C3b & _ & Ic & Uc).
  rewrite C3a in Lc. rewrite C2, C1 in Li, Lc.
  assert (Nyi : jy <> ji)
    by (apply (lookup_column_apart (py "year") (py "installations") _ _ _
                 ltac:(labels_differ) Ly Li)).
  assert (Nyc : jy <> jc)
    by (apply (lookup_column_apart (py "year") (py "companies") _ _ _
                 ltac:(labels_differ) Ly Lc)).
  assert (Nic : ji <> jc)
    by (apply (lookup_column_apart (py "installations") (py "companies") _ _ _
                 ltac:(labels_differ) Li Lc)).
  rewrite <- (Ui _ Nyi) in Iy. rewrite <- (Uc _ Nyc) in Iy. rewrite <- (Uc _ Nic) in Ii.
  unfold make_sorter in E4.
  pose proof (transformation_rectangular (Sorter _ _) _ _ sorts E4 W3) as W4.
  destruct (sort_by_column_values _ _ _ _ sorts E4) as (jy' & p & Ly' & C4 & F4 & _ & _ & S).
  rewrite C3b, C3a, C2, C1, Ly in Ly'. injection Ly' as <-.
  pose proof (sort_by_column_keeps _ _ _ _ _ jy sorts E4 Iy) as Jy.
  pose proof (sort_by_column_keeps _ _ _ _ _ ji sorts E4 Ii) as Ji.
  pose proof (sort_by_column_keeps _ _ _ _ _ jc sorts E4 Ic) as Jc.
  exists jy, ji, jc. rewrite C4, C3b, C3a, C2, C1.
  repeat split; assumption.
Qed.

(** X10: when one of the two by-year chains succeeds on a rectangular
    table, the table it returns has exactly one column labelled year, one
    labelled installations and one labelled companies, all three holding
    whole numbers only, the years in non decreasing order, and the rows
    numbered from zero. *)
Theorem by_year_chain_output {host : Host} (chain : list step) (df df' : DataFrame) :
  argsort_sorts argsort ->
  chain = adhesion_by_year \/ chain = certification_by_year ->
  rectangular df ->
  run_transformations chain df = Ok df' ->
  exists jy ji jc ys,
    lookup_column (py "year") (columns df') = OneColumn jy /\
    lookup_column (py "installations") (columns df') = OneColumn ji /\
    lookup_column (py "companies") (columns df') = OneColumn jc /\
    column_values jy df' = map Int ys /\
    StronglySorted Z.le ys /\
    Forall (fun c => integral c = true) (column_values ji df') /\
    Forall (fun c => integral c = true) (column_values jc df') /\
    map fst (rows df') = seq 0 (length (rows df')) /\
    rectangular df'.
Proof.
  intros sorts Hc W H.
  destruct (by_year_chain_split chain df df' sorts Hc W H) as (d & Wd & T).
  destruct (by_year_tail d df' sorts Wd T)
    as (jy & ji & jc & (Ly & Li & Lc) & _ & (Jy & Ji & Jc) & S & F & W').
  exists jy, ji, jc, (map int_value (column_values jy df')).
  repeat split; try assumption.
  - apply integral_values, Jy.
  - apply (integral_sorted true _ Jy S).
Qed.

Lemma by_year_chain_output_witness :
  let df' := {| columns := [py "year"; py "installations"; py "companies"];
                rows := [ (0, [Int 2009; Int 3; Int (-3)]); (1, [Int 2010; Int 0; Int 2]);
                          (2, [Int 2011; Int 7; Int 0]) ] |} in
  exists jy ji jc ys,
    lookup_column (py "year") (columns df') = OneColumn jy /\
    lookup_column (py "installations") (columns df') = OneColumn ji /\
    lookup_column (py "companies") (columns df') = OneColumn jc /\
    column_values jy df' = map Int ys /\
    StronglySorted Z.le ys /\
    Forall (fun c => integral c = true) (column_values ji df') /\
    Forall (fun c => integral c = true) (column_values jc df') /\
    map fst (rows df') = seq 0 (length (rows df')) /\
    rectangular df'.
Proof.
  refine (@by_year_chain_output keep_host adhesion_by_year
            {| columns := [py " Año Adhesión-Establecimiento"; py "Instalaciones  adheridas";
                           py "Empresas adheridas"; py "Notas"];
               rows := [ (0, [Str (py "2011"); Str (py "7.9"); NA; NA]);
                         (1, [Str (py "Total"); Int 12; Int 5; NA]);
                         (2, [NA; NA; NA; NA]);
                         (3, [Float (Qmake 4021 2); Str (py "n/a"); Int 2; NA]);
                         (4, [Int 2009; Int 3; Float (Qmake (-7) 2); NA]) ] |}
            _ argsort_keep_sorts (or_introl eq_refl) _ _).
  - repeat constructor.
  - vm_compute. reflexivity.
Defined.

(** X11: when one of the two by-sector chains succeeds on a rectangular
    table, the table it returns has exactly one column labelled
    installations, holding whole numbers only and in non increasing
    order, and its rows are numbered from zero. *)
Theorem by_sector_chain_output {host : Host} (chain : list step) (df df' : DataFrame) :
  argsort_sorts argsort ->
  chain = adhesion_by_sector \/ chain = certification_by_sector ->
  rectangular df ->
  run_transformations chain df = Ok df' ->
  exists ji zs,
    lookup_column (py "installations") (columns df') = OneColumn ji /\
    column_values ji df' = map Int zs /\
    StronglySorted (fun x y => (y <= x)%Z) zs /\
    map fst (rows df') = seq 0 (length (rows df')) /\
    rectangular df'.
Proof.
  intros sorts Hc W H.
  assert (T : exists d, rectangular d /\
                run_transformations
                  [ IntegerColumn (py "installations");
                    Sorter (py "installations") false ] d = Ok df').
  { destruct Hc as [-> | ->];
      unfold adhesion_by_sector, certification_by_sector in H;
      match type of H with
      | run_transformations (_ :: _ :: _ :: ColumnRenamer ?m :: ?rest) _ = _ =>
          destruct (cleaning_steps m rest df sorts W) as (d & Wd & E)
      end;
      exists d; (split; [exact Wd|]); rewrite <- E; exact H. }
  clear H Hc W df. destruct T as (d & W & H).
  run_step H d1 E1. run_step H d2 E2.
  cbn [run_transformations] in H. injection H as ->.
  cbn [transformation] in E1, E2. unfold make_integer_column in E1.
  pose proof (assign_integer_column_rectangular _ _ _ E1 W) as W1.
  destruct (assign_integer_column_values _ _ _ W E1) as (ji & Li & C1 & _ & Ii & _).
  unfold make_sorter in E2.
  pose proof (transformation_rectangular (Sorter _ _) _ _ sorts E2 W1) as W2.
  destruct (sort_by_column_values _ _ _ _ sorts E2) as (ji' & p & Li' & C2 & F2 & _ & _ & S).
  rewrite C1, Li in Li'. injection Li' as <-.
  pose proof (sort_by_column_keeps _ _ _ _ _ ji sorts E2 Ii) as Ji.
  exists ji, (map int_value (column_values ji df')).
  rewrite C2, C1. repeat split; try assumption.
  - apply integral_values, Ji.
  - apply (integral_sorted false _ Ji S).
Qed.

Lemma by_sector_chain_output_witness :
  let df' := {| columns := [py "sector"; py "installations"];
                rows := [ (0, [Str (py "Turismo"); Int 12]);
                          (1, [Str (py "Agricultura"); Int 7]);
                          (2, [Str (py "Pesca"); Int 0]) ] |} in
  exists ji zs,
    lookup_column (py "installations") (columns df') = OneColumn ji /\
    column_values ji df' = map Int zs /\
    StronglySorted (fun x y => (y <= x)%Z) zs /\
    map fst (rows df') = seq 0 (length (rows df')) /\
    rectangular df'.
Proof.
  refine (@by_sector_chain_output keep_host adhesion_by_sector
            {| columns := [py "Sector Económico"; py "Instalaciones adheridas por sector";
                           py "Unnamed: 2"];
               rows := [ (0, [Str (py "Agricultura"); Str (py "7.9"); NA]);
                         (1, [Str (py "Pesca"); Str (py "s/i"); NA]);
                         (2, [NA; NA; NA]);
                         (3, [Str (py "Turismo"); Int 12; NA]) ] |}
            _ argsort_keep_sorts (or_introl eq_refl) _ _).
  - repeat constructor.
  - vm_compute. reflexivity.
Defined.

Lemma value_filter_values {host : Host} (df df' : DataFrame) (column : pystr)
    (allowed_values : list pystr) :
  make_value_filter column allowed_values df = Ok df' ->
  exists j, lookup_column column (columns df) = OneColumn j /\
    columns df' = columns df /\
    Forall (fun c => matches_allowed allowed_values c = true) (column_values j df').
Proof.
  unfold make_value_filter.
  destruct (lookup_column column (columns df)) as [|j|]; try discriminate.
  intros H. injection H as <-. exists j. split; [reflexivity|]. split; [reflexivity|].
  rewrite column_values_loc, select_filter.
  apply Forall_forall. intros c I. apply filter_In in I. apply I.
Qed.

(** X12: when the by-size chain succeeds on a rectangular table, the
    table it returns has exactly one column for each of company_size,
    companies and installations; every company size, lowercased, is one
    of the five allowed sizes lowercased; companies and installations
    hold whole numbers only, the companies in non increasing order; and
    the rows are numbered from zero. *)
Theorem by_size_chain_output {host : Host} (df df' : DataFrame) :
  argsort_sorts argsort ->
  rectangular df ->
  run_transformations adhesion_by_size df = Ok df' ->
  exists js jc ji zs,
    lookup_column (py "company_size") (columns df') = OneColumn js /\
    lookup_column (py "companies") (columns df') = OneColumn jc /\
    lookup_column (py "installations") (columns df') = OneColumn ji /\
    Forall (fun c => matches_allowed
                       [py "PEQUEÑA"; py "MICRO"; py "MEDIANA"; py "GRANDE"; py "SSPP"] c
                     = true)
      (column_values js df') /\
    column_values jc df' = map Int zs /\
    StronglySorted (fun x y => (y <= x)%Z) zs /\
    Forall (fun c => integral c = true) (column_values ji df') /\
    map fst (rows df') = seq 0 (length (rows df')) /\
    rectangular df'.
Proof.
  intros sorts W H. unfold adhesion_by_size in H.
  match type of H with
  | run_transformations (_ :: _ :: _ :: ColumnRenamer ?m :: ?rest) _ = _ =>
      destruct (cleaning_steps m rest df sorts W) as (d & Wd & E)
  end.
  rewrite E in H. clear E W df.
  run_step H d1 E1. run_step H d2 E2. run_step H d3 E3. run_step H d4 E4.
  cbn [run_transformations] in H. injection H as ->.
  pose proof (transformation_rectangular _ _ _ sorts E1 Wd) as W1.
  pose proof (transformation_rectangular _ _ _ sorts E2 W1) as W2.
  pose proof (transformation_rectangular _ _ _ sorts E3 W2) as W3.
  pose proof (transformation_rectangular _ _ _ sorts E4 W3) as W4.
  cbn [transformation] in E1, E2, E3, E4.
  assert (C1 : columns d1 = columns d).
  { unfold make_non_null_filter, dropna_subset in E1.
    destruct (find _ _); [discriminate|]. injection E1 as <-. reflexivity. }
  destruct (value_filter_values _ _ _ _ E2) as (js & Ls & C2 & Ms).
  unfold make_integer_enforcer in E3. cbn [enforce_integer_columns] in E3.
  destruct (assign_integer_column d2 (py "companies")) as [d2'|] eqn:E3a;
    [|discriminate]. cbn [bind] in E3.
  destruct (assign_integer_column d2' (py "installations")) as [d2''|] eqn:E3b;
    [|discriminate]. cbn [bind] in E3. injection E3 as ->.
  pose proof (assign_integer_column_rectangular _ _ _ E3a W2) as W2'.
  destruct (assign_integer_column_values _ _ _ W2 E3a) as (jc & Lc & C3a & _ & Ic & Uc).
  destruct (assign_integer_column_values _ _ _ W2' E3b) as (ji & Li & C3b & _ & Ii & Ui).
  rewrite C3a in Li. rewrite C2 in Lc, Li.
  assert (Nsc : js <> jc)
    by (apply (lookup_column_apart (py "company_size") (py "companies") _ _ _
                 ltac:(labels_differ) Ls Lc)).
  assert (Nsi : js <> ji)
    by (apply (lookup_column_apart (py "company_size") (py "installations") _ _ _
                 ltac:(labels_differ) Ls Li)).
  assert (Nci : jc <> ji)
    by (apply (lookup_column_apart (py "companies") (py "installations") _ _ _
                 ltac:(labels_differ) Lc Li)).
  rewrite <- (Uc _ Nsc) in Ms. rewrite <- (Ui _ Nsi) in Ms. rewrite <- (Ui _ Nci) in Ic.
  unfold make_sorter in E4.
  destruct (sort_by_column_values _ _ _ _ sorts E4) as (jc' & p & Lc' & C4 & F4 & _ & _ & S).
  rewrite C3b, C3a, C2, Lc in Lc'. injection Lc' as <-.
  pose proof (sort_by_column_keeps _ _ _ _ _ js sorts E4 Ms) as Js.
  pose proof (sort_by_column_keeps _ _ _ _ _ jc sorts E4 Ic) as Jc.
  pose proof (sort_by_column_keeps _ _ _ _ _ ji sorts E4 Ii) as Ji.
  exists js, jc, ji, (map int_value (column_values jc df')).
  rewrite C4, C3b, C3a, C2.
  repeat split; try assumption.
  - apply integral_values, Jc.
  - apply (integral_sorted false _ Jc S).
Qed.

Lemma by_size_chain_output_witness :
  let df' := {| columns := [py "company_size"; py "companies"; py "installations"];
                rows := [ (0, [Str (py "Pequeña"); Int 9; Int 0]);
                          (1, [Str (py "MICRO"); Int 4; Int 6]) ] |} in
  exists js jc ji zs,
    lookup_column (py "company_size") (columns df') = OneColumn js /\
    lookup_column (py "companies") (columns df') = OneColumn jc /\
    lookup_column (py "installations") (columns df') = OneColumn ji /\
    Forall (fun c => @matches_allowed keep_host
                       [py "PEQUEÑA"; py "MICRO"; py "MEDIANA"; py "GRANDE"; py "SSPP"] c
                     = true)
      (column_values js df') /\
    column_values jc df' = map Int zs /\
    StronglySorted (fun x y => (y <= x)%Z) zs /\
    Forall (fun c => integral c = true) (column_values ji df') /\
    map fst (rows df') = seq 0 (length (rows df')) /\
    rectangular df'.
Proof.
  refine (@by_size_chain_output keep_host
            {| columns := [py "Tamaño Empresa"; py "Empresas"; py "Instalación"];
               rows := [ (0, [Str (py "MICRO"); Int 4; Int 6]);
                         (1, [NA; Int 2; Int 2]);
                         (2, [Str (py "Total"); Int 15; Int 8]);
                         (3, [Str (py "Pequeña"); Str (py "9"); NA]) ] |}
            _ argsort_keep_sorts _ _).
  - repeat constructor.
  - vm_compute. reflexivity.
Defined.

(** ** A table without data *)

Lemma select_none {A B : Type} (f : B -> bool) (l : list B) (cols : list A) :
  (forall x, In x l -> f x = false) -> select (map f l) cols = [].
Proof.
  revert cols. induction l as [|x l IH]; intros cols F; [reflexivity|].
  destruct cols as [|c cols]; [reflexivity|]. cbn [map select].
  rewrite (F x) by (left; reflexivity). apply IH. intros y I. apply F. right. exact I.
Qed.

Lemma blank_column (j : nat) (rs : list row) :
  (forall r, In r rs -> forallb isna (snd r) = true) ->
  existsb notna (map (cell_at j) rs) = false.
Proof.
  induction rs as [|r rs IH]; intros B; [reflexivity|].
  cbn [map existsb]. rewrite IH by (intros x I; apply B; right; exact I).
  rewrite orb_false_r. unfold cell_at, notna.
  pose proof (B r (or_introl eq_refl)) as Br. rewrite forallb_forall in Br.
  destruct (nth_in_or_default j (snd r) NA) as [I|E].
  - rewrite (Br _ I). reflexivity.
  - rewrite E. reflexivity.
Qed.

Lemma blank_table_cleaned (df : DataFrame) :
  (forall r, In r (rows df) -> forallb isna (snd r) = true) ->
  drop_completely_empty_rows (drop_completely_empty_columns df)
  = {| columns := []; rows := [] |}.
Proof.
  intros B. unfold drop_completely_empty_rows, drop_completely_empty_columns,
    dropna_rows, dropna_columns. cbn [rows columns].
  assert (M : forall j, In j (seq 0 (length (columns df))) ->
                        existsb notna (column_values j df) = false)
    by (intros j _; apply blank_column, B).
  rewrite (select_none _ _ (columns df) M). f_equal.
  induction (rows df) as [|r rs IH]; [reflexivity|].
  cbn [map filter fst snd]. rewrite (select_none _ _ (snd r) M). cbn [existsb].
  apply IH. intros x I. apply B. right. exact I.
Qed.



(** ** The validators *)

Lemma missing_columns_nil (expected cols : list pystr) :
  filter (fun column => negb (has_label column cols)) expected = [] <->
  incl expected cols.
Proof.
  induction expected as [|c cs IH].
  - split; [intros _ x [] | reflexivity].
  - cbn [filter]. destruct (has_label c cols) eqn:E; cbn [negb].
    + rewrite IH. apply has_label_In in E. split.
      * intros I x [<-|Hx]; [exact E | apply I, Hx].
      * intros I x Hx. apply I. right. exact Hx.
    + split; [discriminate|]. intros I. exfalso.
      assert (In c cols) as Ic by (apply I; left; reflexivity).
      apply has_label_In in Ic. congruence.
Qed.

Lemma lookup_column_present (c : pystr) (cols : list pystr) :
  In c cols -> lookup_column c cols <> NoColumn.
Proof.
  intros I. destruct (In_nth_error _ _ I) as [j Hj].
  assert (J : In j (positions c cols 0)).
  { apply positions_In. split; [lia|]. rewrite Nat.sub_0_r. exact Hj. }
  unfold lookup_column. destruct (positions c cols 0) as [|a [|b l]];
    [contradiction | discriminate | discriminate].
Qed.

Lemma astype_int_error (series : list cell) (c : pystr) :
  astype_int series <> Raise (KeyError c).
Proof.
  induction series as [|v l IH]; [discriminate|].
  cbn [astype_int]. destruct v; cbn [astype_int_cell bind]; try discriminate;
    destruct (astype_int l) as [vs|e]; cbn [bind]; try discriminate;
      intros E; apply IH; exact E.
Qed.

Lemma enforce_integer_columns_found (columns_ : list pystr) (df : DataFrame) (c : pystr) :
  incl columns_ (columns df) -> enforce_integer_columns df columns_ <> Raise (KeyError c).
Proof.
  revert df. induction columns_ as [|x cs IH]; intros df I; [discriminate|].
  cbn [enforce_integer_columns].
  destruct (assign_integer_column df x) as [d|e] eqn:E; cbn [bind].
  - apply IH. rewrite (assign_integer_column_columns _ _ _ E).
    intros y Hy. apply I. right. exact Hy.
  - unfold assign_integer_column in E.
    pose proof (lookup_column_present x (columns df) (I x (or_introl eq_refl))) as P.
    destruct (lookup_column x (columns df)); [congruence | | congruence].
    unfold to_integer_series in E.
    destruct (astype_int (map fillna0 (map to_numeric (column_values j df))))
      as [vs|e'] eqn:T; [discriminate|].
    cbn [bind] in E. injection E as <-. intros G. injection G as ->.
    apply (astype_int_error _ _ T).
Qed.

(** X14: the extractor with the required-columns validator hands the
    table on unchanged when every expected label is a header and raises
    ValueError otherwise; on a table it hands on, no step that looks up
    expected labels only raises KeyError. *)
Theorem required_columns_guard {host : Host} (expected_columns : list pystr)
    (dataframe : DataFrame) :
  let extracted :=
    extract (Some (RequiredColumnsValidator expected_columns)) dataframe in
  (incl expected_columns (columns dataframe) -> extracted = Ok dataframe) /\
  (~ incl expected_columns (columns dataframe) -> extracted = Raise ValueError) /\
  (forall df, extracted = Ok df ->
     forall s c, incl (reads s) expected_columns ->
                 transformation s df <> Raise (KeyError c)).
Proof.
  cbn zeta. unfold extract, validate.
  pose proof (missing_columns_nil expected_columns (columns dataframe)) as M.
  destruct (filter _ expected_columns) as [|m ms]; cbn [bind].
  - assert (I : incl expected_columns (columns dataframe)) by (apply M; reflexivity).
    split; [reflexivity|]. split; [intros N; contradiction|].
    intros df E s c R. injection E as <-.
    assert (P : forall x, In x (reads s) -> lookup_column x (columns dataframe) <> NoColumn)
      by (intros x Hx; apply lookup_column_present, I, R, Hx).
    destruct s; cbn [transformation reads] in *; try discriminate.
    + unfold make_numeric_row_filter, filter_rows_with_numeric_column.
      specialize (P column (or_introl eq_refl)).
      destruct (lookup_column column (columns dataframe)); congruence.
    + unfold make_integer_column. intros G.
      apply (enforce_integer_columns_found [column] dataframe c).
      * intros x Hx. apply I, R, Hx.
      * cbn [enforce_integer_columns]. rewrite G. reflexivity.
    + apply (enforce_integer_columns_found columns_ dataframe c).
      intros x Hx. apply I, R, Hx.
    + unfold make_sorter, sort_by_column, sort_values.
      specialize (P column (or_introl eq_refl)).
      destruct (lookup_column column (columns dataframe)); try congruence;
        [|discriminate].
      destruct (homogeneous _); discriminate.
    + unfold make_non_null_filter, dropna_subset.
      rewrite find_absent_none; [discriminate|].
      intros x Hx. apply I, R, Hx.
    + unfold make_value_filter.
      specialize (P column (or_introl eq_refl)).
      destruct (lookup_column column (columns dataframe)); congruence.
  - split; [|split; [reflexivity | discriminate]].
    intros I. apply M in I. discriminate.
Qed.

Lemma required_columns_guard_witness :
  @extract (Some (RequiredColumnsValidator [py "year"; py "companies"])) sample_years
  = Ok sample_years.
Proof.
  refine (proj1 (@required_columns_guard keep_host [py "year"; py "companies"]
                   sample_years) _).
  intros x [<-|[<-|[]]]; vm_compute; tauto.
Defined.

(** X15: the non-empty validator accepts a table exactly when it has at
    least one row and at least one column; a table it accepts can still
    be blank, in which case the cleaning steps leave a table it
    rejects. *)
Theorem non_empty_validator_accepts (dataframe : DataFrame) :
  (validate NonEmptyFrameValidator dataframe = Ok tt <->
   rows dataframe <> [] /\ columns dataframe <> []) /\
  (validate NonEmptyFrameValidator dataframe = Ok tt \/
   validate NonEmptyFrameValidator dataframe = Raise ValueError) /\
  ((forall r, In r (rows dataframe) -> forallb isna (snd r) = true) ->
   validate NonEmptyFrameValidator
     (drop_completely_empty_rows (drop_completely_empty_columns dataframe))
   = Raise ValueError).
Proof.
  unfold validate, empty. split; [|split].
  - destruct (rows dataframe) as [|r rs], (columns dataframe) as [|c cs];
      cbn [length Nat.eqb orb]; split; try discriminate;
        try (intros [A B]; congruence); intros _; split; discriminate.
  - destruct (_ || _); [right | left]; reflexivity.
  - intros B. rewrite (blank_table_cleaned dataframe B). reflexivity.
Qed.

Lemma non_empty_validator_accepts_witness :
  validate NonEmptyFrameValidator
    (drop_completely_empty_rows
       (drop_completely_empty_columns
          {| columns := [py "year"]; rows := [ (0, [NA]); (1, [NA]) ] |}))
  = Raise ValueError.
Proof.
  refine (proj2 (proj2 (non_empty_validator_accepts
                          {| columns := [py "year"]; rows := [ (0, [NA]); (1, [NA]) ] |}))
            _).
  intros r [<-|[<-|[]]]; reflexivity.
Defined.

(** ** Sorting without ties *)

Lemma sorted_perm_unique {A : Type} (R : A -> A -> Prop) (l1 l2 : list A) :
  (forall a b, In a l1 -> In b l1 -> R a b -> R b a -> a = b) ->
  Permutation l1 l2 -> StronglySorted R l1 -> StronglySorted R l2 -> l1 = l2.
Proof.
  revert l2. induction l1 as [|a l1 IH]; intros l2 U P S1 S2.
  - apply Permutation_nil in P. subst. reflexivity.
  - destruct l2 as [|b l2];
      [apply Permutation_sym, Permutation_nil in P; discriminate|].
    apply StronglySorted_inv in S1 as [S1 F1]. apply StronglySorted_inv in S2 as [S2 F2].
    rewrite Forall_forall in F1, F2.
    assert (E : a = b).
    { assert (Ia : In a (b :: l2)) by (apply (Permutation_in _ P); left; reflexivity).
      assert (Ib : In b (a :: l1))
        by (apply (Permutation_in _ (Permutation_sym P)); left; reflexivity).
      destruct Ia as [->|Ia]; [reflexivity|]. destruct Ib as [->|Ib]; [reflexivity|].
      apply U; [left; reflexivity | right; exact Ib | apply F1, Ib | apply F2, Ia]. }
    subst b. f_equal. apply IH; [|apply (Permutation_cons_inv P)|exact S1|exact S2].
    intros x y Ix Iy. apply U; right; assumption.
Qed.

Lemma present_keys (k : list cell) (i : nat) :
  In i (filter (fun i => notna (nth i k NA)) (seq 0 (length k))) ->
  i < length k /\ notna (nth i k NA) = true.
Proof.
  intros I. apply filter_In in I as [I N]. apply in_seq in I. split; [lia | exact N].
Qed.

Lemma nargsort_unique (h1 h2 : Host) (k : list cell) (ascending : bool) :
  argsort_sorts (@argsort h1) -> argsort_sorts (@argsort h2) ->
  homogeneous (filter notna k) = true ->
  (forall i i', i < length k -> i' < length k -> i <> i' ->
     notna (nth i k NA) = true -> notna (nth i' k NA) = true ->
     key_eqb (nth i k NA) (nth i' k NA) = false) ->
  @nargsort h1 k ascending = @nargsort h2 k ascending.
Proof.
  intros s1 s2 C D. rewrite !nargsort_unfold. f_equal.
  set (present := filter (fun i => notna (nth i k NA)) (seq 0 (length k))).
  assert (G : forall idx, Permutation idx present ->
            map (fun a => nth a idx 0) (@argsort h1 (map (fun i => nth i k NA) idx))
            = map (fun a => nth a idx 0) (@argsort h2 (map (fun i => nth i k NA) idx))).
  { intros idx Pi.
    pose proof (@part_perm h1 s1 k C idx Pi) as P1.
    pose proof (@part_perm h2 s2 k C idx Pi) as P2.
    apply (sorted_perm_unique
             (fun i i' => key_leb (nth i k NA) (nth i' k NA) = true)).
    - intros a b Ia Ib L L'.
      apply (Permutation_in _ P1), (Permutation_in _ Pi), present_keys in Ia.
      apply (Permutation_in _ P1), (Permutation_in _ Pi), present_keys in Ib.
      destruct Ia as [Ba Na], Ib as [Bb Nb].
      destruct (Nat.eq_dec a b) as [E|N]; [exact E|]. exfalso.
      pose proof (D a b Ba Bb N Na Nb) as F. unfold key_eqb in F.
      rewrite L, L' in F. discriminate.
    - eapply perm_trans; [exact P1 | apply Permutation_sym, P2].
    - apply (@part_sorted h1 s1 k C idx Pi).
    - apply (@part_sorted h2 s2 k C idx Pi). }
  destruct ascending.
  - apply G, Permutation_refl.
  - f_equal. apply G, Permutation_sym, Permutation_rev.
Qed.

(** X16: when no two present keys of the sort column compare equal, the
    sort step gives one and the same result on every host whose sorting
    routine meets its contract: the outcome depends on the routine only
    where keys tie. *)
Theorem sort_by_column_unique_without_ties (h1 h2 : Host) (df : DataFrame)
    (column : pystr) (ascending : bool) :
  argsort_sorts (@argsort h1) -> argsort_sorts (@argsort h2) ->
  (forall j i i', lookup_column column (columns df) = OneColumn j ->
     i < length (rows df) -> i' < length (rows df) -> i <> i' ->
     let key n := nth n (column_values j df) NA in
     notna (key i) = true -> notna (key i') = true -> key_eqb (key i) (key i') = false) ->
  @make_sorter h1 column ascending df = @make_sorter h2 column ascending df.
Proof.
  intros s1 s2 D. unfold make_sorter, sort_by_column, sort_values.
  destruct (lookup_column column (columns df)) as [|j|]; try reflexivity.
  destruct (homogeneous (filter notna (column_values j df))) eqn:C; [|reflexivity].
  rewrite (nargsort_unique h1 h2 _ ascending s1 s2 C); [reflexivity|].
  intros i i' B B'. unfold column_values in B, B'. rewrite length_map in B, B'.
  apply (D j i i' eq_refl B B').
Qed.

Lemma sort_by_column_unique_without_ties_witness :
  @make_sorter keep_host (py "installations") false sample_adhesion
  = @make_sorter flip_host (py "installations") false sample_adhesion.
Proof.
  refine (sort_by_column_unique_without_ties keep_host flip_host sample_adhesion
            (py "installations") false argsort_keep_sorts argsort_flip_sorts _).
  intros j i i' L. vm_compute in L. injection L as <-.
  intros B B' N. cbn [sample_adhesion rows length] in B, B'.
  destruct i as [|[|i]], i' as [|[|i']]; try lia; intros key _ _; reflexivity.
Defined.

(** ** What the yearly summary needs of its two tables *)

Lemma remove_nth_In {A : Type} (j : nat) (l : list A) (x : A) :
  In x (remove_nth j l) -> In x l.
Proof.
  revert j. induction l as [|y l IH]; intros j I; [destruct j; exact I|].
  destruct j; cbn [remove_nth] in I; [right; exact I|].
  destruct I as [->|I]; [left; reflexivity | right; apply (IH j), I].
Qed.

Lemma enforce_integer_columns_labels (columns_ : list pystr) (df df' : DataFrame) :
  enforce_integer_columns df columns_ = Ok df' ->
  forall c, In c columns_ -> In c (columns df).
Proof.
  revert df. induction columns_ as [|x cs IH]; intros df H c I; [contradiction|].
  cbn [enforce_integer_columns] in H.
  destruct (assign_integer_column df x) as [d|] eqn:E; [|discriminate].
  cbn [bind] in H. destruct I as [<-|I].
  - unfold assign_integer_column in E.
    destruct (lookup_column x (columns df)) as [|j|] eqn:L; try discriminate.
    apply lookup_column_one in L. apply (nth_error_In _ _ L).
  - rewrite <- (assign_integer_column_columns _ _ _ E). apply (IH d H c I).
Qed.

Lemma suffixed_label (ca rest : list pystr) (suffix name : pystr) :
  (forall x, In x ca -> In x by_year_columns) ->
  In name (map (fun c => if has_label c rest then c ++ suffix else c) ca) ->
  exists x, In x ca /\ In x by_year_columns /\
    (has_label x rest = true /\ name = x ++ suffix \/ name = x).
Proof.
  intros Y I. apply in_map_iff in I as (x & E & Ix). exists x.
  split; [exact Ix|]. split; [apply Y, Ix|].
  destruct (has_label x rest); [left; split; [reflexivity | symmetry; exact E]
                               | right; symmetry; exact E].
Qed.

Ltac label_cases H :=
  repeat match type of H with
         | In _ [] => destruct H
         | In _ _ => destruct H as [H|H]
         end.

(** X17: the yearly summary raises KeyError for year when one of the two
    tables has no year column; and when the labels of both tables are
    among year, installations and companies, it succeeds only if each
    table carries all three: a measurement that one side lacks leaves
    the other side's column without its suffix, and the cast of the
    suffixed label then fails. *)
Theorem yearly_summary_requirements {host : Host} (a c : DataFrame) :
  (lookup_column (py "year") (columns a) = NoColumn \/
   lookup_column (py "year") (columns c) = NoColumn ->
   build_yearly_summary a c = Raise (KeyError (py "year"))) /\
  (forall merged,
     (forall x, In x (columns a) -> In x by_year_columns) ->
     (forall x, In x (columns c) -> In x by_year_columns) ->
     build_yearly_summary a c = Ok merged ->
     forall x, In x by_year_columns -> In x (columns a) /\ In x (columns c)).
Proof.
  split.
  - unfold build_yearly_summary, merge_outer. intros [L|L]; rewrite L.
    + reflexivity.
    + destruct (lookup_column (py "year") (columns a)); reflexivity.
  - intros merged Ya Yc H. unfold build_yearly_summary in H.
    destruct (merge_outer a c (py "year") (py "_adhesion") (py "_certification"))
      as [m0|] eqn:M; [|discriminate]. cbn [bind] in H.
    destruct (enforce_integer_columns m0 int_columns) as [m1|] eqn:E; [|discriminate].
    clear H. pose proof (enforce_integer_columns_labels _ _ _ E) as Lb. clear E.
    unfold merge_outer in M.
    destruct (lookup_column (py "year") (columns a)) as [|jl|] eqn:La; try discriminate;
      destruct (lookup_column (py "year") (columns c)) as [|jr|] eqn:Lc; try discriminate.
    destruct (homogeneous _); [|discriminate]. injection M as <-. cbn [columns] in Lb.
    assert (Rc : forall x, In x (remove_nth jr (columns c)) -> In x by_year_columns)
      by (intros x I; apply Yc, (remove_nth_In jr), I).
    assert (G : forall x, In x [py "installations"; py "companies"] ->
                          In x (columns a) /\ In x (columns c)).
    { intros x Ix.
      assert (I : In (x ++ py "_adhesion") int_columns)
        by (label_cases Ix; subst x; vm_compute; tauto).
      apply Lb, in_app_or in I. destruct I as [I|I].
      - apply suffixed_label in I as (y & Iy & By & [[Hl Ey]|Ey]); [| |exact Ya].
        + apply app_inv_tail in Ey. subst y. split; [exact Iy|].
          apply has_label_In in Hl. apply (remove_nth_In jr), Hl.
        + exfalso. label_cases Ix; label_cases By; subst x y;
            vm_compute in Ey; discriminate Ey.
      - exfalso. apply suffixed_label in I as (y & Iy & By & [[Hl Ey]|Ey]); [| |exact Rc];
          label_cases Ix; label_cases By; subst x y; vm_compute in Ey; discriminate Ey. }
    intros x Ix. destruct Ix as [<-|Ix].
    + apply lookup_column_one in La, Lc.
      split; [apply (nth_error_In _ _ La) | apply (nth_error_In _ _ Lc)].
    + apply G, Ix.
Qed.

Lemma yearly_summary_requirements_witness :
  @build_yearly_summary keep_host
    {| columns := [py "installations"; py "companies"]; rows := [ (0, [Int 5; Int 3]) ] |}
    sample_certification
  = Raise (KeyError (py "year")).
Proof.
  refine (proj1 (@yearly_summary_requirements keep_host _ sample_certification) _).
  left. reflexivity.
Defined.

(** ** After the two cleaning steps *)

Lemma select_count {A : Type} (mask : list bool) (l : list A) :
  length (select mask l) <= length (filter (fun b : bool => b) mask).
Proof.
  revert l. induction mask as [|b mask IH]; intros l; [destruct l; cbn; lia|].
  destruct l as [|x l]; [cbn [select length]; lia|].
  cbn [select filter]. specialize (IH l). destruct b; cbn [length]; lia.
Qed.

(** The [j]-th cell that a mask keeps is the cell at the position of the
    [j]-th [true] of the mask. *)
Lemma nth_select (mask : list bool) (j : nat) :
  j < length (filter (fun b : bool => b) mask) ->
  exists i, i < length mask /\ nth i mask false = true /\
    forall l : list cell, nth j (select mask l) NA = nth i l NA.
Proof.
  revert j. induction mask as [|b mask IH]; intros j B; [cbn in B; lia|].
  cbn [filter] in B. destruct b.
  - destruct j as [|j].
    + exists 0. split; [cbn [length]; lia|]. split; [reflexivity|].
      intros [|x l]; reflexivity.
    + cbn [length] in B. destruct (IH j ltac:(lia)) as (i & Bi & Mi & Hi).
      exists (S i). split; [cbn [length]; lia|]. split; [exact Mi|].
      intros [|x l]; [destruct i; reflexivity|]. cbn [select nth]. apply Hi.
  - destruct (IH j B) as (i & Bi & Mi & Hi).
    exists (S i). split; [cbn [length]; lia|]. split; [exact Mi|].
    intros [|x l]; [destruct j, i; reflexivity|]. cbn [select nth]. apply Hi.
Qed.

Lemma select_all {A : Type} (mask : list bool) (l : list A) :
  length l <= length mask -> (forall i, i < length l -> nth i mask false = true) ->
  select mask l = l.
Proof.
  revert mask. induction l as [|x l IH]; intros [|b mask] L T; try reflexivity.
  - cbn [length] in L. lia.
  - pose proof (T 0 ltac:(cbn [length]; lia)) as T0. cbn [nth] in T0. subst b.
    cbn [select]. f_equal.
    apply IH; [cbn [length] in L; lia|].
    intros i Bi. apply (T (S i)). cbn [length]. lia.
Qed.

Lemma filter_twice {A : Type} (f : A -> bool) (l : list A) :
  filter f (filter f l) = filter f l.
Proof.
  induction l as [|x l IH]; [reflexivity|]. cbn [filter].
  destruct (f x) eqn:E; [cbn [filter]; rewrite E, IH; reflexivity | exact IH].
Qed.

(** X18: on a rectangular table, what the two cleaning steps return has
    no row and no column that is missing throughout, and cleaning it
    again, by either step, changes nothing. *)
Theorem cleaning_steps_fixed_point (df : DataFrame) :
  rectangular df ->
  let d := drop_completely_empty_rows (drop_completely_empty_columns df) in
  (forall r, In r (rows d) -> existsb notna (snd r) = true) /\
  (forall j, j < length (columns d) -> existsb notna (column_values j d) = true) /\
  drop_completely_empty_columns d = d /\
  drop_completely_empty_rows d = d.
Proof.
  intros W d.
  assert (R : forall r, In r (rows d) -> existsb notna (snd r) = true).
  { intros r I. apply filter_In in I. apply I. }
  assert (C : forall j, j < length (columns d) ->
                        existsb notna (column_values j d) = true).
  { intros j B. unfold d, drop_completely_empty_rows, dropna_rows, column_values.
    cbn [rows]. rewrite column_notna_filter.
    unfold drop_completely_empty_columns, dropna_columns. cbn [rows columns].
    unfold d, drop_completely_empty_rows, drop_completely_empty_columns, dropna_rows,
      dropna_columns in B. cbn [columns] in B.
    set (mask := map (fun j => existsb notna (column_values j df))
                   (seq 0 (length (columns df)))) in *.
    pose proof (select_count mask (columns df)) as Ct.
    destruct (nth_select mask j ltac:(lia)) as (i & Bi & Mi & Hi).
    rewrite map_map. cbn [snd]. unfold cell_at. cbn [snd].
    rewrite (map_ext _ (cell_at i)) by (intros r; apply Hi).
    unfold mask in Bi, Mi. rewrite length_map, length_seq in Bi.
    rewrite (nth_map_seq _ _ _ Bi) in Mi. exact Mi. }
  split; [exact R|]. split; [exact C|]. split.
  - assert (Wd : rectangular d).
    { unfold d, drop_completely_empty_rows, drop_completely_empty_columns, dropna_rows,
        dropna_columns, rectangular in *. cbn [rows columns].
      apply Forall_filter_rows. rewrite Forall_map. eapply Forall_impl; [|exact W].
      intros r L. cbn [snd]. apply select_same_length, L. }
    unfold drop_completely_empty_columns at 1. unfold dropna_columns.
    set (mask := map (fun j => existsb notna (column_values j d))
                   (seq 0 (length (columns d)))).
    assert (Lm : length mask = length (columns d))
      by (unfold mask; rewrite length_map, length_seq; reflexivity).
    assert (Tm : forall i, i < length (columns d) -> nth i mask false = true)
      by (intros i Bi; unfold mask; rewrite (nth_map_seq _ _ _ Bi); apply C, Bi).
    destruct d as [cols rs]. cbn [columns rows] in *. f_equal.
    + apply select_all; [lia | exact Tm].
    + unfold rectangular in Wd. cbn [rows columns] in Wd.
      rewrite <- (map_id rs) at 2. apply map_ext_in. intros [i cells] I.
      rewrite Forall_forall in Wd. specialize (Wd _ I). cbn [fst snd] in *.
      f_equal. apply select_all; [lia | rewrite Wd; exact Tm].
  - unfold d, drop_completely_empty_rows, dropna_rows. cbn [columns rows].
    rewrite filter_twice. reflexivity.
Qed.

Lemma cleaning_steps_fixed_point_witness :
  let d := {| columns := [py "a"; py "c"];
              rows := [ (0, [Int 1; Str (py "x")]); (2, [Float (Qmake 5 2); NA]) ] |} in
  (forall r, In r (rows d) -> existsb notna (snd r) = true) /\
  (forall j, j < length (columns d) -> existsb notna (column_values j d) = true) /\
  drop_completely_empty_columns d = d /\
  drop_completely_empty_rows d = d.
Proof.
  refine (cleaning_steps_fixed_point
            {| columns := [py "a"; py "b"; py "c"];
               rows := [ (0, [Int 1; NA; Str (py "x")]);
                         (1, [NA; NA; NA]);
                         (2, [Float (Qmake 5 2); NA; NA]) ] |} _).
  repeat constructor.
Defined.

(** ** The measurements in the yearly summary *)

Lemma by_year_positions (ca cc : list pystr) (jl jr : nat) :
  Permutation ca by_year_columns -> Permutation cc by_year_columns ->
  summary_layout ca cc jl jr = true -> summary_positions ca cc jr = true.
Proof.
  intros Pa Pc Lay.
  destruct (summary_layout_facts _ _ _ _ Lay) as (_ & _ & _ & (_ & Jc) & _).
  clear Lay. apply perm3_cases in Pa, Pc.
  destruct Pa as [->|[->|[->|[->|[->| ->]]]]];
    destruct Pc as [->|[->|[->|[->|[->| ->]]]]];
    vm_compute in Jc; injection Jc as <-; vm_compute; reflexivity.
Qed.



(** ** The whole run *)

Lemma integral_homogeneous (l : list cell) :
  Forall (fun x => integral x = true) l -> homogeneous (filter notna l) = true.
Proof.
  intros F. rewrite (integral_values l F). apply homogeneous_ints.
Qed.

Lemma integral_cell (r : row) (j : nat) :
  Forall (fun x => integral x = true) (snd r) -> j < length (snd r) ->
  integral (cell_at j r) = true.
Proof.
  intros F B. rewrite Forall_forall in F. apply F, nth_In, B.
Qed.

Lemma integral_column (j n : nat) (rs : list row) :
  (forall r, In r rs -> length (snd r) = n /\ Forall (fun x => integral x = true) (snd r)) ->
  j < n -> Forall (fun x => integral x = true) (map (cell_at j) rs).
Proof.
  intros H B. apply Forall_forall. intros x I.
  apply in_map_iff in I as (r & <- & I). destruct (H r I) as [L F].
  apply integral_cell; [exact F | lia].
Qed.

(** The yearly summary of two by-year tables of whole numbers is always
    built, and holds whole numbers only. *)
Lemma summary_of_integers {host : Host} (a c : DataFrame) (jl jr : nat) :
  rectangular a -> rectangular c ->
  summary_layout (columns a) (columns c) jl jr = true ->
  (forall r, In r (rows a) -> Forall (fun x => integral x = true) (snd r)) ->
  (forall r, In r (rows c) -> Forall (fun x => integral x = true) (snd r)) ->
  exists merged,
    build_yearly_summary a c = Ok merged /\
    columns merged = merged_labels (columns a) (columns c) jr /\
    (forall r, In r (rows merged) -> Forall (fun x => integral x = true) (snd r)) /\
    map fst (rows merged) = seq 0 (length (rows merged)).
Proof.
  intros Wa Wc Lay Ia Ic.
  destruct (summary_layout_facts _ _ _ _ Lay)
    as ((La & Lc & Hl & Hr) & _ & _ & (Ja & Jc) & (NDm & Im & Im') & Jm & _).
  set (mc := merged_labels (columns a) (columns c) jr) in *.
  assert (Ra : forall r, In r (rows a) ->
                 length (snd r) = 3 /\ Forall (fun x => integral x = true) (snd r)).
  { intros r I. split; [|apply Ia, I]. unfold rectangular in Wa.
    rewrite Forall_forall in Wa. rewrite (Wa r I). exact La. }
  assert (Rc : forall r, In r (rows c) ->
                 length (snd r) = 3 /\ Forall (fun x => integral x = true) (snd r)).
  { intros r I. split; [|apply Ic, I]. unfold rectangular in Wc.
    rewrite Forall_forall in Wc. rewrite (Wc r I). exact Lc. }
  assert (Lrc : length (remove_nth jr (columns c)) = 2).
  { pose proof (remove_nth_length jr (columns c) ltac:(lia)). lia. }
  unfold build_yearly_summary, merge_outer. rewrite Ja, Jc.
  rewrite integral_homogeneous
    by (apply Forall_app; split; [apply (integral_column jl 3 _ Ra Hl)
                                 | apply (integral_column jr 3 _ Rc Hr)]).
  cbn [bind]. fold (merged_labels (columns a) (columns c) jr). fold mc.
  match goal with
  | |- context [combine (seq 0 (length ?x)) ?x] => set (cells := x)
  end.
  assert (Pc : forall cs, In cs cells ->
                 length cs = 5 /\
                 Forall (fun x => x = NA \/ integral x = true) cs).
  { assert (weaken : forall l : list cell,
               Forall (fun x => integral x = true) l ->
               Forall (fun x => x = NA \/ integral x = true) l)
      by (intros l F; eapply Forall_impl; [|exact F]; intros x Hx; right; exact Hx).
    assert (blank : forall n, Forall (fun x => x = NA \/ integral x = true) (repeat NA n))
      by (intros n; apply Forall_forall; intros x Hx; apply repeat_spec in Hx;
          left; exact Hx).
    intros cs I. unfold cells in I. apply in_app_or in I as [I|I].
    - apply in_flat_map in I as (l & Il & I). destruct (Ra l Il) as [Ll Fl].
      destruct (filter _ (rows c)) as [|m ms] eqn:F in I.
      + destruct I as [<-|[]]. rewrite length_app, repeat_length, Ll, Lrc.
        split; [reflexivity|]. apply Forall_app. split; [apply weaken, Fl | apply blank].
      + apply in_map_iff in I as (r & <- & Ir). rewrite <- F in Ir.
        apply filter_In in Ir as [Ir _]. destruct (Rc r Ir) as [Lr Fr].
        rewrite length_app, Ll. split.
        * pose proof (remove_nth_length jr (snd r) ltac:(lia)). lia.
        * apply Forall_app. split; apply weaken; [exact Fl|].
          apply Forall_remove_nth, Fr.
    - apply in_map_iff in I as (r & <- & I). apply filter_In in I as [Ir _].
      destruct (Rc r Ir) as [Lr Fr]. rewrite length_app, set_nth_length, repeat_length, La.
      split.
      + pose proof (remove_nth_length jr (snd r) ltac:(lia)). lia.
      + apply Forall_app. split; [|apply weaken, Forall_remove_nth, Fr].
        apply Forall_set_nth; [|apply blank].
        right. apply integral_cell; [exact Fr | lia]. }
  set (m0 := {| columns := mc; rows := combine (seq 0 (length cells)) cells |}).
  assert (L5 : length mc = 5).
  { unfold mc, merged_labels. rewrite length_app, !length_map, La, Lrc. reflexivity. }
  assert (finite : forall x, x = NA \/ integral x = true -> parses_infinite x = false)
    by (intros x [->|Hx]; [reflexivity | destruct x; try discriminate; reflexivity]).
  rewrite (enforce_integer_columns_finite int_columns m0).
  - cbn [bind]. unfold sort_values. cbn [columns].
    change (columns m0) with mc. rewrite Jm.
    set (m1 := {| columns := mc; rows := _ |}).
    assert (R1 : forall r, In r (rows m1) ->
                   length (snd r) = 5 /\ Forall (fun x => integral x = true) (snd r)).
    { intros r I. unfold m1 in I. cbn [rows] in I.
      apply in_map_iff in I as ([i cs] & <- & I). unfold m0 in I. cbn [rows] in I.
      apply in_combine_r in I. destruct (Pc cs I) as [L _]. cbn [fst snd].
      rewrite (coerce_cells_all mc int_columns cs) by (rewrite ?L5; assumption).
      rewrite length_map. split; [exact L|].
      apply Forall_forall. intros x Hx. apply in_map_iff in Hx as (x0 & <- & _).
      reflexivity. }
    rewrite integral_homogeneous by (apply (integral_column jl 5 _ R1); lia).
    eexists. split; [reflexivity|]. split; [reflexivity|]. split.
    + intros r I. apply (in_map snd) in I.
      rewrite (proj2 (rows_reset_index _)), rows_take in I.
      apply in_map_iff in I as (i & <- & _).
      destruct (nth_in_or_default i (map snd (rows m1)) []) as [I | ->]; [|constructor].
      apply in_map_iff in I as (r0 & <- & I). apply (R1 r0 I).
    + rewrite (proj1 (rows_reset_index _)). f_equal.
      rewrite <- (length_map fst (rows (reset_index _))), (proj1 (rows_reset_index _)).
      rewrite length_seq. reflexivity.
  - unfold rectangular, m0. cbn [columns rows]. apply Forall_forall.
    intros [i cs] I. apply in_combine_r in I. cbn [snd]. rewrite L5. apply (Pc cs I).
  - exact NDm.
  - exact Im'.
  - intros [i cs] j x I Ex _. unfold m0 in I, Ex. cbn [columns rows] in I, Ex.
    apply in_combine_r in I. destruct (Pc cs I) as [L F].
    unfold cell_at. cbn [snd]. rewrite Forall_forall in F. apply finite, F, nth_In.
    rewrite L, <- L5. apply nth_error_Some. congruence.
Qed.

(** The cells of a by-year result with just the three columns. *)
Lemma by_year_cells {host : Host} (chain : list step) (df df' : DataFrame) :
  argsort_sorts argsort ->
  chain = adhesion_by_year \/ chain = certification_by_year ->
  rectangular df ->
  run_transformations chain df = Ok df' ->
  Permutation (columns df') by_year_columns ->
  rectangular df' /\
  forall r, In r (rows df') -> Forall (fun x => integral x = true) (snd r).
Proof.
  intros sorts Hc W H P.
  destruct (by_year_chain_split chain df df' sorts Hc W H) as (d & Wd & T).
  destruct (by_year_tail d df' sorts Wd T)
    as (jy & ji & jc & (Ly & Li & Lc) & (Nyi & Nyc & Nic) & (Jy & Ji & Jc) & _ & _ & W').
  split; [exact W'|]. intros r I.
  pose proof (Permutation_length P) as L3. cbn [by_year_columns length] in L3.
  apply lookup_column_bound in Ly, Li, Lc. rewrite L3 in Ly, Li, Lc.
  assert (Lr : length (snd r) = 3).
  { unfold rectangular in W'. rewrite Forall_forall in W'. rewrite (W' r I). exact L3. }
  assert (G : forall j, Forall (fun x => integral x = true) (column_values j df') ->
                        integral (nth j (snd r) NA) = true).
  { intros j F. rewrite Forall_forall in F. apply F.
    unfold column_values. apply (in_map (cell_at j)), I. }
  apply (forall_nth_Forall _ NA). intros j B. rewrite Lr in B.
  assert (E : j = jy \/ j = ji \/ j = jc) by lia.
  destruct E as [->|[->| ->]]; apply G; assumption.
Qed.

Lemma ETLPipeline_run_results {host : Host} (extracted : pystr -> DataFrame)
    (results : list (pystr * DataFrame)) :
  ETLPipeline_run dataset_configs extracted = Ok results ->
  exists a c,
    run_transformations adhesion_by_year (extracted (py "adhesion_by_year")) = Ok a /\
    run_transformations certification_by_year (extracted (py "certification_by_year"))
    = Ok c /\
    frame_of (py "adhesion_by_year") results = Ok a /\
    frame_of (py "certification_by_year") results = Ok c.
Proof.
  unfold dataset_configs. cbn [ETLPipeline_run]. intros H.
  destruct (run_transformations adhesion_by_year _) as [a|]; [|discriminate].
  cbn [bind] in H.
  destruct (run_transformations adhesion_by_sector _) as [b|]; [|discriminate].
  cbn [bind] in H.
  destruct (run_transformations adhesion_by_size _) as [s|]; [|discriminate].
  cbn [bind] in H.
  destruct (run_transformations certification_by_year _) as [c|]; [|discriminate].
  cbn [bind] in H.
  destruct (run_transformations certification_by_sector _) as [t|]; [|discriminate].
  cbn [bind] in H. injection H as <-. exists a, c.
  split; [reflexivity|]. split; [reflexivity|]. split; vm_compute; reflexivity.
Qed.



(** ** Steps that follow one another in the configured chains *)

Lemma filter_filter_implied {A : Type} (f g : A -> bool) (l : list A) :
  (forall x, f x = true -> g x = true) -> filter f (filter g l) = filter f l.
Proof.
  intros H. induction l as [|x l IH]; [reflexivity|]. cbn [filter].
  destruct (g x) eqn:G; cbn [filter].
  - rewrite IH. reflexivity.
  - destruct (f x) eqn:F; [|exact IH]. rewrite (H x F) in G. discriminate.
Qed.

Lemma loc_column_mask (f : cell -> bool) (j : nat) (df : DataFrame) :
  loc df (map f (column_values j df))
  = {| columns := columns df; rows := filter (fun r => f (cell_at j r)) (rows df) |}.
Proof.
  unfold loc, column_values. f_equal. rewrite map_map.
  apply (select_filter (fun r => f (cell_at j r))).
Qed.

Lemma missing_not_allowed {host : Host} (allowed_values : list pystr) (c : cell) :
  (forall v, In v allowed_values -> lower v <> py "nan") ->
  existsb (pystr_eqb (lower (astype_str c))) (map lower allowed_values) = true ->
  notna c = true.
Proof.
  intros H E. destruct c; try reflexivity. exfalso.
  apply existsb_exists in E as (x & Ix & Ex). apply in_map_iff in Ix as (v & <- & Iv).
  apply pystr_eqb_eq in Ex. apply (H v Iv). rewrite <- Ex. vm_compute. reflexivity.
Qed.



Lemma to_integer_series_values (series vs : list cell) :
  to_integer_series series = Ok vs ->
  Forall (fun c => parses_infinite c = false) series /\
  vs = map (fun c => Int (integer_of c)) series.
Proof.
  intros H.
  assert (F : Forall (fun c => parses_infinite c = false) series).
  { apply Forall_forall. intros c I. destruct (parses_infinite c) eqn:P; [|reflexivity].
    rewrite to_integer_series_infinite in H; [discriminate|].
    apply Exists_exists. exists c. split; assumption. }
  split; [exact F|]. rewrite (to_integer_series_finite _ F) in H. congruence.
Qed.


